(** * ReSynth: chunking, query expansion, retrieval and citation attribution

    A shallow embedding of the Python sources

      - [src/processors/text_processor.py]   (TextProcessor)
      - [src/processors/chunker.py]          (SemanticChunker)
      - [src/resynth/retrieval/query_processor.py] (QueryProcessor)
      - [src/resynth/retrieval/retriever.py] (Retriever)
      - [src/synthesis/citation_formatter.py] (CitationFormatter)
      - [src/resynth/embeddings/vector_store.py] (VectorStore.search)
      - [src/resynth/synthesis/answer_synthesizer.py] (the local heuristics)

    Python [str] values are lists of code points; the development keeps to
    the code points below 256 (type [ascii]), with the character classes the
    [re] module and [str] methods use on that range.  Python [int] is [Z];
    a [float] is carried as the rational it denotes ([Q]).  The float
    arithmetic of [validate_retrieval_quality], [VectorStore.search] and
    [get_chunk_statistics] rounds as IEEE 754 binary64 does; the overlap
    ratio of the citation formatter and the confidence score of the
    synthesizer are taken exactly.  A raised exception is the [Raise]
    constructor of [res]. *)

From Stdlib Require Import ZArith QArith Lia List Ascii String DecimalString.
From Stdlib Require Import Sorted Permutation DecimalZ Lqa.
From stdpp Require Import base decidable list sorting gmap strings.
From Stdlib Require SpecFloat.

Local Open Scope Z_scope.
Local Open Scope nat_scope.

(** ** Python primitives *)

Module Py.

Definition str := list ascii.

Definition lit (s : string) : str := list_ascii_of_string s.

Definition code (c : ascii) : N := N_of_ascii c.

Definition in_range (lo hi : N) (c : ascii) : bool :=
  ((lo <=? code c) && (code c <=? hi))%N.

(** [str.isspace] / regex [\s] on code points below 256. *)
Definition isspace (c : ascii) : bool :=
  in_range 9 13 c || in_range 28 32 c || (code c =? 133)%N || (code c =? 160)%N.

(** regex [\d]. *)
Definition isdigit (c : ascii) : bool := in_range 48 57 c.

(** regex [\w] on code points below 256: alphanumerics and the underscore. *)
Definition isword (c : ascii) : bool :=
  in_range 48 57 c || in_range 65 90 c || (code c =? 95)%N || in_range 97 122 c
  || (code c =? 170)%N || in_range 178 179 c || (code c =? 181)%N
  || in_range 185 186 c || in_range 188 190 c || in_range 192 214 c
  || in_range 216 246 c || in_range 248 255 c.

Definition one_of (cs : string) (c : ascii) : bool :=
  existsb (Ascii.eqb c) (lit cs).

(** [str.lower] *)
Definition lower_char (c : ascii) : ascii :=
  if in_range 65 90 c || in_range 192 214 c || in_range 216 222 c
  then ascii_of_N (code c + 32) else c.

Definition lower (s : str) : str := map lower_char s.

Definition str_eqb (a b : str) : bool := bool_decide (a = b).

(** Truthiness of a string: [if s:] *)
Definition truthy (s : str) : bool :=
  match s with [] => false | _ => true end.

(** Slices [l[start:stop]] with Python's treatment of negative and
    out-of-range bounds. *)
Definition clamp (n i : Z) : Z :=
  if (i <? 0)%Z then Z.max (i + n) 0 else Z.min i n.

Definition slice {A} (l : list A) (start stop : Z) : list A :=
  let n := Z.of_nat (length l) in
  let a := clamp n start in
  let b := clamp n stop in
  firstn (Z.to_nat (b - a)) (skipn (Z.to_nat a) l).

(** [l[:stop]] and [l[start:]] *)
Definition slice_to {A} (l : list A) (stop : Z) : list A := slice l 0 stop.

Definition slice_from {A} (l : list A) (start : Z) : list A :=
  slice l start (Z.of_nat (length l)).

Fixpoint dropwhile {A} (p : A -> bool) (l : list A) : list A :=
  match l with
  | [] => []
  | x :: l' => if p x then dropwhile p l' else l
  end.

Fixpoint takewhile {A} (p : A -> bool) (l : list A) : list A :=
  match l with
  | [] => []
  | x :: l' => if p x then x :: takewhile p l' else []
  end.

(** [str.strip()]: leading and trailing whitespace removed. *)
Definition lstrip (s : str) : str := dropwhile isspace s.

Fixpoint rstrip (s : str) : str :=
  match s with
  | [] => []
  | c :: s' =>
      match rstrip s' with
      | [] => if isspace c then [] else [c]
      | r => c :: r
      end
  end.

Definition strip (s : str) : str := rstrip (lstrip s).

(** [str.split()] on runs of whitespace, no empty pieces. *)
Fixpoint split_ws_go (cur : str) (s : str) : list str :=
  match s with
  | [] => match cur with [] => [] | _ => [rev cur] end
  | c :: s' =>
      if isspace c
      then match cur with
           | [] => split_ws_go [] s'
           | _ => rev cur :: split_ws_go [] s'
           end
      else split_ws_go (c :: cur) s'
  end.

Definition split_ws (s : str) : list str := split_ws_go [] s.

(** [a.startswith(b)] and [b in a] *)
Fixpoint startswith (a b : str) : bool :=
  match b, a with
  | [], _ => true
  | y :: b', x :: a' => Ascii.eqb x y && startswith a' b'
  | _ :: _, [] => false
  end.

Fixpoint contains (a b : str) : bool :=
  startswith a b ||
  match a with
  | [] => false
  | _ :: a' => contains a' b
  end.

(** [sep.join(parts)] *)
Fixpoint str_join (sep : str) (parts : list str) : str :=
  match parts with
  | [] => []
  | [p] => p
  | p :: ps => p ++ sep ++ str_join sep ps
  end.

(** [str(n)] for an [int] *)
Definition str_of_int (z : Z) : str := lit (NilZero.string_of_int (Z.to_int z)).

(** Exceptions.  Only the ones the modelled code can raise are named. *)
Inductive exn : Set := ValueError | KeyError.

Inductive res (A : Type) : Type :=
| Ok (a : A)
| Raise (e : exn).
Arguments Ok {A} a.
Arguments Raise {A} e.

(** [range(0, stop, step)]: a zero step raises [ValueError], a negative step
    from [0] up to a non-negative [stop] is empty. *)
Definition range0 (stop step : Z) : res (list Z) :=
  if (step =? 0)%Z then Raise ValueError
  else if (step <? 0)%Z then Ok []
  else Ok (map (fun i => (Z.of_nat i * step)%Z)
               (seq 0 (Z.to_nat ((stop + step - 1) / step)))).

(** [s.split(sep)] for a one-character separator: empty pieces are kept. *)
Fixpoint split_char (sep : ascii) (s : str) : list str :=
  match s with
  | [] => [[]]
  | c :: s' =>
      if Ascii.eqb c sep then [] :: split_char sep s'
      else match split_char sep s' with
           | p :: ps => (c :: p) :: ps
           | [] => [[c]]
           end
  end.

(** [str.isdigit] of one character, on code points below 256: the decimal
    digits and the superscripts one, two and three. *)
Definition char_isdigit (c : ascii) : bool :=
  in_range 48 57 c || in_range 178 179 c || (code c =? 185)%N.

(** [a <= b] on strings: lexicographic by code point. *)
Fixpoint str_leb (a b : str) : bool :=
  match a, b with
  | [], _ => true
  | _ :: _, [] => false
  | x :: a', y :: b' =>
      if (code x <? code y)%N then true
      else if (code y <? code x)%N then false
      else str_leb a' b'
  end.

(** [sorted(l, key=key)]: a stable sort, smallest key first. *)
Section SortedBy.
Context {A K : Type} (leb : K -> K -> bool) (key : A -> K).

Fixpoint insert_by (x : A) (l : list A) : list A :=
  match l with
  | [] => [x]
  | y :: l' => if leb (key x) (key y) then x :: l else y :: insert_by x l'
  end.

Definition sorted_by (l : list A) : list A := foldr insert_by [] l.
End SortedBy.

(** *** Floats

    A Python [float] is an IEEE 754 binary64 number.  A finite float is
    carried as the rational number it denotes, so that comparing floats is
    comparing rationals; addition, subtraction and division round to the
    nearest double, ties to even, as the Standard Library's specification
    of binary64 prescribes ([SpecFloat] with precision 53 and [emax] 1024).
    A rational that is not itself a double stands for the double nearest
    to it, as a decimal literal does.  Infinities and NaN do not arise
    from the quantities of these sources and are not represented. *)
Definition to_double (q : Q) : SpecFloat.spec_float :=
  SpecFloat.SFdiv 53 1024
    (SpecFloat.binary_normalize 53 1024 (Qnum q) 0 false)
    (SpecFloat.binary_normalize 53 1024 (Zpos (Qden q)) 0 false).

Definition of_double (f : SpecFloat.spec_float) : Q :=
  match f with
  | SpecFloat.S754_finite s m e =>
      let v := match e with
               | Zneg p => Zpos m # Pos.pow 2 p
               | _ => inject_Z (Zpos m * 2 ^ e)
               end in
      Qred (if s then Qopp v else v)
  | _ => 0%Q
  end.

(** A float literal such as [0.7]: the nearest double. *)
Definition float_lit (q : Q) : Q := of_double (to_double q).

Definition float_add (a b : Q) : Q :=
  of_double (SpecFloat.SFadd 53 1024 (to_double a) (to_double b)).

Definition float_sub (a b : Q) : Q :=
  of_double (SpecFloat.SFsub 53 1024 (to_double a) (to_double b)).

Definition float_div (a b : Q) : Q :=
  of_double (SpecFloat.SFdiv 53 1024 (to_double a) (to_double b)).

(** [sum(l)] of floats: the elements are added from the left, starting
    from the integer 0, each addition rounded (the loop of CPython 3.8 to
    3.11; CPython 3.12 compensates the rounding errors inside [sum]). *)
Definition float_sum (l : list Q) : Q := fold_left float_add l 0%Q.

(** [a / b] on integers (true division): the double nearest to the
    quotient, for integers below 2^53 in absolute value. *)
Definition int_truediv (a b : Z) : Q := float_div (inject_Z a) (inject_Z b).

End Py.

Export Py.

(** ** The fragment of [re] the sources use

    A backtracking matcher in continuation-passing style: alternatives are
    tried left to right, [Star] is greedy and gives characters back when
    the rest of the pattern fails, which is the search order of Python's
    [re].  [Behind p] is a one-character look-behind [(?<=[...])], [Bound]
    the word boundary [\b]. *)

Module Re.

Inductive regex : Type :=
| Eps
| Chr (p : ascii -> bool)
| Seq (r1 r2 : regex)
| Alt (r1 r2 : regex)
| Star (r : regex)
| Behind (p : ascii -> bool)
| Bound.

(** A continuation receives the last character consumed so far and the
    remaining input; a successful match returns both. *)
Definition cont := option ascii -> str -> option (option ascii * str).

Fixpoint run (r : regex) (prev : option ascii) (s : str) (k : cont)
  {struct r} : option (option ascii * str) :=
  match r with
  | Eps => k prev s
  | Chr p =>
      match s with
      | c :: s' => if p c then k (Some c) s' else None
      | [] => None
      end
  | Seq r1 r2 => run r1 prev s (fun prev' s' => run r2 prev' s' k)
  | Alt r1 r2 =>
      match run r1 prev s k with
      | Some x => Some x
      | None => run r2 prev s k
      end
  | Star r1 =>
      (fix loop (fuel : nat) (prev : option ascii) (s : str) {struct fuel} :=
         match fuel with
         | O => k prev s
         | S fuel' =>
             match run r1 prev s
                       (fun prev' s' =>
                          if length s' <? length s then loop fuel' prev' s'
                          else None) with
             | Some x => Some x
             | None => k prev s
             end
         end) (length s) prev s
  | Behind p =>
      match prev with
      | Some c => if p c then k prev s else None
      | None => None
      end
  | Bound =>
      let before := match prev with Some c => isword c | None => false end in
      let after := match s with c :: _ => isword c | [] => false end in
      if xorb before after then k prev s else None
  end.

Definition Plus (r : regex) : regex := Seq r (Star r).

Fixpoint Lit (cs : str) : regex :=
  match cs with
  | [] => Eps
  | c :: cs' => Seq (Chr (Ascii.eqb c)) (Lit cs')
  end.

(** Literal text under [re.IGNORECASE]. *)
Fixpoint LitI (cs : str) : regex :=
  match cs with
  | [] => Eps
  | c :: cs' => Seq (Chr (fun x => Ascii.eqb (lower_char x) (lower_char c))) (LitI cs')
  end.

Fixpoint Rep (n : nat) (r : regex) : regex :=
  match n with
  | O => Eps
  | S n' => Seq r (Rep n' r)
  end.

(** [pattern.match] at the current position. *)
Definition match_at (r : regex) (prev : option ascii) (s : str)
  : option (option ascii * str) :=
  run r prev s (fun p s' => Some (p, s')).

(** [re.sub(pattern, repl, text)]: leftmost matches, non-overlapping.  An
    empty match inserts [repl] and the scan moves one character on; the
    patterns of these sources all consume at least one character. *)
Fixpoint sub_go (fuel : nat) (r : regex) (repl : str) (prev : option ascii)
  (s : str) : str :=
  match fuel with
  | O => s
  | S fuel' =>
      match match_at r prev s with
      | Some (prev', rest) =>
          if length rest <? length s
          then repl ++ sub_go fuel' r repl prev' rest
          else match s with
               | [] => repl
               | c :: s' => repl ++ c :: sub_go fuel' r repl (Some c) s'
               end
      | None =>
          match s with
          | [] => []
          | c :: s' => c :: sub_go fuel' r repl (Some c) s'
          end
      end
  end.

Definition sub (r : regex) (repl : str) (s : str) : str :=
  sub_go (S (length s)) r repl None s.

Definition cons_first (c : ascii) (ps : list str) : list str :=
  match ps with
  | [] => [[c]]
  | p :: ps' => (c :: p) :: ps'
  end.

(** [re.split(pattern, text)] for a pattern without groups. *)
Fixpoint split_go (fuel : nat) (r : regex) (prev : option ascii) (s : str)
  : list str :=
  match fuel with
  | O => [s]
  | S fuel' =>
      match s with
      | [] => [[]]
      | c :: s' =>
          match match_at r prev s with
          | Some (prev', rest) =>
              if length rest <? length s
              then [] :: split_go fuel' r prev' rest
              else cons_first c (split_go fuel' r (Some c) s')
          | None => cons_first c (split_go fuel' r (Some c) s')
          end
      end
  end.

Definition split (r : regex) (s : str) : list str :=
  split_go (S (length s)) r None s.

End Re.

(** ** Collaborators outside the core

    The spaCy pipeline ([self.nlp]) and the iteration order of a Python
    [set] are not part of the sources; the functions below take them as
    given.  [nlp = None] is the state after [_load_spacy] failed. *)

Record NLP : Type := {
  noun_chunks : str -> list str;
  ents : str -> list (str * str)          (* (text, label_) *)
}.

Record External : Type := {
  nlp : option NLP;
  list_of_set : list str -> list str      (* [list(set(l))] *)
}.

(** ** [src/processors/text_processor.py] *)

Module TextProcessor.
Import Re.

Definition nl : ascii := "010"%char.
Definition cr : ascii := "013"%char.
Definition dquote : ascii := "034"%char.

(** [r'\s+'] *)
Definition ws_plus : regex := Plus (Chr isspace).

(** The negated class of [clean_text]: everything but [\w], [\s] and the
    characters . , ; : ! ? - ( ) [ ] { } / \, the single and the double
    quote. *)
Definition special_char (c : ascii) : bool :=
  negb (isword c || isspace c || one_of ".,;:!?-()[]{}'/\" c || Ascii.eqb c dquote).

Definition special : regex := Chr special_char.

Definition clean_text (text : str) : str :=
  if negb (truthy text) then []
  else
    let text := sub ws_plus (lit " ") text in
    let text := sub special (lit " ") text in
    let text := sub ws_plus (lit " ") text in
    strip text.

(** [r'\n\s*\n|\r\n\s*\r\n'] *)
Definition para_sep : regex :=
  Alt (Seq (Chr (Ascii.eqb nl)) (Seq (Star (Chr isspace)) (Chr (Ascii.eqb nl))))
      (Seq (Chr (Ascii.eqb cr)) (Seq (Chr (Ascii.eqb nl))
         (Seq (Star (Chr isspace)) (Seq (Chr (Ascii.eqb cr)) (Chr (Ascii.eqb nl)))))).

Definition keep_paragraph (para : str) : list str :=
  let cleaned := clean_text para in
  if truthy cleaned && (50 <? length cleaned) then [cleaned] else [].

Definition extract_paragraphs (text : str) : list str :=
  if negb (truthy text) then []
  else flat_map keep_paragraph (split para_sep text).

(** [r'\[\d+(?:,\s*\d+)*\]'] *)
Definition cite_bracket : regex :=
  Seq (Chr (Ascii.eqb "[")) (Seq (Plus (Chr isdigit))
    (Seq (Star (Seq (Chr (Ascii.eqb ",")) (Seq (Star (Chr isspace)) (Plus (Chr isdigit)))))
         (Chr (Ascii.eqb "]")))).

(** [r'\([^)]*\d{4}[^)]*\)'] *)
Definition not_rparen (c : ascii) : bool := negb (Ascii.eqb c ")").

Definition cite_paren : regex :=
  Seq (Chr (Ascii.eqb "(")) (Seq (Star (Chr not_rparen))
    (Seq (Rep 4 (Chr isdigit)) (Seq (Star (Chr not_rparen)) (Chr (Ascii.eqb ")"))))).

(** [r'\w+\s+et\s+al\.\s*\(\d{4}\)'] with [re.IGNORECASE] *)
Definition cite_etal : regex :=
  Seq (Plus (Chr isword)) (Seq ws_plus (Seq (LitI (lit "et")) (Seq ws_plus
    (Seq (LitI (lit "al")) (Seq (Chr (Ascii.eqb ".")) (Seq (Star (Chr isspace))
      (Seq (Chr (Ascii.eqb "(")) (Seq (Rep 4 (Chr isdigit)) (Chr (Ascii.eqb ")")))))))))).

Definition remove_citations (text : str) : str :=
  if negb (truthy text) then []
  else
    let text := sub cite_bracket [] text in
    let text := sub cite_paren [] text in
    let text := sub cite_etal [] text in
    strip (sub ws_plus (lit " ") text).

Definition entity_labels : list str :=
  [lit "PERSON"; lit "ORG"; lit "GPE"; lit "PRODUCT"; lit "EVENT"].

Definition extract_key_phrases (ext : External) (text : str) (max_phrases : Z)
  : list str :=
  match nlp ext with
  | None => []
  | Some doc =>
      if negb (truthy text) then []
      else
        let chunks := filter (fun c => length (split_ws c) <= 4) (noun_chunks doc text) in
        let named := map fst (filter (fun e => snd e ∈ entity_labels) (ents doc text)) in
        slice_to (list_of_set ext (chunks ++ named)) max_phrases
  end.

Definition preprocess_paper_content (title abstract content : str) : str :=
  let full_text := lit "Title: " ++ title ++ [nl; nl] ++ lit "Abstract: " ++ abstract in
  let full_text :=
    if truthy content then full_text ++ [nl; nl] ++ lit "Content: " ++ content
    else full_text in
  remove_citations (clean_text full_text).

End TextProcessor.

(** ** [src/fetchers/base_fetcher.py]: the [Paper] dataclass *)

Inductive date_value : Type :=
| DateTime (year : Z)        (* a [datetime]; only [.year] is read *)
| DateStr (s : str).

Record Paper : Type := {
  title : str;
  authors : list str;
  abstract : str;
  content : option str;
  url : option str;
  published_date : option date_value;
  journal : option str;
  doi : option str;
  arxiv_id : option str;
  pubmed_id : option str
}.

(** ** [src/processors/chunker.py] *)

(** The metadata dictionary that travels with a chunk.  A key that is
    absent and a key bound to [None] read the same through [dict.get]. *)
Record Metadata : Type := {
  paper_title : option str;
  paper_authors : list str;
  paper_url : option str;
  paper_published_date : option date_value;
  paper_journal : option str;
  paper_doi : option str;
  paper_arxiv_id : option str;
  paper_pubmed_id : option str
}.

Module SemanticChunker.

Record Chunk : Type := {
  text : str;
  chunk_id : str;
  chunk_paper_title : str;
  chunk_paper_url : option str;
  chunk_paper_authors : list str;
  start_char : Z;
  end_char : Z;
  metadata : Metadata
}.

Record t : Type := {
  chunk_size : Z;
  chunk_overlap : Z
}.

(** [__init__] defaults *)
Definition default : t := {| chunk_size := 1000; chunk_overlap := 200 |}.

Definition len {A} (l : list A) : Z := Z.of_nat (length l).

(** [x or y] on optional strings: [None] and [''] are falsy. *)
Definition opt_truthy (o : option str) : bool :=
  match o with Some s => truthy s | None => false end.

(** [getattr(paper, 'arxiv_id') or getattr(paper, 'pubmed_id', 'unknown')];
    both attributes exist on every [Paper], so the default is never used. *)
Definition paper_id (paper : Paper) : option str :=
  if opt_truthy (arxiv_id paper) then arxiv_id paper else pubmed_id paper.

(** [f"{x}"] of an optional string *)
Definition fmt_opt (o : option str) : str :=
  match o with Some s => s | None => lit "None" end.

Definition _create_chunk (txt : str) (paper : Paper) (start_c end_c : Z) : Chunk :=
  {| text := txt;
     chunk_id := fmt_opt (paper_id paper) ++ lit "_" ++ str_of_int start_c
                 ++ lit "_" ++ str_of_int end_c;
     chunk_paper_title := title paper;
     chunk_paper_url := url paper;
     chunk_paper_authors := authors paper;
     start_char := start_c;
     end_char := end_c;
     metadata := {| paper_title := Some (title paper);
                    paper_authors := authors paper;
                    paper_url := url paper;
                    paper_published_date := published_date paper;
                    paper_journal := journal paper;
                    paper_doi := doi paper;
                    paper_arxiv_id := None;
                    paper_pubmed_id := None |} |}.

Section Chunker.
Variable self : t.

Definition window (txt : str) (paper : Paper) (i : Z) : list Chunk :=
  let chunk_text := slice txt i (i + chunk_size self) in
  if truthy (strip chunk_text)
  then [_create_chunk chunk_text paper i (i + len chunk_text)]
  else [].

Definition _simple_chunk (txt : str) (paper : Paper) : res (list Chunk) :=
  match range0 (len txt) (chunk_size self - chunk_overlap self) with
  | Raise e => Raise e
  | Ok starts => Ok (flat_map (window txt paper) starts)
  end.

(** Loop state of [chunk_paper]: [(chunks, current_chunk, chunk_start)]. *)
Definition loop_state : Type := list Chunk * str * Z.

Definition flush (paper : Paper) (st : loop_state) : list Chunk :=
  let '(chunks, current_chunk, chunk_start) := st in
  if truthy (strip current_chunk)
  then chunks ++ [_create_chunk current_chunk paper chunk_start
                                (chunk_start + len current_chunk)]
  else chunks.

Definition para_step (paper : Paper) (st : loop_state) (paragraph : str)
  : loop_state :=
  let '(chunks, current_chunk, chunk_start) := st in
  if (len current_chunk + len paragraph + 2 <=? chunk_size self)%Z then
    (chunks,
     if truthy current_chunk then current_chunk ++ [TextProcessor.nl; TextProcessor.nl] ++ paragraph
     else paragraph,
     chunk_start)
  else
    let chunks := flush paper st in
    if (0 <? chunk_overlap self)%Z && (chunk_overlap self <? len current_chunk)%Z then
      let overlap_text := slice_from current_chunk (- chunk_overlap self) in
      let current_chunk := overlap_text ++ [TextProcessor.nl; TextProcessor.nl] ++ paragraph in
      (chunks, current_chunk, (chunk_start + len current_chunk - len overlap_text)%Z)
    else
      let current_chunk := paragraph in
      (chunks, current_chunk, (chunk_start + len current_chunk)%Z).

Definition full_text_of (paper : Paper) : str :=
  TextProcessor.preprocess_paper_content
    (title paper) (abstract paper)
    (match content paper with Some c => c | None => [] end).

Definition chunk_paper (paper : Paper) : res (list Chunk) :=
  let full_text := full_text_of paper in
  let paragraphs := TextProcessor.extract_paragraphs full_text in
  match paragraphs with
  | [] => _simple_chunk full_text paper
  | _ => Ok (flush paper (fold_left (para_step paper) paragraphs ([], [], 0%Z)))
  end.

(** [try: ... except Exception: continue] around each paper *)
Fixpoint chunk_multiple_papers (papers : list Paper) : list Chunk :=
  match papers with
  | [] => []
  | paper :: rest =>
      match chunk_paper paper with
      | Ok chunks => chunks ++ chunk_multiple_papers rest
      | Raise _ => chunk_multiple_papers rest
      end
  end.

End Chunker.

(** *** [get_chunk_statistics] *)

Record ChunkStatistics : Type := {
  total_chunks : Z;
  average_chunk_length : Q;
  min_chunk_length : Z;
  max_chunk_length : Z;
  total_characters : Z
}.

(** [sum(l)], [min(l)] and [max(l)] of integers *)
Definition Zsum (l : list Z) : Z := fold_left Z.add l 0%Z.
Definition Zmin_list (x : Z) (l : list Z) : Z := fold_left Z.min l x.
Definition Zmax_list (x : Z) (l : list Z) : Z := fold_left Z.max l x.

(** The empty dictionary of the source is [None]. *)
Definition get_chunk_statistics (chunks : list Chunk) : option ChunkStatistics :=
  match map (fun chunk => len (text chunk)) chunks with
  | [] => None
  | x :: xs =>
      let chunk_lengths := x :: xs in
      Some {| total_chunks := len chunks;
              average_chunk_length :=
                int_truediv (Zsum chunk_lengths) (len chunk_lengths);
              min_chunk_length := Zmin_list x xs;
              max_chunk_length := Zmax_list x xs;
              total_characters := Zsum chunk_lengths |}
  end.

End SemanticChunker.

(** ** [src/resynth/retrieval/query_processor.py] *)

Module QueryProcessor.
Import Re.

Record ProcessedQuery : Type := {
  original_query : str;
  processed_query : str;
  query_type : str;
  search_terms : list str;
  expanded_queries : list str
}.

Definition question_words : list str :=
  map lit ["what"; "how"; "why"; "when"; "where"; "who"; "which"; "is"; "are";
           "do"; "does"; "can"; "could"; "should"; "would"]%string.

Definition comparison_words : list str :=
  map lit ["compare"; "difference"; "versus"; "vs"; "better"; "worse";
           "advantages"; "disadvantages"]%string.

Definition summary_words : list str :=
  map lit ["summary"; "overview"; "review"; "survey"; "introduction";
           "background"]%string.

Definition method_words : list str :=
  map lit ["method"; "technique"; "approach"; "algorithm"; "procedure";
           "process"]%string.

Definition stop_words : list str :=
  map lit ["the"; "a"; "an"; "and"; "or"; "but"; "in"; "on"; "at"; "to"; "for";
           "of"; "with"; "by"; "is"; "are"; "was"; "were"; "be"; "been"; "have";
           "has"; "had"; "do"; "does"; "did"; "will"; "would"; "could";
           "should"; "may"; "might"; "can"; "this"; "that"; "these"; "those";
           "i"; "you"; "he"; "she"; "it"; "we"; "they"]%string.

Definition preprocess_query (query : str) : str :=
  if negb (truthy query) then []
  else strip (sub TextProcessor.ws_plus (lit " ") (TextProcessor.clean_text query)).

Definition _create_query_variations (key_phrase original_query : str) : list str :=
  let patterns :=
    [ lit "research on " ++ key_phrase;
      key_phrase ++ lit " studies";
      key_phrase ++ lit " analysis";
      key_phrase ++ lit " methods";
      key_phrase ++ lit " applications";
      lit "recent " ++ key_phrase;
      key_phrase ++ lit " overview" ] in
  slice_to
    (filter (fun pattern => lower pattern ≠ lower original_query) patterns) 2.

Definition classify_query_type (query : str) : str :=
  let query_lower := lower query in
  if existsb (startswith query_lower) question_words then lit "question"
  else if existsb (contains query_lower) comparison_words then lit "comparison"
  else if existsb (contains query_lower) summary_words then lit "summary"
  else if existsb (contains query_lower) method_words then lit "method"
  else lit "general".

Section WithExternal.
Variable ext : External.

(** One round of the inner loop of [expand_query]. *)
Definition add_variation (max_expansions : Z) (expanded : list str)
  (variation : str) : list str :=
  if bool_decide (variation ∉ expanded)
     && (Z.of_nat (length expanded) <? max_expansions)%Z
  then expanded ++ [variation] else expanded.

(** One round of the outer loop. *)
Definition add_phrase (query : str) (max_expansions : Z) (expanded : list str)
  (phrase : str) : list str :=
  let expanded :=
    if bool_decide (phrase ∉ expanded) then expanded ++ [phrase] else expanded in
  fold_left (add_variation max_expansions)
            (_create_query_variations phrase query) expanded.

Definition expand_query (query : str) (max_expansions : Z) : list str :=
  if negb (truthy query) then []
  else
    let key_phrases := TextProcessor.extract_key_phrases ext query max_expansions in
    slice_to (fold_left (add_phrase query max_expansions) key_phrases [query])
             max_expansions.

Definition extract_search_terms (query : str) : list str :=
  if negb (truthy query) then []
  else
    let cleaned_query := preprocess_query query in
    let key_phrases := TextProcessor.extract_key_phrases ext cleaned_query 5 in
    let important_words :=
      filter (fun word => 2 < length word ∧ lower word ∉ stop_words)
             (split_ws cleaned_query) in
    slice_to (list_of_set ext (key_phrases ++ important_words)) 10.

(** [expand_query] is called with its default [max_expansions = 3]. *)
Definition optimize_query_for_retrieval (query : str) : ProcessedQuery :=
  {| original_query := query;
     processed_query := preprocess_query query;
     query_type := classify_query_type query;
     search_terms := extract_search_terms query;
     expanded_queries := expand_query query 3 |}.

End WithExternal.
End QueryProcessor.

(** ** [src/resynth/config.py]: the two settings the retriever reads *)

Record Config : Type := {
  TOP_K_RETRIEVAL : Z;
  SIMILARITY_THRESHOLD : Q
}.

(** The values when the environment does not override them. *)
Definition default_config : Config :=
  {| TOP_K_RETRIEVAL := 5; SIMILARITY_THRESHOLD := 7 # 10 |}.

(** ** [src/resynth/retrieval/retriever.py] *)

Module Retriever.

Record RetrievalResult : Type := {
  chunk_id : str;
  text : str;
  metadata : Metadata;
  similarity : Q;
  from_expanded_query : bool;
  query_metadata : option (str * list str)   (* query_type, search_terms *)
}.

Definition mark_expanded (r : RetrievalResult) : RetrievalResult :=
  {| chunk_id := chunk_id r; text := text r; metadata := metadata r;
     similarity := similarity r; from_expanded_query := true;
     query_metadata := query_metadata r |}.

Definition with_query_metadata (qm : str * list str) (r : RetrievalResult)
  : RetrievalResult :=
  {| chunk_id := chunk_id r; text := text r; metadata := metadata r;
     similarity := similarity r; from_expanded_query := from_expanded_query r;
     query_metadata := Some qm |}.

(** [list.sort(key=..., reverse=True)]: a stable sort, largest key first;
    elements with equal keys keep their order. *)
Section Sort.
Context {A : Type} (key : A -> Q).

Fixpoint insert_desc (x : A) (l : list A) : list A :=
  match l with
  | [] => [x]
  | y :: l' => if Qle_bool (key y) (key x) then x :: l
               else y :: insert_desc x l'
  end.

Definition sort_desc (l : list A) : list A := foldr insert_desc [] l.
End Sort.

Section WithStore.
Variable ext : External.
Variable cfg : Config.

(** [self.vector_store.search(query, top_k=, similarity_threshold=)]; the
    store is handed to the constructor, so a raising one is possible. *)
Variable search : str -> Z -> Q -> res (list RetrievalResult).

(** The inner [for result in query_results] loop; the state is
    [(additional_results, existing_chunk_ids)]. *)
Definition take_result (top_k : Z) (st : list RetrievalResult * gset str)
  (result : RetrievalResult) : list RetrievalResult * gset str :=
  let '(additional_results, existing_chunk_ids) := st in
  if bool_decide (chunk_id result ∉ existing_chunk_ids)
     && (Z.of_nat (length additional_results) <? top_k)%Z
  then (additional_results ++ [mark_expanded result],
        existing_chunk_ids ∪ {[chunk_id result]})
  else st.

Fixpoint expanded_loop (top_k : Z) (similarity_threshold : Q)
  (expanded_queries : list str) (st : list RetrievalResult * gset str)
  : list RetrievalResult :=
  match expanded_queries with
  | [] => fst st
  | expanded_query :: rest =>
      if (top_k <=? Z.of_nat (length (fst st)))%Z then fst st      (* break *)
      else
        match search expanded_query top_k similarity_threshold with
        | Raise _ => expanded_loop top_k similarity_threshold rest st  (* continue *)
        | Ok query_results =>
            expanded_loop top_k similarity_threshold rest
              (fold_left (take_result top_k) query_results st)
        end
  end.

Definition _search_expanded_queries (expanded_queries : list str) (top_k : Z)
  (similarity_threshold : Q) (existing_results : list RetrievalResult)
  : list RetrievalResult :=
  expanded_loop top_k similarity_threshold expanded_queries
    ([], list_to_set (map chunk_id existing_results)).

(** [top_k or Config.TOP_K_RETRIEVAL] and
    [similarity_threshold or Config.SIMILARITY_THRESHOLD]: [None] and zero
    are falsy. *)
Definition effective_top_k (top_k : option Z) : Z :=
  match top_k with
  | Some k => if (k =? 0)%Z then TOP_K_RETRIEVAL cfg else k
  | None => TOP_K_RETRIEVAL cfg
  end.

Definition effective_threshold (similarity_threshold : option Q) : Q :=
  match similarity_threshold with
  | Some t => if Qeq_bool t 0 then SIMILARITY_THRESHOLD cfg else t
  | None => SIMILARITY_THRESHOLD cfg
  end.

Definition retrieve (query : str) (top_k : option Z)
  (similarity_threshold : option Q) : list RetrievalResult :=
  if negb (truthy query) then []
  else
    let top_k := effective_top_k top_k in
    let similarity_threshold := effective_threshold similarity_threshold in
    let processed := QueryProcessor.optimize_query_for_retrieval ext query in
    match search (QueryProcessor.processed_query processed) top_k similarity_threshold with
    | Raise _ => []
    | Ok results =>
        let results :=
          if (Z.of_nat (length results) <? top_k)%Z
             && negb (bool_decide (QueryProcessor.expanded_queries processed = []))
          then
            let remaining_k := (top_k - Z.of_nat (length results))%Z in
            results ++ _search_expanded_queries
                         (QueryProcessor.expanded_queries processed)
                         remaining_k similarity_threshold results
          else results in
        let results := sort_desc similarity results in
        let results := slice_to results top_k in
        map (with_query_metadata (QueryProcessor.query_type processed,
                                  QueryProcessor.search_terms processed))
            results
    end.

End WithStore.

(** *** [validate_retrieval_quality] *)

Record Quality : Type := {
  valid : bool;
  reason : option str;
  average_similarity : option Q;
  min_similarity : option Q;
  diversity_score : option Q;
  unique_papers : nat;
  total_results : nat;
  quality_issues : list str;
  suggestions : list str
}.

Definition low_average : str := lit "Low average similarity".
Definition very_low : str := lit "Some results have very low similarity".
Definition low_diversity : str := lit "Low diversity in results".

Definition Qlt_bool (a b : Q) : bool := negb (Qle_bool b a).

(** The exact sum of a list of numbers, added from the left. *)
Definition Qsum (l : list Q) : Q := fold_left Qplus l 0%Q.

(** [min(l)] of a non-empty list *)
Definition Qmin_list (x : Q) (l : list Q) : Q :=
  fold_left (fun m y => if Qlt_bool y m then y else m) l x.

Definition title_of (r : RetrievalResult) : str :=
  match paper_title (metadata r) with
  | Some t => t
  | None => lit "Unknown"
  end.

Definition suggestions_for (issue : str) : list str :=
  if contains (lower issue) (lit "similarity")
  then [lit "Try more specific keywords";
        lit "Consider using technical terms from the field"]
  else if contains (lower issue) (lit "diversity")
  then [lit "Try broader search terms";
        lit "Include multiple related concepts"]
  else [].

Definition _get_quality_suggestions (quality_issues : list str) : list str :=
  match flat_map suggestions_for quality_issues with
  | [] => [lit "Results look good!"]
  | l => l
  end.

Definition validate_retrieval_quality (query : str)
  (results : list RetrievalResult) : Quality :=
  match results with
  | [] =>
      {| valid := false;
         reason := Some (lit "No results found");
         average_similarity := None; min_similarity := None;
         diversity_score := None; unique_papers := 0; total_results := 0;
         quality_issues := [];
         suggestions := [lit "Try a more general query";
                         lit "Check if papers are loaded"] |}
  | r0 :: rest =>
      let similarities := map similarity results in
      let avg_similarity :=
        float_div (float_sum similarities)
                  (inject_Z (Z.of_nat (length similarities))) in
      let min_sim := Qmin_list (similarity r0) (map similarity rest) in
      let paper_titles : gset str := list_to_set (map title_of results) in
      let diversity :=
        int_truediv (Z.of_nat (size paper_titles)) (Z.of_nat (length results)) in
      let quality_issues :=
        (if Qlt_bool avg_similarity (float_lit (7 # 10)) then [low_average] else [])
        ++ (if Qlt_bool min_sim (float_lit (5 # 10)) then [very_low] else [])
        ++ (if Qlt_bool diversity (float_lit (3 # 10)) then [low_diversity] else []) in
      {| valid := bool_decide (quality_issues = []);
         reason := None;
         average_similarity := Some avg_similarity;
         min_similarity := Some min_sim;
         diversity_score := Some diversity;
         unique_papers := size paper_titles;
         total_results := length results;
         quality_issues := quality_issues;
         suggestions := _get_quality_suggestions quality_issues |}
  end.

(** *** [retrieve_by_paper] and [retrieve_similar_chunks] *)

Section MoreRetrieval.
Variable search : str -> Z -> Q -> res (list RetrievalResult).

(** [self.vector_store.get_chunk_by_id]: the text of the chunk, [None] when
    the store does not have it. *)
Variable get_chunk_by_id : str -> res (option str).

(** [result['metadata'].get('paper_title', '')]; the key, when present,
    holds the title string that [add_chunks] wrote. *)
Definition title_or_empty (r : RetrievalResult) : str :=
  match paper_title (metadata r) with
  | Some t => t
  | None => []
  end.

Definition retrieve_by_paper (title : str) (top_k : Z) : list RetrievalResult :=
  match search title 100 0 with
  | Raise _ => []
  | Ok all_results =>
      slice_to (filter (fun r => lower (title_or_empty r) = lower title)
                       all_results) top_k
  end.

Definition retrieve_similar_chunks (id : str) (top_k : Z) : list RetrievalResult :=
  match get_chunk_by_id id with
  | Raise _ => []
  | Ok None => []
  | Ok (Some reference_text) =>
      match search reference_text (top_k + 1) (3 # 10) with
      | Raise _ => []
      | Ok results =>
          slice_to (filter (fun r => chunk_id r <> id) results) top_k
      end
  end.

End MoreRetrieval.

End Retriever.

(** ** [src/synthesis/citation_formatter.py] *)

Module CitationFormatter.
Import Re.

Record Citation : Type := {
  c_paper_title : str;
  c_authors : list str;
  year : option Z;
  c_journal : option str;
  c_doi : option str;
  c_url : option str;
  c_arxiv_id : option str;
  c_pubmed_id : option str;
  citation_number : option Z
}.

Definition set_number (n : Z) (c : Citation) : Citation :=
  {| c_paper_title := c_paper_title c; c_authors := c_authors c; year := year c;
     c_journal := c_journal c; c_doi := c_doi c; c_url := c_url c;
     c_arxiv_id := c_arxiv_id c; c_pubmed_id := c_pubmed_id c;
     citation_number := Some n |}.

(** A retrieved chunk as the formatter reads it: [chunk.get('text', '')] and
    [chunk.get('metadata', {})]. *)
Record SourceChunk : Type := {
  text : str;
  metadata : Metadata
}.

(** The insertion-ordered dictionary [paper_title -> Citation]. *)
Definition citation_map : Type := list (str * Citation).

Fixpoint citation_of (title : str) (m : citation_map) : option Citation :=
  match m with
  | [] => None
  | (k, c) :: m' => if bool_decide (k = title) then Some c else citation_of title m'
  end.

Fixpoint set_citation (title : str) (c : Citation) (m : citation_map) : citation_map :=
  match m with
  | [] => []
  | (k, c0) :: m' =>
      if bool_decide (k = title) then (k, c) :: m' else (k, c0) :: set_citation title c m'
  end.

(** [r'\b(19|20)\d{2}\b'] *)
Definition year_re : regex :=
  Seq Bound (Seq (Alt (Lit (lit "19")) (Lit (lit "20")))
    (Seq (Rep 2 (Chr isdigit)) Bound)).

(** [re.search]: the text of the leftmost match. *)
Fixpoint search_go (r : regex) (prev : option ascii) (s : str) : option str :=
  match match_at r prev s with
  | Some (_, rest) => Some (firstn (length s - length rest) s)
  | None =>
      match s with
      | [] => None
      | c :: s' => search_go r (Some c) s'
      end
  end.

(** [int(digits)] *)
Definition int_of_digits (ds : str) : Z :=
  fold_left (fun acc d => (10 * acc + Z.of_N (code d - 48))%Z) ds 0%Z.

Definition year_of (d : option date_value) : option Z :=
  match d with
  | Some (DateTime y) => Some y
  | Some (DateStr s) =>
      if truthy s then option_map int_of_digits (search_go year_re None s)
      else None
  | None => None
  end.

Definition create_citation_from_metadata (md : Metadata) : Citation :=
  {| c_paper_title := match paper_title md with
                      | Some t => t
                      | None => lit "Unknown Title"
                      end;
     c_authors := paper_authors md;
     year := year_of (paper_published_date md);
     c_journal := paper_journal md;
     c_doi := paper_doi md;
     c_url := paper_url md;
     c_arxiv_id := paper_arxiv_id md;
     c_pubmed_id := paper_pubmed_id md;
     citation_number := None |}.

(** [if paper_title] on the optional title of a chunk *)
Definition cited_title (chunk : SourceChunk) : option str :=
  match paper_title (metadata chunk) with
  | Some t => if truthy t then Some t else None
  | None => None
  end.

Definition create_citation_map (chunks : list SourceChunk) : citation_map :=
  fold_left
    (fun m chunk =>
       match cited_title chunk with
       | Some t =>
           match citation_of t m with
           | None => m ++ [(t, create_citation_from_metadata (metadata chunk))]
           | Some _ => m
           end
       | None => m
       end)
    chunks [].

(** [format_numeric]: takes and returns the instance counter, and returns
    the citation as it is after the call. *)
Definition number_truthy (c : Citation) : bool :=
  match citation_number c with
  | Some n => negb (n =? 0)%Z
  | None => false
  end.

Definition fmt_number (c : Citation) : str :=
  lit "[" ++ match citation_number c with
             | Some n => str_of_int n
             | None => lit "None"
             end ++ lit "]".

Definition format_numeric (counter : Z) (c : Citation) : str * Citation * Z :=
  if number_truthy c then (fmt_number c, c, counter)
  else
    let counter := (counter + 1)%Z in
    let c := set_number counter c in
    (fmt_number c, c, counter).

Definition format_author_date (c : Citation) : str :=
  let author_text :=
    match c_authors c with
    | [] => lit "Anonymous"
    | [a] => a
    | a :: _ => a ++ lit " et al."
    end in
  let year_text :=
    match year c with
    | Some y => if (y =? 0)%Z then lit "n.d." else str_of_int y
    | None => lit "n.d."
    end in
  lit "(" ++ author_text ++ lit ", " ++ year_text ++ lit ")".

Definition common_words : gset str :=
  list_to_set (map lit
    ["the"; "a"; "an"; "and"; "or"; "but"; "in"; "on"; "at"; "to"; "for"; "of";
     "with"; "by"; "is"; "are"; "was"; "were"; "be"; "been"; "have"; "has";
     "had"; "do"; "does"; "did"; "will"; "would"; "could"; "should"; "may";
     "might"; "can"; "this"; "that"; "these"; "those"]%string).

Definition significant_words (s : str) : gset str :=
  list_to_set (split_ws (lower s)) ∖ common_words.

(** [overlap / len(sentence_words) > 0.3], with the quotient taken exactly. *)
Definition _sentence_cites_paper (sentence chunk_text : str) : bool :=
  let sentence_words := significant_words sentence in
  let chunk_words := significant_words chunk_text in
  if bool_decide (sentence_words = ∅) || bool_decide (chunk_words = ∅) then false
  else
    let overlap := size (sentence_words ∩ chunk_words) in
    let overlap_ratio :=
      (inject_Z (Z.of_nat overlap) / inject_Z (Z.of_nat (size sentence_words)))%Q in
    negb (Qle_bool overlap_ratio (3 # 10)).

(** [r'(?<=[.!?])\s+'] *)
Definition sentence_sep : regex :=
  Seq (Behind (one_of ".!?")) TextProcessor.ws_plus.

(** State of the sentence loop: the instance counter, the citation objects
    (shared with the returned map) and the set of papers already cited. *)
Record loop_state : Type := {
  counter : Z;
  cmap : citation_map;
  cited_papers : gset str
}.

(** What the loop decided for one sentence: the sentence, and the paper
    cited with the marker appended, if any. *)
Record Attribution : Type := {
  sentence : str;
  cited : option (str * str)      (* paper_title, citation_text *)
}.

(** The inner [for chunk in chunks] loop: the first chunk that matches the
    sentence and whose paper is not yet cited; [break] after it. *)
Fixpoint first_citable (cited_set : gset str) (sent : str)
  (chunks : list SourceChunk) : option str :=
  match chunks with
  | [] => None
  | chunk :: rest =>
      match cited_title chunk with
      | Some t =>
          if _sentence_cites_paper sent (text chunk) && bool_decide (t ∉ cited_set)
          then Some t
          else first_citable cited_set sent rest
      | None => first_citable cited_set sent rest
      end
  end.

Definition cite (style : str) (st : loop_state) (title : str)
  : res (str * loop_state) :=
  match citation_of title (cmap st) with
  | None => Raise KeyError
  | Some citation =>
      if bool_decide (lower style = lit "author_date")
      then Ok (format_author_date citation,
               {| counter := counter st; cmap := cmap st;
                  cited_papers := cited_papers st ∪ {[title]} |})
      else
        (* both the [numeric] branch and the final [else] call [format_numeric] *)
        let '(citation_text, citation', counter') :=
          format_numeric (counter st) citation in
        Ok (citation_text,
            {| counter := counter'; cmap := set_citation title citation' (cmap st);
               cited_papers := cited_papers st ∪ {[title]} |})
  end.

Fixpoint sentence_loop (style : str) (chunks : list SourceChunk)
  (st : loop_state) (sentences : list str)
  : res (list Attribution * loop_state) :=
  match sentences with
  | [] => Ok ([], st)
  | sent :: rest =>
      match first_citable (cited_papers st) sent chunks with
      | None =>
          match sentence_loop style chunks st rest with
          | Ok (atts, st') => Ok ({| sentence := sent; cited := None |} :: atts, st')
          | Raise e => Raise e
          end
      | Some title =>
          match cite style st title with
          | Raise e => Raise e
          | Ok (citation_text, st1) =>
              match sentence_loop style chunks st1 rest with
              | Ok (atts, st') =>
                  Ok ({| sentence := sent; cited := Some (title, citation_text) |}
                        :: atts, st')
              | Raise e => Raise e
              end
          end
      end
  end.

(** [sentence += f" {citation_text}"] *)
Definition render (a : Attribution) : str :=
  match cited a with
  | Some (_, citation_text) => sentence a ++ lit " " ++ citation_text
  | None => sentence a
  end.

(** The numbering pass under [style.lower() == "numeric"]: the counter is
    set to zero and every citation of the map numbered in map order. *)
Fixpoint number_all (counter : Z) (m : citation_map) : citation_map * Z :=
  match m with
  | [] => ([], counter)
  | (k, c) :: m' =>
      let counter := (counter + 1)%Z in
      let '(m'', final) := number_all counter m' in
      ((k, set_number counter c) :: m'', final)
  end.

Definition initial_state (count : Z) (chunks : list SourceChunk) (style : str)
  : loop_state :=
  let m := create_citation_map chunks in
  if bool_decide (lower style = lit "numeric")
  then let '(m', counter') := number_all 0 m in
       {| counter := counter'; cmap := m'; cited_papers := ∅ |}
  else {| counter := count; cmap := m; cited_papers := ∅ |}.

(** The per-sentence decisions of [add_citations_to_text] on a non-empty
    chunk list. *)
Definition attributions (count : Z) (txt : str) (chunks : list SourceChunk)
  (style : str) : res (list Attribution * loop_state) :=
  sentence_loop style chunks (initial_state count chunks style)
                (split sentence_sep txt).

(** [add_citations_to_text]; [self.citation_counter] goes in and comes
    out. *)
Definition add_citations_to_text (count : Z) (txt : str)
  (chunks : list SourceChunk) (style : str)
  : res (str * citation_map * Z) :=
  match chunks with
  | [] => Ok (txt, [], count)
  | _ =>
      match attributions count txt chunks style with
      | Raise e => Raise e
      | Ok (atts, st) => Ok (str_join (lit " ") (map render atts), cmap st, counter st)
      end
  end.

(** *** Bibliography *)

(** [x or default] on an optional string *)
Definition field_truthy (o : option str) : bool :=
  match o with Some s => truthy s | None => false end.

Definition opt_text (o : option str) : str :=
  match o with Some s => s | None => [] end.

(** [citation.year] is truthy *)
Definition year_truthy (c : Citation) : bool :=
  match year c with
  | Some y => negb (y =? 0)%Z
  | None => false
  end.

Definition year_text_of (c : Citation) : str :=
  match year c with Some y => str_of_int y | None => lit "None" end.

Definition doi_or_url (doi_prefix : str) (c : Citation) : str :=
  if field_truthy (c_doi c) then doi_prefix ++ opt_text (c_doi c)
  else if field_truthy (c_url c) then lit " " ++ opt_text (c_url c)
  else [].

Definition journal_text (c : Citation) : str :=
  if field_truthy (c_journal c) then lit " *" ++ opt_text (c_journal c) ++ lit "*"
  else [].

Definition format_apa (c : Citation) : str :=
  let author_text :=
    match c_authors c with
    | [] => lit "Anonymous"
    | [a] => a
    | [a; b] => a ++ lit ", " ++ b
    | a :: _ => a ++ lit ", et al."
    end in
  let year_text :=
    if year_truthy c then lit " (" ++ year_text_of c ++ lit ")."
    else lit " (n.d.)." in
  author_text ++ year_text ++ lit " " ++ c_paper_title c ++ lit "."
  ++ journal_text c ++ doi_or_url (lit " https://doi.org/") c.

Definition format_mla (c : Citation) : str :=
  let author_text :=
    match c_authors c with
    | [] => lit "Anonymous."
    | [a] => a ++ lit "."
    | [a; b] => a ++ lit ", " ++ b ++ lit "."
    | a :: _ => a ++ lit ", et al."
    end in
  let title_text :=
    [TextProcessor.dquote] ++ c_paper_title c ++ lit "." ++ [TextProcessor.dquote] in
  let year_text :=
    if year_truthy c then lit ", " ++ year_text_of c else [] in
  author_text ++ lit " " ++ title_text ++ journal_text c ++ year_text ++ lit "."
  ++ doi_or_url (lit " doi:") c.

(** Every style but [mla] is rendered as APA. *)
Definition get_bibliography_entry (c : Citation) (style : str) : str :=
  if bool_decide (lower style = lit "apa") then format_apa c
  else if bool_decide (lower style = lit "mla") then format_mla c
  else if bool_decide (lower style = lit "numeric") then format_apa c
  else format_apa c.

(** The sort keys of [generate_bibliography]. *)
Definition number_key (c : Citation) : Z :=
  match citation_number c with Some n => n | None => 0%Z end.

Definition author_key (c : Citation) : str :=
  match c_authors c with a :: _ => a | [] => lit "Anonymous" end.

Definition sorted_citations (citations : citation_map) (style : str)
  : list Citation :=
  if bool_decide (lower style = lit "numeric")
  then sorted_by Z.leb number_key (map snd citations)
  else sorted_by str_leb author_key (map snd citations).

Definition generate_bibliography (citations : citation_map) (style : str) : str :=
  match citations with
  | [] => []
  | _ =>
      str_join [TextProcessor.nl; TextProcessor.nl]
        (lit "## References"
         :: map (fun c => get_bibliography_entry c style)
                (sorted_citations citations style))
  end.

End CitationFormatter.

(** ** [src/resynth/embeddings/vector_store.py]: [VectorStore.search]

    The embedding model and the ChromaDB collection are collaborators; what
    is modelled is what [search] does with their answers. *)

Module VectorStore.

(** The three parallel lists of [collection.query] for the one query
    embedding.  A stored metadata dictionary may carry a [chunk_id] key
    beside the fields of [Metadata]. *)
Record QueryResult : Type := {
  documents : list str;
  metadatas : list (option str * Metadata);
  distances : list Q
}.

Section Store.
Variable embed_single_text : str -> res (list Q).
Variable collection_query : list Q -> Z -> res QueryResult.

(** [zip(documents, metadatas, distances)] *)
Fixpoint zip3 {A B C} (a : list A) (b : list B) (c : list C) : list (A * B * C) :=
  match a, b, c with
  | x :: a', y :: b', z :: c' => (x, y, z) :: zip3 a' b' c'
  | _, _, _ => []
  end.

(** One round of the loop over [enumerate(zip(...))]: the similarity is the
    float [1 - distance], compared with the threshold as a float.  The
    [distance] entry of the result dictionary is not kept. *)
Definition row_result (similarity_threshold : Q) (i : nat)
  (row : str * (option str * Metadata) * Q) : list Retriever.RetrievalResult :=
  let '(doc, (id, md), distance) := row in
  let sim := float_sub 1 distance in
  if Qle_bool (float_lit similarity_threshold) sim
  then [ {| Retriever.chunk_id :=
              match id with
              | Some c => c
              | None => lit "chunk_" ++ str_of_int (Z.of_nat i)
              end;
            Retriever.text := doc;
            Retriever.metadata := md;
            Retriever.similarity := sim;
            Retriever.from_expanded_query := false;
            Retriever.query_metadata := None |} ]
  else [].

Fixpoint process_rows (similarity_threshold : Q) (i : nat)
  (rows : list (str * (option str * Metadata) * Q))
  : list Retriever.RetrievalResult :=
  match rows with
  | [] => []
  | row :: rest =>
      row_result similarity_threshold i row
      ++ process_rows similarity_threshold (S i) rest
  end.

Definition search (query : str) (top_k : Z) (similarity_threshold : Q)
  : list Retriever.RetrievalResult :=
  if negb (truthy query) then []
  else
    match embed_single_text query with
    | Raise _ => []
    | Ok [] => []
    | Ok query_embedding =>
        match collection_query query_embedding top_k with
        | Raise _ => []
        | Ok results =>
            match documents results with
            | [] => []
            | _ =>
                process_rows similarity_threshold 0
                  (zip3 (documents results) (metadatas results) (distances results))
            end
        end
    end.

End Store.
End VectorStore.

(** ** [src/resynth/synthesis/answer_synthesizer.py]: the local heuristics *)

Module AnswerSynthesizer.

Record RelevantInfo : Type := {
  info_text : str;
  info_paper_title : str;
  info_similarity : Q;
  key_points : list str
}.

(** One round of the loop of [_extract_key_points]. *)
Definition key_point (piece : str) : list str :=
  let sentence := strip piece in
  if (20 <? length sentence)
     && (existsb char_isdigit sentence || (50 <? length sentence))
  then [sentence] else [].

Definition _extract_key_points (txt : str) : list str :=
  slice_to (flat_map key_point (split_char "." txt)) 3.

Definition _extract_relevant_information (query : str)
  (chunks : list Retriever.RetrievalResult) : list RelevantInfo :=
  let sorted_chunks := Retriever.sort_desc Retriever.similarity chunks in
  map (fun chunk =>
         {| info_text := Retriever.text chunk;
            info_paper_title := Retriever.title_or_empty chunk;
            info_similarity := Retriever.similarity chunk;
            key_points := _extract_key_points (Retriever.text chunk) |})
      (slice_to sorted_chunks 5).

(** [min(a, b)] on numbers *)
Definition Qmin2 (a b : Q) : Q := if Retriever.Qlt_bool b a then b else a.

(** The weighted sum, with the arithmetic taken exactly. *)
Definition _calculate_confidence_score
  (chunks : list Retriever.RetrievalResult) (answer : str) : Q :=
  if negb (bool_decide (chunks <> [])) || negb (truthy answer) then 0%Q
  else
    let n := inject_Z (Z.of_nat (length chunks)) in
    let avg_similarity :=
      (Retriever.Qsum (map Retriever.similarity chunks) / n)%Q in
    let chunk_factor := Qmin2 (n / 5) 1 in
    let length_factor :=
      Qmin2 (inject_Z (Z.of_nat (length answer)) / 500) 1 in
    let confidence :=
      (avg_similarity * (5 # 10) + chunk_factor * (3 # 10)
       + length_factor * (2 # 10))%Q in
    Qmin2 confidence 1.

End AnswerSynthesizer.

(** * Specification vocabulary and example inputs *)

Section RegexVocabulary.
Import Re.

(** The loop that [run] enters at a [Star], under a name of its own. *)
Definition star_loop (r1 : regex) (k : cont)
  : nat -> option ascii -> str -> option (option ascii * str) :=
  fix loop (fuel : nat) (prev : option ascii) (s : str) {struct fuel} :=
    match fuel with
    | O => k prev s
    | S fuel' =>
        match run r1 prev s
                  (fun prev' s' =>
                     if length s' <? length s then loop fuel' prev' s'
                     else None) with
        | Some x => Some x
        | None => k prev s
        end
    end.

End RegexVocabulary.

Section TextVocabulary.
Import Re TextProcessor.

(** Every whitespace character is a blank followed by a non-blank or by the
    end of the text. *)
Fixpoint spaced (s : str) : Prop :=
  match s with
  | [] => True
  | c :: s' =>
      (isspace c = true ->
       c = " "%char /\ match s' with [] => True | c' :: _ => isspace c' = false end)
      /\ spaced s'
  end.

(** The text does not start with whitespace. *)
Definition head_ok (s : str) : Prop :=
  match s with [] => True | c :: _ => isspace c = false end.

(** No character of the text is in the class that [clean_text] blanks out. *)
Definition no_special (s : str) : Prop :=
  Forall (fun c => special_char c = false) s.

(** The shape of a text that [clean_text] leaves alone. *)
Definition normal (s : str) : Prop :=
  spaced s /\ lstrip s = s /\ rstrip s = s /\ no_special s.

End TextVocabulary.

Section ChunkerInputs.
Import Re TextProcessor SemanticChunker.

(** A paper whose preprocessed text has 87 characters, and a chunker whose
    [chunk_size] is below that. *)
Definition survey_paper : Paper :=
  {| title := lit "A survey of attention mechanisms in deep learning";
     authors := [lit "Ada Lovelace"];
     abstract := lit "We review attention.";
     content := None; url := None; published_date := None; journal := None;
     doi := None; arxiv_id := None; pubmed_id := None |}.

Definition small_chunker : SemanticChunker.t :=
  {| chunk_size := 40; chunk_overlap := 10 |}.

End ChunkerInputs.

Section CoverageVocabulary.
Import Re TextProcessor SemanticChunker.

(** The recorded ranges of a chunk list. *)
Definition ranges (chunks : list Chunk) : list (Z * Z) :=
  map (fun c => (start_char c, end_char c)) chunks.

(** Every offset of a text of length [n] lies in the range of some chunk. *)
Definition covers (chunks : list Chunk) (n : Z) : Prop :=
  forall pos, (0 <= pos < n)%Z ->
    exists r, r ∈ ranges chunks /\ (r.1 <= pos < r.2)%Z.

(** The windows the fallback chunker looks at, and the check that none of
    them is blank (a blank window is skipped). *)
Definition window_starts (self : SemanticChunker.t) (txt : str) : list Z :=
  match range0 (len txt) (chunk_size self - chunk_overlap self) with
  | Ok starts => starts
  | Raise _ => []
  end.

Definition no_blank_window (self : SemanticChunker.t) (txt : str) : bool :=
  forallb (fun i => truthy (strip (slice txt i (i + chunk_size self))))
          (window_starts self txt).

(** No window of [chunk_size] characters of the text is blank. *)
Definition windows_nonblank (self : SemanticChunker.t) (txt : str) : Prop :=
  forall i, (0 <= i < len txt)%Z ->
    truthy (strip (slice txt i (i + chunk_size self))) = true.

(** The chunker of the example in the specification. *)
Definition example_chunker : SemanticChunker.t :=
  {| chunk_size := 100; chunk_overlap := 20 |}.

End CoverageVocabulary.

Section ChunkerExamples.
Import Re TextProcessor SemanticChunker.

(** A paper with a title and an abstract only: no content, no identifiers. *)
Definition bare_paper (t a : string) : Paper :=
  {| title := lit t; authors := []; abstract := lit a;
     content := None; url := None; published_date := None; journal := None;
     doi := None; arxiv_id := None; pubmed_id := None |}.

(** Two papers whose preprocessed texts have 20 characters each. *)
Definition tiny_paper : Paper := bare_paper "A" "B".

Definition other_tiny_paper : Paper := bare_paper "C" "D".

(** A paper whose preprocessed text has exactly 250 characters. *)
Definition paper_250 : Paper :=
  {| title := repeat "a"%char 231; authors := []; abstract := lit "b";
     content := None; url := None; published_date := None; journal := None;
     doi := None; arxiv_id := None; pubmed_id := None |}.

(** A text of 250 characters without whitespace. *)
Definition text_250 : str := repeat "a"%char 250.

(** Chunker settings used in the examples. *)
Definition unit_chunker : SemanticChunker.t :=
  {| chunk_size := 1; chunk_overlap := 0 |}.




Definition ten_two_chunker : SemanticChunker.t :=
  {| chunk_size := 10; chunk_overlap := 2 |}.

Definition sparse_chunker : SemanticChunker.t :=
  {| chunk_size := 10; chunk_overlap := -5 |}.

(** The chunks of a result, none when the call raised. *)
Definition results_of (r : res (list Chunk)) : list Chunk :=
  match r with Ok l => l | Raise _ => [] end.

End ChunkerExamples.

Section RetrieveVocabulary.
Import Retriever.

(** [a] may stand before [b] in a descending order by [key]. *)
Definition desc {A : Type} (key : A -> Q) (a b : A) : Prop := (key b <= key a)%Q.

(** The store filters by the threshold it is given. *)
Definition store_filters (search : str -> Z -> Q -> res (list RetrievalResult))
  : Prop :=
  forall q k t rs, search q k t = Ok rs ->
    Forall (fun r => (t <= similarity r)%Q) rs.

End RetrieveVocabulary.

Section RetrieveExamples.
Import Retriever.

(** The collaborators when the spaCy model is not installed. *)
Definition no_nlp : External :=
  {| nlp := None; list_of_set := fun l => remove_dups l |}.

(** A search result with the given id, paper title and similarity. *)
Definition mk_result (id title : string) (sim : Q) : RetrievalResult :=
  {| chunk_id := lit id; text := lit "text of " ++ lit id;
     metadata := {| paper_title := Some (lit title); paper_authors := [];
                    paper_url := None; paper_published_date := None;
                    paper_journal := None; paper_doi := None;
                    paper_arxiv_id := None; paper_pubmed_id := None |};
     similarity := sim; from_expanded_query := false; query_metadata := None |}.

(** Two indexed chunks, similarities 0.9 and 0.6 to any query. *)
Definition corpus : list RetrievalResult :=
  [mk_result "c1" "Paper A" (9 # 10); mk_result "c2" "Paper B" (6 # 10)].

(** A store over that corpus: the results at or above the threshold, at
    most [top_k] of them. *)
Definition corpus_search (q : str) (k : Z) (t : Q) : res (list RetrievalResult) :=
  Ok (slice_to (List.filter (fun r => Qle_bool t (similarity r)) corpus) k).

(** Three results of two papers, similarities 0.9, 0.85 and 0.4. *)
Definition quality_example : list RetrievalResult :=
  [mk_result "c1" "Paper A" (9 # 10); mk_result "c2" "Paper A" (85 # 100);
   mk_result "c3" "Paper B" (4 # 10)].

(** A configuration with a negative threshold, and a store of one chunk
    whose similarity to any query is -0.5. *)
Definition permissive_config : Config :=
  {| TOP_K_RETRIEVAL := 5; SIMILARITY_THRESHOLD := -1 |}.

Definition distant_corpus : list RetrievalResult :=
  [mk_result "c1" "Paper A" (-1 # 2)].

Definition distant_search (q : str) (k : Z) (t : Q) : res (list RetrievalResult) :=
  Ok (slice_to (List.filter (fun r => Qle_bool t (similarity r)) distant_corpus) k).


End RetrieveExamples.

Section QualityExamples.
Import Retriever.


End QualityExamples.

Section ExpandVocabulary.
Import QueryProcessor.

(** An NLP pipeline that reports the two spellings of one name as noun
    chunks. *)
Definition two_spellings : External :=
  {| nlp := Some {| noun_chunks := fun _ => [lit "BERT"; lit "bert"];
                    ents := fun _ => [] |};
     list_of_set := fun l => remove_dups l |}.

(** What the loops maintain: the query stays in front, nothing is listed
    twice, and whatever is neither the query nor a key phrase differs from
    the query even when case is ignored. *)
Definition expansion_inv (query : str) (phrases : list str) (l : list str) : Prop :=
  head l = Some query
  /\ NoDup l
  /\ forall v, v ∈ l -> v = query \/ v ∈ phrases \/ lower v <> lower query.

End ExpandVocabulary.

Section CitationVocabulary.
Import CitationFormatter.

(** The papers that received a marker, in sentence order. *)
Definition cited_titles (atts : list Attribution) : list str :=
  omap (fun a => fst <$> cited a) atts.

(** Some chunk of a paper with a usable title matches the sentence. *)
Definition matches_some (sent : str) (chunks : list SourceChunk) : Prop :=
  exists chunk t, chunk ∈ chunks /\ cited_title chunk = Some t
                  /\ _sentence_cites_paper sent (text chunk) = true.

(** Every title a chunk can be cited under has an entry in the map. *)
Definition map_complete (chunks : list SourceChunk) (m : citation_map) : Prop :=
  forall chunk t, chunk ∈ chunks -> cited_title chunk = Some t ->
                  is_Some (citation_of t m).

(** The marker of paper [t]: the author-date text or the bracketed number
    of the citation that the map [m] holds for it. *)
Definition marker_of (style : str) (m : citation_map) (t marker : str) : Prop :=
  exists c, citation_of t m = Some c
    /\ marker = if bool_decide (lower style = lit "author_date")
                then format_author_date c else fmt_number c.

(** One round of the loop of [create_citation_map]. *)
Definition map_step (m : citation_map) (chunk : SourceChunk) : citation_map :=
  match cited_title chunk with
  | Some t =>
      match citation_of t m with
      | None => m ++ [(t, create_citation_from_metadata (metadata chunk))]
      | Some _ => m
      end
  | None => m
  end.

End CitationVocabulary.

Section CitationExamples.
Import CitationFormatter.

(** A retrieved chunk with the given paper title and text. *)
Definition source_chunk (title body : string) : SourceChunk :=
  {| text := lit body;
     metadata := {| paper_title := Some (lit title); paper_authors := [lit "Smith"];
                    paper_url := None; paper_published_date := None;
                    paper_journal := None; paper_doi := None;
                    paper_arxiv_id := None; paper_pubmed_id := None |} |}.

(** One chunk of one paper. *)
Definition attention_chunks : list SourceChunk :=
  [source_chunk "Attention Is All You Need" "transformers use attention layers"].

(** Two calls in a row on one fresh [CitationFormatter]: the counter the
    first call leaves behind is the one the second call starts from. *)
Definition two_calls (txt : str) (chunks : list SourceChunk) (style : str)
  : option (str * str) :=
  match add_citations_to_text 0 txt chunks style with
  | Ok (cited1, _, counter1) =>
      match add_citations_to_text counter1 txt chunks style with
      | Ok (cited2, _, _) => Some (cited1, cited2)
      | Raise _ => None
      end
  | Raise _ => None
  end.

(** One chunk each of two papers; both chunks share the significant words
    of the sentences below. *)
Definition two_paper_chunks : list SourceChunk :=
  [source_chunk "Paper X" "transformers use attention layers";
   source_chunk "Paper Y" "transformers use attention heads"].

(** The sentences and the papers and markers they received. *)
Definition decisions (r : res (list Attribution * loop_state))
  : option (list (str * option (str * str))) :=
  match r with
  | Ok (atts, _) => Some (map (fun a => (sentence a, cited a)) atts)
  | Raise _ => None
  end.

(** Titles in the order of their first occurrence. *)
Definition first_seen (titles : list str) : list str :=
  fold_left (fun acc t => if bool_decide (t ∈ acc) then acc else acc ++ [t])
            titles [].

End CitationExamples.

Section TextProcessorVocabulary.
Import Re TextProcessor.

(** The text has neither an opening parenthesis nor an opening bracket. *)
Definition no_opening (s : str) : Prop :=
  Forall (fun c => c <> "("%char /\ c <> "["%char) s.

(** An NLP pipeline with one noun chunk of five words, one of two words and
    two named entities. *)
Definition sample_nlp : External :=
  {| nlp := Some {| noun_chunks := fun _ =>
                      [lit "a very long five word chunk"; lit "graph networks"];
                    ents := fun _ =>
                      [(lit "Google", lit "ORG"); (lit "2020", lit "DATE")] |};
     list_of_set := fun l => remove_dups l |}.

End TextProcessorVocabulary.

Section ChunkVocabulary.
Import Re TextProcessor SemanticChunker.

(** What every chunk of the fallback chunker satisfies. *)
Definition window_ok (self : SemanticChunker.t) (txt : str) (c : Chunk) : Prop :=
  SemanticChunker.text c = slice txt (start_char c) (end_char c)
  /\ (0 <= start_char c < end_char c)%Z
  /\ (end_char c <= len txt)%Z
  /\ truthy (strip (SemanticChunker.text c)) = true
  /\ ((0 <= chunk_size self)%Z ->
      (len (SemanticChunker.text c) <= chunk_size self)%Z).

(** What every chunk of [chunk_paper] satisfies, in both modes. *)
Definition chunk_ok (paper : Paper) (c : Chunk) : Prop :=
  (end_char c - start_char c = len (SemanticChunker.text c))%Z
  /\ (0 <= start_char c)%Z
  /\ truthy (strip (SemanticChunker.text c)) = true
  /\ chunk_paper_title c = title paper
  /\ paper_title (SemanticChunker.metadata c) = Some (title paper).

End ChunkVocabulary.

Section QueryVocabulary.
Import QueryProcessor.

(** The five labels of [classify_query_type]. *)
Definition query_types : list str :=
  [lit "question"; lit "comparison"; lit "summary"; lit "method"; lit "general"].

End QueryVocabulary.

Section RetrieverVocabulary.
Import Retriever.

(** The store gives distinct chunk ids within one answer. *)
Definition store_ids_distinct
  (search : str -> Z -> Q -> res (list RetrievalResult)) : Prop :=
  forall q k t rs, search q k t = Ok rs -> NoDup (map chunk_id rs).

(** A store that knows one chunk by id and answers every search with the
    corpus. *)
Definition corpus_lookup (id : str) : res (option str) :=
  if bool_decide (id = lit "c1") then Ok (Some (lit "text of c1")) else Ok None.

(** What the expansion loop maintains of its state. *)
Definition expansion_state_ok (top_k : Z) (ids0 : gset str)
  (st : list RetrievalResult * gset str) : Prop :=
  NoDup (map chunk_id st.1)
  /\ st.2 = ids0 ∪ list_to_set (map chunk_id st.1)
  /\ (forall x, x ∈ st.1 -> chunk_id x ∉ ids0)
  /\ Forall (fun x => from_expanded_query x = true) st.1
  /\ (Z.of_nat (length st.1) <= top_k)%Z.

End RetrieverVocabulary.

Section VectorStoreVocabulary.
Import Retriever.

(** The text, metadata and similarity that [search] computes for a row: the
    similarity is the float difference [1 - distance]. *)
Definition row_view (row : str * (option str * Metadata) * Q) : str * Metadata * Q :=
  let '(doc, (_, md), distance) := row in (doc, md, float_sub 1 distance).

(** The row's similarity reaches the threshold, both taken as floats. *)
Definition row_passes (t : Q) (row : str * (option str * Metadata) * Q) : bool :=
  let '(_, _, distance) := row in Qle_bool (float_lit t) (float_sub 1 distance).

Definition result_view (r : RetrievalResult) : str * Metadata * Q :=
  (text r, metadata r, similarity r).

(** An embedding function and a collection holding the two chunks of the
    corpus at distances 0.1 and 0.4, stored without a [chunk_id] key. *)
Definition sample_embed (s : str) : res (list Q) := Ok [1%Q; 0%Q].

Definition sample_collection (e : list Q) (n : Z) : res VectorStore.QueryResult :=
  Ok {| VectorStore.documents := slice_to [lit "first text"; lit "second text"] n;
        VectorStore.metadatas :=
          slice_to [(None, metadata (mk_result "c1" "Paper A" 0));
                    (None, metadata (mk_result "c2" "Paper B" 0))] n;
        VectorStore.distances := slice_to [1 # 10; 4 # 10]%Q n |}.

End VectorStoreVocabulary.

Section BibliographyVocabulary.
Import CitationFormatter.

(** The marker of paper [t] under the numeric style: the number that the
    map [m] holds for it, in brackets. *)
Definition numbered_marker (m : citation_map) (t marker : str) : Prop :=
  exists c k, citation_of t m = Some c /\ citation_number c = Some k
              /\ (1 <= k <= Z.of_nat (length m))%Z
              /\ marker = lit "[" ++ str_of_int k ++ lit "]".

(** The first chunk that can be cited under title [t]. *)
Definition first_chunk_of (t : str) (chunks : list SourceChunk) : option SourceChunk :=
  List.find (fun chunk => bool_decide (cited_title chunk = Some t)) chunks.

(** A text whose two sentences match the first and the second paper of
    [mixed_chunks] below. *)
Definition two_paper_text : str :=
  lit "Transformers use attention layers. Bidirectional encoders are pretrained.".

(** Two chunks of one paper with different authors, then one of another. *)
Definition mixed_chunks : list SourceChunk :=
  [source_chunk "Attention Is All You Need" "transformers use attention layers";
   {| text := lit "attention layers replace recurrence";
      metadata := {| paper_title := Some (lit "Attention Is All You Need");
                     paper_authors := [lit "Jones"];
                     paper_url := None; paper_published_date := None;
                     paper_journal := None; paper_doi := None;
                     paper_arxiv_id := None; paper_pubmed_id := None |} |};
   source_chunk "BERT" "bidirectional encoders are pretrained"].

End BibliographyVocabulary.

(** * Properties *)

(** ** The matcher only hands suffixes of its input to the continuation *)

Section RegexFacts.
Import Re.

Lemma run_star r prev s k :
  run (Star r) prev s k = star_loop r k (length s) prev s.
Proof. reflexivity. Qed.

Lemma run_suffix r : forall prev s k res,
  run r prev s k = Some res ->
  exists prev' s', s' `suffix_of` s /\ k prev' s' = Some res.
Proof.
  induction r as [ | p | r1 IH1 r2 IH2 | r1 IH1 r2 IH2 | r1 IH1 | p | ];
    intros prev s k res H.
  - simpl in H. eauto.
  - simpl in H. destruct s as [|c s']; [discriminate|].
    destruct (p c); [|discriminate].
    exists (Some c), s'. split; [apply suffix_cons_r; done | done].
  - simpl in H. apply IH1 in H as (p1 & s1 & Hs1 & H).
    apply IH2 in H as (p2 & s2 & Hs2 & H).
    exists p2, s2. split; [by etrans | done].
  - simpl in H. destruct (run r1 prev s k) eqn:E.
    + inversion H; subst. by apply IH1 in E.
    + by apply IH2 in H.
  - rewrite run_star in H. revert H. generalize (length s) at 1.
    intros fuel. revert prev s.
    induction fuel as [|fuel IHf]; intros prev s H; simpl in H.
    + eauto.
    + destruct (run r1 prev s _) eqn:E.
      * inversion H; subst. apply IH1 in E as (p1 & s1 & Hs1 & E).
        destruct (length s1 <? length s); [|discriminate].
        apply IHf in E as (p2 & s2 & Hs2 & E).
        exists p2, s2. split; [by etrans | done].
      * eauto.
  - simpl in H. destruct prev as [c|]; [|discriminate].
    destruct (p c); [eauto | discriminate].
  - simpl in H. destruct (xorb _ _); [eauto | discriminate].
Qed.

Lemma match_at_suffix r prev s prev' rest :
  match_at r prev s = Some (prev', rest) -> rest `suffix_of` s.
Proof.
  intros H. apply run_suffix in H as (p & s' & Hs & H). by inversion H; subst.
Qed.

(** [re.sub] builds its result from characters of the input and of the
    replacement. *)
Lemma sub_go_Forall (P : ascii -> Prop) r repl : forall fuel prev s,
  Forall P repl -> Forall P s -> Forall P (sub_go fuel r repl prev s).
Proof.
  induction fuel as [|fuel IH]; intros prev s Hr Hs; simpl; [done|].
  destruct (match_at r prev s) as [[prev' rest]|] eqn:E.
  - assert (Forall P rest) as Hrest.
    { apply match_at_suffix in E as [pre ->]. by apply Forall_app in Hs as [_ ?]. }
    destruct (length rest <? length s).
    + apply Forall_app; split; [done | by apply IH].
    + destruct s as [|c s']; [done|].
      apply Forall_app; split; [done|].
      inversion Hs; subst. constructor; [done | by apply IH].
  - destruct s as [|c s']; [done|].
    inversion Hs; subst. constructor; [done | by apply IH].
Qed.

Lemma sub_Forall (P : ascii -> Prop) r repl s :
  Forall P repl -> Forall P s -> Forall P (sub r repl s).
Proof. apply sub_go_Forall. Qed.

End RegexFacts.

(** ** Whitespace collapsing and stripping *)

Section WhitespaceFacts.
Import Re TextProcessor.

Ltac progress_ltb :=
  match goal with
  | |- context [?a <? ?b] =>
      replace (a <? b) with true by (symmetry; apply Nat.ltb_lt; simpl in *; lia)
  end.

(** *** [\s+] *)

Lemma star_space_loop : forall fuel prev s,
  length s <= fuel ->
  exists p', star_loop (Chr isspace) (fun p s' => Some (p, s')) fuel prev s
             = Some (p', dropwhile isspace s).
Proof.
  induction fuel as [|fuel IH]; intros prev s Hlen.
  - destruct s; simpl in *; [eauto | lia].
  - destruct s as [|c s']; simpl; [eauto|].
    destruct (isspace c) eqn:Ec; [|eauto].
    progress_ltb.
    destruct (IH (Some c) s') as [p' Hp]; [simpl in Hlen; lia|].
    rewrite Hp. eauto.
Qed.

Lemma match_ws_nil prev : match_at ws_plus prev [] = None.
Proof. reflexivity. Qed.

Lemma match_ws_nonspace prev c s :
  isspace c = false -> match_at ws_plus prev (c :: s) = None.
Proof. intros H. unfold match_at, ws_plus, Plus. simpl. by rewrite H. Qed.

Lemma match_ws_space prev c s :
  isspace c = true ->
  exists p', match_at ws_plus prev (c :: s) = Some (p', dropwhile isspace s).
Proof.
  intros H. unfold match_at, ws_plus, Plus.
  change (run (Seq (Chr isspace) (Star (Chr isspace))) prev (c :: s) (fun p s' => Some (p, s')))
    with (if isspace c then run (Star (Chr isspace)) (Some c) s (fun p s' => Some (p, s')) else None).
  rewrite H, run_star. by apply star_space_loop.
Qed.

Lemma dropwhile_length {A} (p : A -> bool) l : length (dropwhile p l) <= length l.
Proof. induction l as [|x l IH]; simpl; [lia|]. destruct (p x); simpl; lia. Qed.

Lemma dropwhile_head_ok s : head_ok (dropwhile isspace s).
Proof.
  induction s as [|c s IH]; simpl; [done|].
  destruct (isspace c) eqn:E; [done | simpl; done].
Qed.

Lemma dropwhile_id s : head_ok s -> dropwhile isspace s = s.
Proof. destruct s as [|c s]; simpl; [done|]. by intros ->. Qed.

Lemma space_is_space : isspace " " = true.
Proof. reflexivity. Qed.

Lemma sub_ws_shape : forall fuel prev s,
  length s < fuel ->
  spaced (sub_go fuel ws_plus (lit " ") prev s)
  /\ (head_ok s -> head_ok (sub_go fuel ws_plus (lit " ") prev s)).
Proof.
  induction fuel as [|fuel IH]; intros prev s Hlen; [lia|].
  destruct s as [|c s'].
  - simpl. done.
  - destruct (isspace c) eqn:Ec.
    + destruct (match_ws_space prev c s' Ec) as [p' Hm].
      simpl sub_go. rewrite Hm.
      pose proof (dropwhile_length isspace s') as Hd.
      progress_ltb.
      destruct (IH p' (dropwhile isspace s')) as [Hsp Hh]; [simpl in Hlen; lia|].
      specialize (Hh (dropwhile_head_ok s')).
      split; [|simpl; congruence].
      simpl. split; [|done]. intros _. split; [done|].
      exact Hh.
    + simpl sub_go. rewrite (match_ws_nonspace prev c s' Ec).
      destruct (IH (Some c) s') as [Hsp Hh]; [simpl in Hlen; lia|].
      split; [|done]. simpl. split; [congruence | done].
Qed.

Lemma sub_ws_spaced s : spaced (sub ws_plus (lit " ") s).
Proof. apply sub_ws_shape. lia. Qed.

Lemma sub_ws_fixed : forall fuel prev s,
  length s < fuel -> spaced s -> sub_go fuel ws_plus (lit " ") prev s = s.
Proof.
  induction fuel as [|fuel IH]; intros prev s Hlen Hsp; [lia|].
  destruct s as [|c s']; [done|].
  destruct Hsp as [Hc Hsp]. simpl in Hlen.
  destruct (isspace c) eqn:Ec.
  - destruct (Hc eq_refl) as [-> Hnext].
    destruct (match_ws_space prev " " s' Ec) as [p' Hm].
    simpl sub_go. rewrite Hm.
    rewrite (dropwhile_id s') by (destruct s'; done).
    progress_ltb.
    simpl. f_equal. apply IH; [lia | done].
  - simpl sub_go. rewrite (match_ws_nonspace prev c s' Ec).
    f_equal. apply IH; [lia | done].
Qed.

Lemma sub_ws_id s : spaced s -> sub ws_plus (lit " ") s = s.
Proof. apply sub_ws_fixed. lia. Qed.

(** *** The special-character class *)

Lemma sub_special_shape : forall fuel prev s,
  length s < fuel -> no_special (sub_go fuel special (lit " ") prev s).
Proof.
  induction fuel as [|fuel IH]; intros prev s Hlen; [lia|].
  destruct s as [|c s']; [constructor|].
  simpl in Hlen. simpl sub_go. unfold match_at. simpl run.
  destruct (special_char c) eqn:Ec.
  - progress_ltb.
    simpl. constructor; [reflexivity | apply IH; lia].
  - constructor; [done | apply IH; lia].
Qed.

Lemma sub_special_fixed : forall fuel prev s,
  no_special s -> sub_go fuel special (lit " ") prev s = s.
Proof.
  induction fuel as [|fuel IH]; intros prev s Hs; [done|].
  destruct s as [|c s']; [done|].
  inversion Hs as [|? ? Hc Hs']; subst.
  simpl sub_go. unfold match_at. simpl run. rewrite Hc.
  f_equal. by apply IH.
Qed.

(** *** [strip] *)

Lemma rstrip_cons c s :
  rstrip (c :: s) = match rstrip s with
                    | [] => if isspace c then [] else [c]
                    | r => c :: r
                    end.
Proof. reflexivity. Qed.

Lemma rstrip_head s c r : rstrip s = c :: r -> exists s', s = c :: s'.
Proof.
  destruct s as [|c0 s']; [done|]. rewrite rstrip_cons.
  destruct (rstrip s'); [destruct (isspace c0)|]; intros H; inversion H; eauto.
Qed.

Lemma rstrip_Forall (P : ascii -> Prop) s : Forall P s -> Forall P (rstrip s).
Proof.
  induction 1 as [|c s Hc Hs IH]; [constructor|].
  rewrite rstrip_cons. destruct (rstrip s); [destruct (isspace c)|]; auto.
Qed.

Lemma dropwhile_Forall {A} (P : A -> Prop) p l : Forall P l -> Forall P (dropwhile p l).
Proof. induction 1; simpl; [constructor|]. destruct (p x); auto. Qed.

Lemma strip_Forall (P : ascii -> Prop) s : Forall P s -> Forall P (strip s).
Proof. intros. by apply rstrip_Forall, dropwhile_Forall. Qed.

Lemma rstrip_idem s : rstrip (rstrip s) = rstrip s.
Proof.
  induction s as [|c s IH]; [done|]. rewrite rstrip_cons.
  destruct (rstrip s) as [|c' r] eqn:E.
  - destruct (isspace c) eqn:Ec; [done|]. simpl. by rewrite Ec.
  - rewrite rstrip_cons, IH. done.
Qed.

Lemma rstrip_head_ok s : head_ok s -> head_ok (rstrip s).
Proof.
  destruct s as [|c s]; [done|]. simpl. intros Hc.
  destruct (rstrip s); [rewrite Hc|]; done.
Qed.

Lemma lstrip_strip s : lstrip (strip s) = strip s.
Proof. apply dropwhile_id, rstrip_head_ok, dropwhile_head_ok. Qed.

Lemma rstrip_strip s : rstrip (strip s) = strip s.
Proof. apply rstrip_idem. Qed.

Lemma spaced_tail c s : spaced (c :: s) -> spaced s.
Proof. by intros [_ ?]. Qed.

Lemma dropwhile_spaced s : spaced s -> spaced (dropwhile isspace s).
Proof.
  induction s as [|c s IH]; [done|]. intros H. simpl dropwhile.
  destruct (isspace c); [apply IH; by destruct H | done].
Qed.

Lemma rstrip_spaced s : spaced s -> spaced (rstrip s).
Proof.
  induction s as [|c s IH]; [done|]. intros [Hc Hs]. rewrite rstrip_cons.
  specialize (IH Hs).
  destruct (rstrip s) as [|c' r] eqn:E.
  - destruct (isspace c) eqn:Ec; [done|]. simpl. split; [congruence | done].
  - split; [|done]. intros Hsp. destruct (Hc Hsp) as [-> Hn]. split; [done|].
    apply rstrip_head in E as [s' ->]. done.
Qed.

Lemma strip_spaced s : spaced s -> spaced (strip s).
Proof. intros. by apply rstrip_spaced, dropwhile_spaced. Qed.

Lemma strip_normal s : spaced s -> no_special s -> normal (strip s).
Proof.
  intros Hs Hn. repeat split.
  - by apply strip_spaced.
  - apply lstrip_strip.
  - apply rstrip_strip.
  - by apply strip_Forall.
Qed.

Lemma strip_id s : lstrip s = s -> rstrip s = s -> strip s = s.
Proof. unfold strip. by intros -> ->. Qed.

End WhitespaceFacts.

(** ** Texts that [clean_text] leaves alone *)

Section CleanTextFacts.
Import Re TextProcessor.

(** *** [clean_text] and [remove_citations] produce normal texts *)

Lemma normal_nil : normal [].
Proof. repeat split. constructor. Qed.

Lemma blank_no_special : no_special (lit " ").
Proof. repeat constructor. Qed.

Lemma clean_text_no_special s : no_special (clean_text s).
Proof.
  unfold clean_text. destruct (truthy s); simpl; [|constructor].
  apply strip_Forall, sub_Forall; [apply blank_no_special|].
  apply sub_special_shape. lia.
Qed.

Lemma clean_text_normal s : normal (clean_text s).
Proof.
  unfold clean_text. destruct (truthy s); simpl; [|apply normal_nil].
  apply strip_normal; [apply sub_ws_spaced|].
  apply sub_Forall; [apply blank_no_special|].
  apply sub_special_shape. lia.
Qed.

Lemma clean_text_id s : normal s -> clean_text s = s.
Proof.
  intros (Hsp & Hl & Hr & Hn). unfold clean_text.
  destruct s as [|c s']; [done|]. cbn [truthy negb].
  rewrite (sub_ws_id _ Hsp).
  unfold sub at 2. rewrite (sub_special_fixed _ _ _ Hn).
  rewrite (sub_ws_id _ Hsp). by apply strip_id.
Qed.

Lemma remove_citations_normal s : no_special s -> normal (remove_citations s).
Proof.
  intros Hn. unfold remove_citations. destruct (truthy s); simpl; [|apply normal_nil].
  apply strip_normal; [apply sub_ws_spaced|].
  apply sub_Forall; [apply blank_no_special|].
  repeat (apply sub_Forall; [constructor|]). done.
Qed.

Lemma preprocess_normal title abstract content :
  normal (preprocess_paper_content title abstract content).
Proof. apply remove_citations_normal, clean_text_no_special. Qed.

(** *** No paragraph separator in a normal text *)

Lemma spaced_no_newline s :
  spaced s -> Forall (fun c => c <> nl /\ c <> cr) s.
Proof.
  induction s as [|c s IH]; [constructor|]. intros [Hc Hs].
  constructor; [|by apply IH].
  split; intros ->; destruct (Hc eq_refl) as [E _]; discriminate E.
Qed.

Lemma match_para_sep_none prev s :
  match s with [] => True | c :: _ => c <> nl /\ c <> cr end ->
  match_at para_sep prev s = None.
Proof.
  destruct s as [|c s']; [done|]. intros [Hn Hc].
  unfold match_at, para_sep. cbn [run].
  apply Ascii.eqb_neq in Hn, Hc.
  rewrite (Ascii.eqb_sym nl c), (Ascii.eqb_sym cr c), Hn, Hc. done.
Qed.

Lemma split_para_none : forall fuel prev s,
  length s < fuel -> Forall (fun c => c <> nl /\ c <> cr) s ->
  split_go fuel para_sep prev s = [s].
Proof.
  induction fuel as [|fuel IH]; intros prev s Hlen Hs; [lia|].
  destruct s as [|c s']; [done|].
  simpl split_go. rewrite match_para_sep_none by (by inversion Hs).
  rewrite IH; [done | simpl in Hlen; lia | by inversion Hs].
Qed.

Lemma extract_paragraphs_normal s :
  normal s ->
  extract_paragraphs s = if 50 <? length s then [s] else [].
Proof.
  intros Hn. unfold extract_paragraphs.
  destruct s as [|c s'] eqn:Es; [done|]. rewrite <- Es in *.
  replace (negb (truthy s)) with false by (by rewrite Es).
  unfold split. rewrite split_para_none; [|lia|apply spaced_no_newline, Hn].
  simpl. unfold keep_paragraph. rewrite (clean_text_id _ Hn).
  replace (truthy s) with true by (by rewrite Es). simpl.
  destruct (50 <? length s); done.
Qed.

End CleanTextFacts.

(** ** Papers with more than 50 characters of text *)

Section LongPaperFacts.
Import Re TextProcessor SemanticChunker.

(** *** [chunk_paper] on a text of more than 50 characters *)

Lemma normal_strip s : normal s -> strip s = s.
Proof. intros (_ & Hl & Hr & _). by apply strip_id. Qed.

Lemma full_text_normal paper : normal (full_text_of paper).
Proof. apply preprocess_normal. Qed.

Lemma chunk_paper_long (self : SemanticChunker.t) (paper : Paper) :
  50 < length (full_text_of paper) ->
  chunk_paper self paper =
    let t := full_text_of paper in
    let start := if (len t + 2 <=? chunk_size self)%Z then 0%Z else len t in
    Ok [_create_chunk t paper start (start + len t)%Z].
Proof.
  intros Hlen. unfold chunk_paper.
  pose proof (full_text_normal paper) as Hn.
  rewrite (extract_paragraphs_normal _ Hn).
  apply Nat.ltb_lt in Hlen as Hb. rewrite Hb.
  cbn [fold_left]. unfold para_step.
  assert (truthy (strip (full_text_of paper)) = true) as Ht.
  { rewrite (normal_strip _ Hn). destruct (full_text_of paper); [simpl in Hlen; lia | done]. }
  change (len (@nil ascii)) with 0%Z. rewrite Z.add_0_l.
  destruct (len (full_text_of paper) + 2 <=? chunk_size self)%Z eqn:E.
  - cbn [truthy]. unfold flush. rewrite Ht. done.
  - replace ((0 <? chunk_overlap self)%Z && (chunk_overlap self <? 0)%Z) with false
      by (symmetry; apply andb_false_iff; destruct (Z.ltb_spec 0 (chunk_overlap self));
          [right; apply Z.ltb_ge; lia | by left]).
    unfold flush at 2. cbn [strip lstrip dropwhile rstrip truthy].
    unfold flush. rewrite Ht. done.
Qed.

(** C10: a paper whose preprocessed text has more than 50 characters is
    returned as exactly one chunk holding the whole preprocessed text,
    whatever [chunk_size] and [chunk_overlap] are: the text has no line
    break left, so it is its own single paragraph. *)
Theorem chunk_paper_single_chunk (self : SemanticChunker.t) (paper : Paper) :
  50 < length (full_text_of paper) ->
  exists c, chunk_paper self paper = Ok [c]
            /\ SemanticChunker.text c = full_text_of paper.
Proof.
  intros Hlen. rewrite (chunk_paper_long self paper Hlen).
  eexists. split; reflexivity.
Qed.

Lemma chunk_paper_single_chunk_witness :
  exists c, chunk_paper small_chunker survey_paper = Ok [c]
            /\ SemanticChunker.text c = full_text_of survey_paper.
Proof.
  apply chunk_paper_single_chunk. vm_compute. lia.
Defined.

End LongPaperFacts.

(** ** Slices, ranges and the offsets of the fallback chunker *)

Section SliceFacts.
Import Re TextProcessor SemanticChunker.

(** *** Slices and ranges *)

Lemma take_min_length {A} (l : list A) k : take (k `min` length l) l = take k l.
Proof.
  destruct (Nat.le_ge_cases k (length l)).
  - by rewrite Nat.min_l.
  - rewrite Nat.min_r by done. by rewrite !take_ge by lia.
Qed.

Lemma slice_length_window {A} (l : list A) (i size : Z) :
  (0 <= i < len l)%Z -> (0 < size)%Z ->
  len (slice l i (i + size)) = (Z.min (i + size) (len l) - i)%Z.
Proof.
  intros Hi Hs. unfold len in *. unfold slice, clamp.
  destruct (Z.ltb_spec i 0); [lia|].
  destruct (Z.ltb_spec (i + size) 0); [lia|].
  rewrite length_take, length_drop. lia.
Qed.

Lemma slice_window_id {A} (l : list A) (i b : Z) :
  (0 <= i)%Z -> slice l i (i + len (slice l i b)) = slice l i b.
Proof.
  intros Hi. unfold len.
  unfold slice at 1 3. unfold slice at 1.
  set (n := Z.of_nat (length l)).
  set (d := drop (Z.to_nat (clamp n i)) l).
  set (k := Z.to_nat (clamp n b - clamp n i)).
  rewrite length_take.
  assert (clamp n i = Z.min i n) as Ha by (unfold clamp; destruct (Z.ltb_spec i 0); lia).
  assert (length d = Z.to_nat (n - Z.min i n)) as Hd
      by (unfold d; rewrite length_drop, Ha; unfold n; lia).
  rewrite <- (take_min_length d k). f_equal.
  unfold clamp at 1.
  destruct (Z.ltb_spec (i + Z.of_nat (k `min` length d)) 0); [lia|].
  rewrite Ha. lia.
Qed.

Lemma range0_pos stop step :
  (0 < step)%Z ->
  range0 stop step =
    Ok (map (fun i => (Z.of_nat i * step)%Z)
            (seq 0 (Z.to_nat ((stop + step - 1) / step)))).
Proof.
  intros H. unfold range0.
  destruct (Z.eqb_spec step 0); [lia|]. destruct (Z.ltb_spec step 0); [lia|]. done.
Qed.

Lemma range0_elem stop step starts i :
  range0 stop step = Ok starts -> i ∈ starts -> (0 <= i)%Z.
Proof.
  unfold range0. destruct (step =? 0)%Z eqn:E0; [done|].
  destruct (Z.ltb_spec step 0); intros [= <-] Hi.
  - by apply elem_of_nil in Hi.
  - apply list_elem_of_fmap in Hi as (j & -> & _). nia.
Qed.

Lemma range0_covers stop step pos :
  (0 < step)%Z -> (0 <= pos < stop)%Z ->
  exists starts i, range0 stop step = Ok starts /\ i ∈ starts
                   /\ (i <= pos < i + step)%Z /\ (i < stop)%Z.
Proof.
  intros Hs Hp. rewrite range0_pos by done.
  eexists _, (Z.of_nat (Z.to_nat (pos / step)) * step)%Z.
  split; [reflexivity|].
  pose proof (Z.div_pos pos step ltac:(lia) Hs) as Hq.
  pose proof (Z.mul_div_le pos step Hs) as Hle.
  pose proof (Z.mod_pos_bound pos step Hs) as Hm.
  pose proof (Z.div_mod pos step ltac:(lia)) as Hdm.
  rewrite Z2Nat.id by done.
  split; [|nia].
  apply list_elem_of_fmap. exists (Z.to_nat (pos / step)).
  split; [by rewrite Z2Nat.id|]. apply elem_of_seq. split; [lia|]. simpl.
  apply Z2Nat.inj_lt; [done| apply Z.div_pos; lia |].
  apply Z.div_lt_upper_bound; [done|].
  assert (step * (pos / step) <= pos)%Z by lia.
  assert (step * ((stop + step - 1) / step) > stop - 1)%Z; [|nia].
  pose proof (Z.mod_pos_bound (stop + step - 1) step Hs).
  pose proof (Z.div_mod (stop + step - 1) step ltac:(lia)). lia.
Qed.

(** *** The fallback chunker records the offsets of its windows *)

Lemma window_elem self txt paper i c :
  c ∈ window self txt paper i ->
  truthy (strip (slice txt i (i + chunk_size self))) = true
  /\ c = _create_chunk (slice txt i (i + chunk_size self)) paper i
           (i + len (slice txt i (i + chunk_size self))).
Proof.
  unfold window. destruct (truthy _); [|by intros ?%elem_of_nil].
  intros ->%list_elem_of_singleton. done.
Qed.

Lemma truthy_strip_nonempty s : truthy (strip s) = true -> s <> [].
Proof. by intros H ->. Qed.

Lemma fallback_offsets self txt paper chunks c :
  _simple_chunk self txt paper = Ok chunks -> c ∈ chunks ->
  slice txt (start_char c) (end_char c) = SemanticChunker.text c
  /\ (0 <= start_char c < end_char c)%Z.
Proof.
  unfold _simple_chunk.
  destruct (range0 _ _) as [starts|] eqn:Er; [|done].
  intros [= <-] Hc. apply list_elem_of_In, in_flat_map in Hc as (i & Hi & Hc).
  apply list_elem_of_In in Hi, Hc.
  apply (range0_elem _ _ _ _ Er) in Hi.
  apply window_elem in Hc as [Ht ->]. cbn.
  split; [by apply slice_window_id|].
  apply truthy_strip_nonempty in Ht.
  unfold len. destruct (slice txt i (i + chunk_size self)); [done|]. simpl. lia.
Qed.

End SliceFacts.

(** ** Coverage of the fallback chunker *)

Section CoverageFacts.
Import Re TextProcessor SemanticChunker.

(** *** Blank and non-blank windows *)

Lemma rstrip_nonempty c s : isspace c = false -> rstrip (c :: s) <> [].
Proof. intros H. rewrite rstrip_cons. destruct (rstrip s); [rewrite H|]; done. Qed.

Lemma strip_nonblank s :
  Exists (fun c => isspace c = false) s -> truthy (strip s) = true.
Proof.
  intros H. unfold strip, lstrip.
  assert (exists c r, dropwhile isspace s = c :: r /\ isspace c = false) as (c & r & -> & Hc).
  { induction H as [c s Hc | c s H IH]; simpl.
    - rewrite Hc. eauto.
    - destruct (isspace c) eqn:E; eauto. }
  pose proof (rstrip_nonempty c r Hc). destruct (rstrip (c :: r)); done.
Qed.

Lemma rstrip_fixed_tail c s : rstrip (c :: s) = c :: s -> s = [] \/ rstrip s = s.
Proof.
  rewrite rstrip_cons. destruct (rstrip s) eqn:E.
  - destruct (isspace c); intros H; inversion H; auto.
  - intros H; inversion H; auto.
Qed.

Lemma rstrip_fixed_drop s n : rstrip s = s -> rstrip (drop n s) = drop n s.
Proof.
  revert s. induction n as [|n IH]; intros s H; [done|].
  destruct s as [|c s]; [done|]. simpl.
  destruct (rstrip_fixed_tail c s H) as [-> | H']; [by destruct n | by apply IH].
Qed.

Lemma spaced_drop s n : spaced s -> spaced (drop n s).
Proof.
  revert s. induction n as [|n IH]; intros s H; [done|].
  destruct s as [|c s]; [done|]. simpl. apply IH. by destruct H.
Qed.

Lemma window_nonblank (self : SemanticChunker.t) (txt : str) :
  normal txt -> (2 <= chunk_size self)%Z -> windows_nonblank self txt.
Proof.
  intros (Hsp & _ & Hr & _) Hsize i Hi. apply strip_nonblank.
  unfold len in Hi. unfold slice, clamp.
  destruct (Z.ltb_spec i 0); [lia|].
  destruct (Z.ltb_spec (i + chunk_size self) 0); [lia|].
  rewrite (Z.min_l i) by lia.
  set (k := Z.to_nat (Z.min (i + chunk_size self) (Z.of_nat (length txt)) - i)).
  pose proof (spaced_drop txt (Z.to_nat i) Hsp) as Hsp'.
  pose proof (rstrip_fixed_drop txt (Z.to_nat i) Hr) as Hr'.
  assert (length (drop (Z.to_nat i) txt) = length txt - Z.to_nat i) as Hl
      by apply length_drop.
  destruct (drop (Z.to_nat i) txt) as [|c [|c' d]] eqn:Ed.
  - simpl in Hl. lia.
  - assert (k = 1) as -> by (simpl in Hl; lia). simpl.
    constructor. simpl in Hr'. destruct (isspace c); done.
  - assert (exists k', k = S (S k')) as [k' ->] by (exists (k - 2); simpl in Hl; lia).
    simpl. destruct (isspace c) eqn:Ec.
    + apply Exists_cons_tl, Exists_cons_hd. destruct Hsp' as [Hc _].
      by destruct (Hc Ec) as [_ ?].
    + by apply Exists_cons_hd.
Qed.

(** *** Coverage of the fallback chunker *)

Lemma windows_nonblank_check (self : SemanticChunker.t) (txt : str) :
  (0 < chunk_size self - chunk_overlap self)%Z ->
  windows_nonblank self txt -> no_blank_window self txt = true.
Proof.
  intros Hs Hnb. unfold no_blank_window, window_starts.
  apply forallb_forall. intros i Hi. apply Hnb.
  rewrite range0_pos in Hi by done. apply in_map_iff in Hi as (j & <- & Hj).
  apply in_seq in Hj. split; [nia|].
  set (step := (chunk_size self - chunk_overlap self)%Z) in *.
  assert (Z.of_nat j < (len txt + step - 1) / step)%Z as Hlt by lia.
  pose proof (Z.mul_div_le (len txt + step - 1) step Hs). nia.
Qed.

Lemma simple_chunk_covers (self : SemanticChunker.t) (txt : str) (paper : Paper) :
  (0 <= chunk_overlap self < chunk_size self)%Z ->
  no_blank_window self txt = true ->
  exists chunks, _simple_chunk self txt paper = Ok chunks /\ covers chunks (len txt).
Proof.
  intros Hov Hnb. unfold _simple_chunk.
  unfold no_blank_window, window_starts in Hnb.
  rewrite range0_pos in * by lia. eexists. split; [reflexivity|].
  intros pos Hpos.
  destruct (range0_covers (len txt) (chunk_size self - chunk_overlap self) pos)
    as (starts & i & Hr & Hi & Hin & Hlt); [lia | done |].
  rewrite range0_pos in Hr by lia. injection Hr as <-.
  assert (0 <= i)%Z as Hi0.
  { apply list_elem_of_fmap in Hi as (j & -> & _). nia. }
  rewrite forallb_forall in Hnb. apply list_elem_of_In in Hi.
  exists (i, (i + len (slice txt i (i + chunk_size self)))%Z).
  split.
  - apply list_elem_of_In, in_map_iff.
    exists (_create_chunk (slice txt i (i + chunk_size self)) paper i
              (i + len (slice txt i (i + chunk_size self)))).
    split; [done|]. apply in_flat_map. exists i. split; [done|].
    unfold window. rewrite (Hnb i Hi). by left.
  - cbn. rewrite slice_length_window by lia. lia.
Qed.

Lemma chunk_paper_short (self : SemanticChunker.t) (paper : Paper) :
  length (full_text_of paper) <= 50 ->
  chunk_paper self paper = _simple_chunk self (full_text_of paper) paper.
Proof.
  intros H. unfold chunk_paper.
  rewrite (extract_paragraphs_normal _ (full_text_normal paper)).
  by replace (50 <? length (full_text_of paper)) with false
    by (symmetry; apply Nat.ltb_ge; lia).
Qed.

Lemma simple_chunk_250 (txt : str) (paper : Paper) :
  length txt = 250 -> no_blank_window example_chunker txt = true ->
  exists chunks, _simple_chunk example_chunker txt paper = Ok chunks
    /\ ranges chunks = [(0, 100); (80, 180); (160, 250); (240, 250)]%Z.
Proof.
  intros Hlen Hnb. unfold _simple_chunk.
  unfold no_blank_window, window_starts in Hnb.
  assert (len txt = 250%Z) as Hl by (unfold len; lia).
  rewrite Hl in *.
  change (range0 250 (chunk_size example_chunker - chunk_overlap example_chunker))
    with (@Ok (list Z) [0; 80; 160; 240]%Z) in *.
  eexists. split; [reflexivity|].
  cbn [forallb] in Hnb. rewrite !andb_true_iff in Hnb.
  destruct Hnb as (H0 & H1 & H2 & H3 & _).
  cbn [flat_map]. unfold window.
  rewrite H0, H1, H2, H3. cbn [app ranges map start_char end_char _create_chunk].
  rewrite !slice_length_window by (rewrite ?Hl; cbn; lia).
  rewrite Hl. reflexivity.
Qed.

End CoverageFacts.

(** ** Chunker claims *)

Section ChunkerClaims.
Import Re TextProcessor SemanticChunker.

(** C2 (defect in the code): in paragraph mode the recorded range leaves the
    text.  With [chunk_size = 40] the 87-character text of [survey_paper]
    overflows the empty buffer; [chunk_start] is then advanced by the length
    of the paragraph just stored, so the only chunk holds the whole text but
    is recorded at [87, 174), where the text has no characters. *)
Theorem chunk_paper_offsets_beyond_text :
  exists c, chunk_paper small_chunker survey_paper = Ok [c]
    /\ SemanticChunker.text c = full_text_of survey_paper
    /\ len (full_text_of survey_paper) = 87%Z
    /\ start_char c = 87%Z /\ end_char c = 174%Z
    /\ slice (full_text_of survey_paper) (start_char c) (end_char c) = []
    /\ slice (full_text_of survey_paper) (start_char c) (end_char c)
       <> SemanticChunker.text c.
Proof.
  eexists. split; [vm_compute; reflexivity|].
  split; [vm_compute; reflexivity|]. split; [vm_compute; reflexivity|].
  split; [reflexivity|]. split; [reflexivity|].
  split; [vm_compute; reflexivity|].
  vm_compute. discriminate.
Qed.

(** C3, as stated, fails: the 250-character example has a fourth window
    [240, 250); [chunk_paper] does not use the fallback for a 250-character
    text at all; with [chunk_size = 1] the blank after [Title:] is in no
    chunk; and with a negative overlap the windows are apart. *)
Lemma fallback_example_refuted :
  (exists chunks, _simple_chunk example_chunker text_250 tiny_paper = Ok chunks
     /\ ranges chunks = [(0, 100); (80, 180); (160, 250); (240, 250)]%Z
     /\ ranges chunks <> [(0, 100); (80, 180); (160, 250)]%Z)
  /\ (length (full_text_of paper_250) = 250
      /\ ranges (results_of (chunk_paper example_chunker paper_250)) = [(250, 500)]%Z)
  /\ (exists chunks, chunk_paper unit_chunker tiny_paper = Ok chunks
        /\ ~ covers chunks (len (full_text_of tiny_paper)))
  /\ (exists chunks, chunk_paper sparse_chunker tiny_paper = Ok chunks
        /\ ranges chunks = [(0, 10); (15, 20)]%Z
        /\ ~ covers chunks (len (full_text_of tiny_paper))).
Proof.
  split; [|split; [|split]].
  - eexists. split; [vm_compute; reflexivity|]. split; [reflexivity | discriminate].
  - split; vm_compute; reflexivity.
  - eexists. split; [vm_compute; reflexivity|].
    intros H. destruct (H 6%Z) as (r & Hr & Hpos); [vm_compute; split; congruence|].
    vm_compute in Hr. apply list_elem_of_In in Hr. simpl in Hr.
    repeat (destruct Hr as [<- | Hr]; [simpl in Hpos; lia|]). done.
  - eexists. split; [vm_compute; reflexivity|]. split; [reflexivity|].
    intros H. destruct (H 12%Z) as (r & Hr & Hpos); [vm_compute; split; congruence|].
    vm_compute in Hr. apply list_elem_of_In in Hr. simpl in Hr.
    repeat (destruct Hr as [<- | Hr]; [simpl in Hpos; lia|]). done.
Qed.

(** C3, amended: the fallback of [chunk_paper] (a preprocessed text of at
    most 50 characters) covers the whole text when
    [0 <= chunk_overlap < chunk_size] and [chunk_size >= 2]; and a
    250-character text without a blank window, cut by the fallback chunker
    with [chunk_size = 100] and [chunk_overlap = 20], gives the ranges
    [0,100), [80,180), [160,250), [240,250). *)
Theorem fallback_coverage (self : SemanticChunker.t) (paper : Paper) (txt : str) :
  (0 <= chunk_overlap self < chunk_size self)%Z ->
  (2 <= chunk_size self)%Z ->
  length (full_text_of paper) <= 50 ->
  length txt = 250 ->
  no_blank_window example_chunker txt = true ->
  (exists chunks, chunk_paper self paper = Ok chunks
     /\ covers chunks (len (full_text_of paper)))
  /\ (exists chunks, _simple_chunk example_chunker txt paper = Ok chunks
        /\ ranges chunks = [(0, 100); (80, 180); (160, 250); (240, 250)]%Z).
Proof.
  intros Hov Hsize Hshort Hlen Hnb. split.
  - rewrite chunk_paper_short by done.
    apply simple_chunk_covers; [done|].
    apply windows_nonblank_check; [lia|].
    apply window_nonblank; [apply full_text_normal | done].
  - by apply simple_chunk_250.
Qed.

Lemma fallback_coverage_witness :
  (exists chunks, chunk_paper ten_two_chunker tiny_paper = Ok chunks
     /\ covers chunks (len (full_text_of tiny_paper)))
  /\ (exists chunks, _simple_chunk example_chunker text_250 tiny_paper = Ok chunks
        /\ ranges chunks = [(0, 100); (80, 180); (160, 250); (240, 250)]%Z).
Proof.
  apply (fallback_coverage ten_two_chunker tiny_paper text_250).
  - simpl. lia.
  - simpl. lia.
  - vm_compute. lia.
  - reflexivity.
  - vm_compute. reflexivity.
Defined.




(** C9 (defect in the code): two different papers without catalog
    identifiers, chunked in one batch, get the same [chunk_id]: the
    identifier part is the text [None] for both and the offsets agree. *)
Theorem chunk_ids_collide :
  map chunk_id (chunk_multiple_papers SemanticChunker.default
                  [tiny_paper; other_tiny_paper])
    = [lit "None_0_20"; lit "None_0_20"]
  /\ ~ NoDup (map chunk_id (chunk_multiple_papers SemanticChunker.default
                              [tiny_paper; other_tiny_paper])).
Proof.
  assert (map chunk_id (chunk_multiple_papers SemanticChunker.default
                          [tiny_paper; other_tiny_paper])
          = [lit "None_0_20"; lit "None_0_20"]) as E by (vm_compute; reflexivity).
  split; [exact E|]. rewrite E. intros H.
  apply NoDup_cons in H as [Hn _]. apply Hn. by left.
Qed.

End ChunkerClaims.

(** ** Retrieval *)

Section RetrievalProofs.
Import Retriever.

(** *** The stable descending sort *)

Section SortFacts.
Context {A : Type} (key : A -> Q).

Lemma insert_desc_perm x l : Permutation (insert_desc key x l) (x :: l).
Proof.
  induction l as [|y l IH]; simpl; [done|].
  destruct (Qle_bool (key y) (key x)); [done|].
  rewrite IH. apply perm_swap.
Qed.

Lemma sort_desc_perm l : Permutation (sort_desc key l) l.
Proof.
  induction l as [|x l IH]; simpl; [done|].
  rewrite insert_desc_perm. by constructor.
Qed.

Lemma insert_desc_sorted x l :
  StronglySorted (desc key) l -> StronglySorted (desc key) (insert_desc key x l).
Proof.
  induction 1 as [|y l Hs IH Hy]; simpl; [repeat constructor|].
  destruct (Qle_bool (key y) (key x)) eqn:E.
  - apply Qle_bool_iff in E. constructor; [by constructor|].
    constructor; [exact E|].
    eapply Forall_impl; [exact Hy|]. intros z Hz. unfold desc in *.
    by eapply Qle_trans.
  - constructor; [exact IH|].
    rewrite insert_desc_perm. constructor; [|exact Hy].
    unfold desc. apply Qlt_le_weak, Qnot_le_lt. intros H.
    apply Qle_bool_iff in H. congruence.
Qed.

Lemma sort_desc_sorted l : StronglySorted (desc key) (sort_desc key l).
Proof.
  induction l as [|x l IH]; simpl; [constructor|]. by apply insert_desc_sorted.
Qed.

Lemma sorted_take n l : StronglySorted (desc key) l -> StronglySorted (desc key) (take n l).
Proof.
  intros H. rewrite <- (take_drop n l) in H.
  by apply StronglySorted_app_1_l in H.
Qed.

Lemma sorted_keys l :
  StronglySorted (desc key) l -> StronglySorted (fun a b => (b <= a)%Q) (map key l).
Proof.
  induction 1 as [|x l Hs IH Hx]; simpl; constructor; [done|].
  apply Forall_map. exact Hx.
Qed.
End SortFacts.

Lemma slice_to_take {A} (l : list A) (k : Z) :
  (0 <= k)%Z -> slice_to l k = take (Z.to_nat k) l.
Proof.
  intros Hk. unfold slice_to, slice, clamp. simpl.
  destruct (Z.ltb_spec k 0); [lia|].
  rewrite (Z.min_l 0) by lia. rewrite Z.sub_0_r.
  change (drop (Z.to_nat 0) l) with l.
  destruct (Z.le_ge_cases k (Z.of_nat (length l))).
  - by rewrite Z.min_l.
  - rewrite Z.min_r by lia. rewrite Nat2Z.id, firstn_all.
    symmetry. apply take_ge. lia.
Qed.

Lemma slice_to_length {A} (l : list A) (k : Z) :
  (0 <= k)%Z -> (Z.of_nat (length (slice_to l k)) <= k)%Z.
Proof. intros Hk. rewrite slice_to_take by done. rewrite length_take. lia. Qed.

(** *** The expansion loop only keeps results the store returned *)

Section RetrieveFacts.
Variable ext : External.
Variable cfg : Config.
Variable search : str -> Z -> Q -> res (list RetrievalResult).
Hypothesis Hstore : store_filters search.

Lemma take_result_Forall (P : RetrievalResult -> Prop) top_k st r :
  (forall x, P x -> P (mark_expanded x)) ->
  Forall P st.1 -> P r -> Forall P (take_result top_k st r).1.
Proof.
  intros Hm Hst Hr. destruct st as [a ids]. unfold take_result.
  destruct (_ && _); [|done]. simpl. apply Forall_app. split; [done|].
  constructor; [by apply Hm | constructor].
Qed.

Lemma fold_take_result_Forall (P : RetrievalResult -> Prop) top_k rs : forall st,
  (forall x, P x -> P (mark_expanded x)) ->
  Forall P st.1 -> Forall P rs ->
  Forall P (fold_left (take_result top_k) rs st).1.
Proof.
  induction rs as [|r rs IH]; intros st Hm Hst Hrs; [done|].
  inversion Hrs; subst. simpl. apply IH; [done| |done].
  by apply take_result_Forall.
Qed.

Lemma expanded_loop_Forall top_k t qs : forall st,
  Forall (fun r => (t <= similarity r)%Q) st.1 ->
  Forall (fun r => (t <= similarity r)%Q) (expanded_loop search top_k t qs st).
Proof.
  induction qs as [|q qs IH]; intros st Hst; simpl; [done|].
  destruct (top_k <=? _)%Z; [done|].
  destruct (search q top_k t) as [rs|] eqn:E; [|by apply IH].
  apply IH. apply fold_take_result_Forall; [done | done | by eapply Hstore].
Qed.

Lemma retrieve_threshold q top_k t :
  Forall (fun r => (effective_threshold cfg t <= similarity r)%Q)
         (retrieve ext cfg search q top_k t).
Proof.
  unfold retrieve. destruct (truthy q); simpl; [|constructor].
  destruct (search _ _ _) as [rs|] eqn:E; [|constructor].
  apply Forall_map. simpl.
  match goal with |- context [sort_desc similarity ?m] => set (merged := m) end.
  assert (Forall (fun r => (effective_threshold cfg t <= similarity r)%Q) merged) as Hm.
  { unfold merged. destruct (_ && _); [|by eapply Hstore].
    apply Forall_app. split; [by eapply Hstore|].
    apply expanded_loop_Forall. constructor. }
  assert (Forall (fun r => (effective_threshold cfg t <= similarity r)%Q)
                 (sort_desc similarity merged)) as Hs
      by (by rewrite sort_desc_perm).
  unfold slice_to, slice. by apply Forall_take, Forall_drop.
Qed.

Lemma retrieve_sorted q top_k t :
  (0 <= effective_top_k cfg top_k)%Z ->
  StronglySorted (fun a b => (b <= a)%Q)
    (map similarity (retrieve ext cfg search q top_k t)).
Proof.
  intros Hk. unfold retrieve. destruct (truthy q); simpl; [|constructor].
  destruct (search _ _ _) as [rs|] eqn:E; [|constructor].
  rewrite map_map. simpl. apply (sorted_keys similarity).
  rewrite slice_to_take by done. apply sorted_take, sort_desc_sorted.
Qed.

Lemma retrieve_length q top_k t :
  (0 <= effective_top_k cfg top_k)%Z ->
  (Z.of_nat (length (retrieve ext cfg search q top_k t)) <= effective_top_k cfg top_k)%Z.
Proof.
  intros Hk. unfold retrieve. destruct (truthy q); simpl; [|lia].
  destruct (search _ _ _) as [rs|] eqn:E; [|simpl; lia].
  rewrite length_map. by apply slice_to_length.
Qed.

End RetrieveFacts.

(** C1, amended: for a store that filters by the threshold it is given,
    [retrieve] with a positive [top_k] returns at most [top_k] results,
    each of similarity at least [t], in non-increasing order of similarity,
    provided that [t] is not zero or the configured threshold is not
    negative: a threshold of zero is falsy and is replaced by the
    configured one (0.7 by default). *)
Theorem retrieve_sound (ext : External) (cfg : Config)
  (search : str -> Z -> Q -> res (list RetrievalResult))
  (q : str) (top_k : Z) (t : Q) :
  store_filters search ->
  (0 < top_k)%Z ->
  (t == 0 -> 0 <= SIMILARITY_THRESHOLD cfg)%Q ->
  let results := retrieve ext cfg search q (Some top_k) (Some t) in
  (Z.of_nat (length results) <= top_k)%Z
  /\ Forall (fun r => (t <= similarity r)%Q) results
  /\ StronglySorted (fun a b => (b <= a)%Q) (map similarity results).
Proof.
  intros Hstore Hk Hcfg results.
  assert (effective_top_k cfg (Some top_k) = top_k) as Ek.
  { simpl. destruct (Z.eqb_spec top_k 0); [lia | done]. }
  split; [|split].
  - pose proof (retrieve_length ext cfg search q (Some top_k) (Some t)) as H.
    rewrite Ek in H. apply H. lia.
  - eapply Forall_impl;
      [apply (retrieve_threshold ext cfg search Hstore q (Some top_k) (Some t))|].
    intros r Hr. simpl in Hr. destruct (Qeq_bool t 0) eqn:E; [|done].
    apply Qeq_bool_iff in E. specialize (Hcfg E).
    rewrite E. by eapply Qle_trans.
  - apply retrieve_sorted. rewrite Ek. lia.
Qed.

End RetrievalProofs.

(** ** Quality validation: auxiliary facts *)

Section QualityFacts.
Import Retriever.

Lemma corpus_search_filters : store_filters corpus_search.
Proof.
  intros q k t rs H.
  assert (Forall (fun r => (t <= similarity r)%Q)
                 (List.filter (fun r => Qle_bool t (similarity r)) corpus)) as Hf.
  { apply List.Forall_forall. intros r Hr.
    apply filter_In in Hr as [_ Hr]. by apply Qle_bool_iff. }
  unfold corpus_search in H. injection H as <-.
  unfold slice_to, slice. by apply Forall_take, Forall_drop.
Qed.

Lemma distant_search_filters : store_filters distant_search.
Proof.
  intros q k t rs H.
  assert (Forall (fun r => (t <= similarity r)%Q)
                 (List.filter (fun r => Qle_bool t (similarity r)) distant_corpus)) as Hf.
  { apply List.Forall_forall. intros r Hr.
    apply filter_In in Hr as [_ Hr]. by apply Qle_bool_iff. }
  unfold distant_search in H. injection H as <-.
  unfold slice_to, slice. by apply Forall_take, Forall_drop.
Qed.

(** C1, as stated, fails for the threshold 0: [similarity_threshold or
    Config.SIMILARITY_THRESHOLD] replaces it by the configured threshold,
    and with a configured threshold of -1 a store that filters as it
    should hands back a result of similarity -0.5, which [retrieve]
    returns although it is below the threshold 0 of the call. *)
Lemma retrieve_zero_threshold_refuted :
  let results := retrieve no_nlp permissive_config distant_search
                          (lit "attention") (Some 5%Z) (Some 0%Q) in
  store_filters distant_search
  /\ map similarity results = [(-1 # 2)%Q]
  /\ ~ Forall (fun r => (0 <= similarity r)%Q) results.
Proof.
  split; [exact distant_search_filters|].
  split; [vm_compute; reflexivity|].
  intros H. vm_compute in H. apply Forall_cons in H as [H _].
  by apply H.
Qed.

Lemma retrieve_sound_witness :
  let results := retrieve no_nlp default_config corpus_search
                          (lit "attention") (Some 5%Z) (Some (7 # 10)) in
  (Z.of_nat (length results) <= 5)%Z
  /\ Forall (fun r => (7 # 10 <= similarity r)%Q) results
  /\ StronglySorted (fun a b => (b <= a)%Q) (map similarity results).
Proof.
  apply (retrieve_sound no_nlp default_config corpus_search
                        (lit "attention") 5%Z (7 # 10)).
  - exact corpus_search_filters.
  - lia.
  - intros _. vm_compute. discriminate.
Defined.

(** The example of the specification: of two chunks with similarities 0.9
    and 0.6, only the first survives a threshold of 0.7. *)
Example retrieve_threshold_example :
  map chunk_id (retrieve no_nlp default_config corpus_search
                         (lit "attention") (Some 5%Z) (Some (7 # 10)))
  = [lit "c1"].
Proof. vm_compute. reflexivity. Qed.

(** *** [validate_retrieval_quality] *)






End QualityFacts.

(** ** Quality validation *)

Section QualityClaim.
Import Retriever.




End QualityClaim.

(** ** Query expansion *)

Section ExpandClaims.
Import QueryProcessor.

(** *** Slices are sublists *)

Lemma slice_sublist {A} (l : list A) a b : slice l a b `sublist_of` l.
Proof.
  unfold slice. etrans; [apply sublist_take | apply sublist_drop].
Qed.

Lemma slice_elem_of {A} (l : list A) a b x : x ∈ slice l a b -> x ∈ l.
Proof. apply sublist_subseteq, slice_sublist. Qed.

Lemma slice_to_head {A} (l : list A) (k : Z) :
  (1 <= k)%Z -> head (slice_to l k) = head l.
Proof.
  intros Hk. rewrite slice_to_take by lia.
  destruct (Z.to_nat k) eqn:E; [lia|]. by destruct l.
Qed.

(** *** The loops of [expand_query] *)

Section ExpandFacts.
Variable ext : External.
Variable query : str.
Variable max_expansions : Z.

Lemma variation_differs phrase v :
  v ∈ _create_query_variations phrase query -> lower v <> lower query.
Proof.
  unfold _create_query_variations. intros H%slice_elem_of.
  by apply list_elem_of_filter in H as [H _].
Qed.

Lemma snoc_inv phrases l v :
  expansion_inv query phrases l -> v ∉ l ->
  (v ∈ phrases \/ lower v <> lower query) ->
  expansion_inv query phrases (l ++ [v]).
Proof.
  intros (Hh & Hn & Hv) Hnot Hnew. split; [|split].
  - destruct l; [done | exact Hh].
  - apply NoDup_app. split; [done|]. split; [|apply NoDup_singleton].
    intros x Hx ->%list_elem_of_singleton. done.
  - intros x [Hx | ->%list_elem_of_singleton]%elem_of_app; [by apply Hv | tauto].
Qed.

Lemma add_variation_inv phrases l v :
  expansion_inv query phrases l -> lower v <> lower query ->
  expansion_inv query phrases (add_variation max_expansions l v).
Proof.
  intros Hl Hv. unfold add_variation.
  destruct (bool_decide (v ∉ l)) eqn:E; simpl; [|done].
  destruct (_ <? _)%Z; [|done].
  apply bool_decide_eq_true in E. apply snoc_inv; auto.
Qed.

Lemma add_variations_inv phrases vs : forall l,
  expansion_inv query phrases l ->
  Forall (fun v => lower v <> lower query) vs ->
  expansion_inv query phrases (fold_left (add_variation max_expansions) vs l).
Proof.
  induction vs as [|v vs IH]; intros l Hl Hvs; [done|].
  inversion Hvs; subst. simpl. apply IH; [|done]. by apply add_variation_inv.
Qed.

Lemma add_phrase_inv phrases l phrase :
  expansion_inv query phrases l -> phrase ∈ phrases ->
  expansion_inv query phrases (add_phrase query max_expansions l phrase).
Proof.
  intros Hl Hp. unfold add_phrase. apply add_variations_inv.
  - destruct (bool_decide (phrase ∉ l)) eqn:E; [|done].
    apply bool_decide_eq_true in E. apply snoc_inv; auto.
  - apply Forall_forall. intros v. apply variation_differs.
Qed.

Lemma add_phrases_inv phrases ps : forall l,
  expansion_inv query phrases l -> ps ⊆ phrases ->
  expansion_inv query phrases (fold_left (add_phrase query max_expansions) ps l).
Proof.
  induction ps as [|p ps IH]; intros l Hl Hsub; [done|].
  simpl. apply IH.
  - apply add_phrase_inv; [done|]. apply Hsub. by left.
  - intros x Hx. apply Hsub. by right.
Qed.

Lemma expand_query_inv :
  query <> [] -> (1 <= max_expansions)%Z ->
  expansion_inv query (TextProcessor.extract_key_phrases ext query max_expansions)
                (expand_query ext query max_expansions)
  /\ (Z.of_nat (length (expand_query ext query max_expansions)) <= max_expansions)%Z.
Proof.
  intros Hq Hmax. unfold expand_query.
  destruct query as [|c q'] eqn:Eq; [done|]. rewrite <- Eq in *. cbn [truthy negb].
  replace (truthy query) with true by (by rewrite Eq). cbn [negb].
  set (phrases := TextProcessor.extract_key_phrases ext query max_expansions).
  assert (expansion_inv query phrases [query]) as H0.
  { split; [done|]. split; [apply NoDup_singleton|].
    intros v ->%list_elem_of_singleton. by left. }
  pose proof (add_phrases_inv phrases phrases [query] H0 ltac:(done))
    as (Hh & Hn & Hv).
  split; [|apply slice_to_length; lia].
  split; [|split].
  - by rewrite slice_to_head.
  - exact (sublist_NoDup _ _ Hn (slice_sublist _ _ _)).
  - intros v Hin%slice_elem_of. by apply Hv.
Qed.

End ExpandFacts.

(** C5, as stated, fails: with [max_expansions = 0] the result is empty;
    with a negative bound it can be longer than the bound; the first
    element is the query as passed, not the cleaned one; and two key
    phrases that differ only in case are both kept. *)
Lemma expand_query_refuted :
  expand_query no_nlp (lit "deep learning") 0 = []
  /\ (Z.of_nat (length (expand_query two_spellings (lit "BERT and bert") (-1)))
      > -1)%Z
  /\ (head (expand_query no_nlp (lit "deep  learning") 3) = Some (lit "deep  learning")
      /\ preprocess_query (lit "deep  learning") = lit "deep learning")
  /\ (lit "BERT" ∈ expand_query two_spellings (lit "BERT and bert") 5
      /\ lit "bert" ∈ expand_query two_spellings (lit "BERT and bert") 5
      /\ lit "BERT" <> lit "bert"
      /\ lower (lit "BERT") = lower (lit "bert")).
Proof.
  split; [vm_compute; reflexivity|].
  split; [vm_compute; reflexivity|].
  split; [split; vm_compute; reflexivity|].
  assert (expand_query two_spellings (lit "BERT and bert") 5
          = [lit "BERT and bert"; lit "BERT"; lit "research on BERT";
             lit "BERT studies"; lit "bert"]) as -> by (vm_compute; reflexivity).
  split; [by repeat first [apply list_elem_of_here | apply list_elem_of_further]|].
  split; [by repeat first [apply list_elem_of_here | apply list_elem_of_further]|].
  split; [intros H; vm_compute in H; discriminate H | vm_compute; reflexivity].
Qed.

(** C5, amended: for a non-empty query and [max_expansions >= 1] the result
    starts with the query as it was passed, lists nothing twice (exact
    comparison), has at most [max_expansions] elements, and each element
    that is neither the query nor a key phrase differs from the query even
    when case is ignored. *)
Theorem expand_query_spec (ext : External) (query : str) (max_expansions : Z) :
  query <> [] -> (1 <= max_expansions)%Z ->
  let expanded := expand_query ext query max_expansions in
  head expanded = Some query
  /\ NoDup expanded
  /\ (Z.of_nat (length expanded) <= max_expansions)%Z
  /\ (forall v, v ∈ expanded ->
        v = query
        \/ v ∈ TextProcessor.extract_key_phrases ext query max_expansions
        \/ lower v <> lower query).
Proof.
  intros Hq Hmax expanded.
  destruct (expand_query_inv ext query max_expansions Hq Hmax)
    as ((Hh & Hn & Hv) & Hlen).
  auto.
Qed.

Lemma expand_query_spec_witness :
  let expanded := expand_query two_spellings (lit "BERT and bert") 5 in
  head expanded = Some (lit "BERT and bert")
  /\ NoDup expanded
  /\ (Z.of_nat (length expanded) <= 5)%Z
  /\ (forall v, v ∈ expanded ->
        v = lit "BERT and bert"
        \/ v ∈ TextProcessor.extract_key_phrases two_spellings (lit "BERT and bert") 5
        \/ lower v <> lower (lit "BERT and bert")).
Proof.
  apply (expand_query_spec two_spellings (lit "BERT and bert") 5).
  - discriminate.
  - lia.
Defined.

(** The example of the specification: a query that starts with [what] is a
    question. *)
Example classify_question :
  classify_query_type (lit "What are transformers?") = lit "question".
Proof. vm_compute. reflexivity. Qed.

End ExpandClaims.

(** ** Citation attribution *)

Section CitationFacts.
Import CitationFormatter.

(** *** The citation map *)

Lemma citation_of_app t m1 m2 :
  citation_of t (m1 ++ m2) = match citation_of t m1 with
                        | Some c => Some c
                        | None => citation_of t m2
                        end.
Proof.
  induction m1 as [|[k c] m1 IH]; simpl; [done|].
  destruct (bool_decide (k = t)); done.
Qed.

Lemma citation_of_set t' t c m :
  is_Some (citation_of t' (set_citation t c m)) <-> is_Some (citation_of t' m).
Proof.
  induction m as [|[k c0] m IH]; simpl; [done|].
  destruct (bool_decide (k = t)) eqn:E; simpl.
  - destruct (bool_decide (k = t')); [split; eauto | done].
  - destruct (bool_decide (k = t')); [split; eauto | done].
Qed.

Lemma citation_of_number_all t m : forall n,
  is_Some (citation_of t (number_all n m).1) <-> is_Some (citation_of t m).
Proof.
  induction m as [|[k c] m IH]; intros n; simpl; [done|].
  specialize (IH (n + 1)%Z). destruct (number_all (n + 1) m) as [m' final].
  simpl in *. destruct (bool_decide (k = t)); [split; eauto | done].
Qed.

Lemma map_step_mono m chunk t :
  is_Some (citation_of t m) -> is_Some (citation_of t (map_step m chunk)).
Proof.
  intros [c Hc]. unfold map_step. destruct (cited_title chunk) as [t'|]; [|eauto].
  destruct (citation_of t' m); [eauto|]. rewrite citation_of_app, Hc. eauto.
Qed.

Lemma map_step_adds m chunk t :
  cited_title chunk = Some t -> is_Some (citation_of t (map_step m chunk)).
Proof.
  intros Ht. unfold map_step. rewrite Ht.
  destruct (citation_of t m) eqn:E; [rewrite E; eauto|].
  rewrite citation_of_app, E. simpl. rewrite bool_decide_eq_true_2 by done. eauto.
Qed.

Lemma fold_map_step_mono chunks : forall m t,
  is_Some (citation_of t m) -> is_Some (citation_of t (fold_left map_step chunks m)).
Proof.
  induction chunks as [|ch chunks IH]; intros m t H; [done|].
  simpl. by apply IH, map_step_mono.
Qed.

Lemma create_citation_map_complete chunks :
  map_complete chunks (create_citation_map chunks).
Proof.
  unfold create_citation_map. change (fun m chunk => _) with map_step.
  generalize (@nil (str * Citation)).
  induction chunks as [|ch chunks IH]; intros m chunk t Hin Ht.
  - by apply elem_of_nil in Hin.
  - simpl. apply elem_of_cons in Hin as [-> | Hin].
    + by apply fold_map_step_mono, map_step_adds.
    + by eapply IH.
Qed.

Lemma initial_state_complete count chunks style :
  map_complete chunks (cmap (initial_state count chunks style))
  /\ cited_papers (initial_state count chunks style) = ∅.
Proof.
  unfold initial_state. destruct (bool_decide _).
  - pose proof (citation_of_number_all) as Hn.
    destruct (number_all 0 (create_citation_map chunks)) as [m' c'] eqn:E.
    split; [|done]. intros chunk t Hin Ht. simpl.
    specialize (Hn t (create_citation_map chunks) 0%Z). rewrite E in Hn.
    apply Hn. by eapply create_citation_map_complete.
  - split; [|done]. apply create_citation_map_complete.
Qed.

(** *** Choosing the paper for a sentence *)

Lemma first_citable_Some cs sent chunks t :
  first_citable cs sent chunks = Some t ->
  (t ∉ cs) /\ exists chunk, chunk ∈ chunks /\ cited_title chunk = Some t
                          /\ _sentence_cites_paper sent (text chunk) = true.
Proof.
  induction chunks as [|ch chunks IH]; simpl; [done|].
  destruct (cited_title ch) as [t'|] eqn:Et.
  - destruct (_sentence_cites_paper sent (text ch)) eqn:Ec; simpl.
    + destruct (bool_decide (t' ∉ cs)) eqn:Eb.
      * intros [= ->]. apply bool_decide_eq_true in Eb.
        split; [done|]. exists ch. split; [by left | done].
      * intros H. destruct (IH H) as (? & c & ? & ?). split; [done|].
        exists c. split; [by right | done].
    + intros H. destruct (IH H) as (? & c & ? & ?). split; [done|].
      exists c. split; [by right | done].
  - intros H. destruct (IH H) as (? & c & ? & ?). split; [done|].
    exists c. split; [by right | done].
Qed.

Lemma first_citable_no_match cs sent chunks :
  ~ matches_some sent chunks -> first_citable cs sent chunks = None.
Proof.
  induction chunks as [|ch chunks IH]; intros Hno; simpl; [done|].
  assert (~ matches_some sent chunks) as Hno'.
  { intros (c & t & Hin & Ht & Hc). apply Hno. exists c, t. split; [by right | done]. }
  destruct (cited_title ch) as [t'|] eqn:Et; [|by apply IH].
  destruct (_sentence_cites_paper sent (text ch)) eqn:Ec; simpl; [|by apply IH].
  exfalso. apply Hno. exists ch, t'. split; [by left | done].
Qed.

Lemma cite_ok style st t :
  is_Some (citation_of t (cmap st)) ->
  exists marker st1, cite style st t = Ok (marker, st1)
    /\ cited_papers st1 = cited_papers st ∪ {[t]}
    /\ forall t', is_Some (citation_of t' (cmap st1)) <-> is_Some (citation_of t' (cmap st)).
Proof.
  intros [c Hc]. unfold cite. rewrite Hc.
  destruct (bool_decide _).
  - eexists _, _. split; [reflexivity|]. split; done.
  - destruct (format_numeric (counter st) c) as [[marker c'] n'].
    eexists _, _. split; [reflexivity|]. split; [done|].
    intros t'. simpl. apply citation_of_set.
Qed.

(** *** The sentence loop *)

Lemma cited_titles_cons a atts :
  cited_titles (a :: atts) =
    match cited a with
    | Some (t, _) => t :: cited_titles atts
    | None => cited_titles atts
    end.
Proof. unfold cited_titles. simpl. by destruct (cited a) as [[t m]|]. Qed.

Lemma sentence_loop_spec style chunks sentences : forall st,
  map_complete chunks (cmap st) ->
  exists atts st',
    sentence_loop style chunks st sentences = Ok (atts, st')
    /\ map sentence atts = sentences
    /\ (forall pre a post, atts = pre ++ a :: post ->
          fst <$> cited a =
          first_citable (cited_papers st ∪ list_to_set (cited_titles pre))
                        (sentence a) chunks).
Proof.
  induction sentences as [|sent rest IH]; intros st Hcomplete.
  - exists [], st. split; [done|]. split; [done|].
    intros pre a post H. by destruct pre.
  - cbn [sentence_loop].
    destruct (first_citable (cited_papers st) sent chunks) as [t|] eqn:Ef.
    + apply first_citable_Some in Ef as Hf.
      destruct Hf as (Hfresh & chunk & Hin & Ht & Hc).
      destruct (cite_ok style st t (Hcomplete chunk t Hin Ht))
        as (marker & st1 & -> & Hcited & Hdom).
      destruct (IH st1) as (atts & st' & -> & Hs & Hrule).
      { intros ch t' Hch Ht'. apply Hdom. by eapply Hcomplete. }
      eexists _, _. split; [reflexivity|].
      split; [simpl; by rewrite Hs|].
      intros pre a post Heq. destruct pre as [|a0 pre].
      * injection Heq as <- _. simpl.
        change (list_to_set (cited_titles [])) with (∅ : gset str).
        rewrite (right_id_L ∅ (∪)). by rewrite Ef.
      * injection Heq as <- Heq. rewrite cited_titles_cons. simpl.
        rewrite (Hrule _ _ _ Heq), Hcited.
        by rewrite (assoc_L (∪)).
    + destruct (IH st Hcomplete) as (atts & st' & -> & Hs & Hrule).
      eexists _, _. split; [reflexivity|].
      split; [simpl; by rewrite Hs|].
      intros pre a post Heq. destruct pre as [|a0 pre].
      * injection Heq as <- _. simpl.
        change (list_to_set (cited_titles [])) with (∅ : gset str).
        rewrite (right_id_L ∅ (∪)). by rewrite Ef.
      * injection Heq as <- Heq. rewrite cited_titles_cons. simpl.
        by rewrite (Hrule _ _ _ Heq).
Qed.

Lemma cited_titles_app pre post :
  cited_titles (pre ++ post) = cited_titles pre ++ cited_titles post.
Proof. unfold cited_titles. apply omap_app. Qed.

(** The rule of the loop gives the three properties of the claim. *)
Lemma first_citable_rule_NoDup chunks atts :
  (forall pre a post, atts = pre ++ a :: post ->
     fst <$> cited a =
     first_citable (list_to_set (cited_titles pre)) (sentence a) chunks) ->
  NoDup (cited_titles atts).
Proof.
  induction atts as [|a atts IH] using rev_ind; intros Hrule; [constructor|].
  rewrite cited_titles_app. apply NoDup_app. split; [|split].
  - apply IH. intros pre b post Heq.
    apply (Hrule pre b (post ++ [a])). rewrite Heq. by rewrite <- app_assoc.
  - intros t Hin Hlast. specialize (Hrule atts a [] eq_refl).
    rewrite cited_titles_cons in Hlast.
    destruct (cited a) as [[t' m]|]; [|by apply elem_of_nil in Hlast].
    apply list_elem_of_singleton in Hlast as ->.
    simpl in Hrule. symmetry in Hrule.
    apply first_citable_Some in Hrule as [Hfresh _].
    apply Hfresh. by apply elem_of_list_to_set.
  - rewrite cited_titles_cons. destruct (cited a) as [[t' m]|]; [|constructor].
    apply NoDup_singleton.
Qed.

(** *** The markers *)

Lemma citation_of_set_citation t' t c m :
  citation_of t' (set_citation t c m)
  = if bool_decide (t' = t)
    then match citation_of t m with Some _ => Some c | None => None end
    else citation_of t' m.
Proof.
  induction m as [|[k c0] m IH]; simpl; [by destruct (bool_decide _)|].
  destruct (decide (k = t)) as [->|Hk].
  - rewrite !bool_decide_eq_true_2 by done. simpl.
    destruct (decide (t' = t)) as [->|Hne].
    + by rewrite !bool_decide_eq_true_2.
    + rewrite !bool_decide_eq_false_2 by congruence. done.
  - rewrite (bool_decide_eq_false_2 (k = t)) by done. simpl. rewrite IH.
    destruct (decide (t' = t)) as [->|Hne].
    + rewrite (bool_decide_eq_false_2 (k = t)) by done.
      by rewrite bool_decide_eq_true_2.
    + by rewrite (bool_decide_eq_false_2 (t' = t)).
Qed.

Lemma cite_marker style st t marker st1 :
  cite style st t = Ok (marker, st1) ->
  marker_of style (cmap st1) t marker
  /\ cited_papers st1 = cited_papers st ∪ {[t]}
  /\ (forall t', t' <> t -> citation_of t' (cmap st1) = citation_of t' (cmap st)).
Proof.
  unfold cite, marker_of. destruct (citation_of t (cmap st)) as [c|] eqn:Ec; [|done].
  destruct (bool_decide (lower style = lit "author_date")).
  - intros [= <- <-]. simpl. split; [by exists c|]. by split.
  - destruct (format_numeric (counter st) c) as [[m c'] n'] eqn:Ef.
    intros [= <- <-]. simpl. split; [|split; [done|]].
    + exists c'. rewrite citation_of_set_citation, bool_decide_eq_true_2, Ec by done.
      split; [done|]. unfold format_numeric in Ef.
      destruct (number_truthy c); by injection Ef as <- <- _.
    + intros t' Hne. rewrite citation_of_set_citation.
      by rewrite bool_decide_eq_false_2.
Qed.

Lemma sentence_loop_markers style chunks sentences : forall st atts st',
  sentence_loop style chunks st sentences = Ok (atts, st') ->
  (forall t, t ∈ cited_papers st ->
             citation_of t (cmap st') = citation_of t (cmap st))
  /\ Forall (fun a => match cited a with
                      | Some (t, marker) =>
                          render a = sentence a ++ lit " " ++ marker
                          /\ marker_of style (cmap st') t marker
                      | None => render a = sentence a
                      end) atts.
Proof.
  induction sentences as [|sent rest IH]; intros st atts st'.
  - simpl. intros [= <- <-]. split; [done | constructor].
  - cbn [sentence_loop].
    destruct (first_citable (cited_papers st) sent chunks) as [t|] eqn:Ef.
    + apply first_citable_Some in Ef as [Hfresh _].
      destruct (cite style st t) as [[marker st1]|] eqn:Ec; [|done].
      apply cite_marker in Ec as ((c & Hc & Hm) & Hcited & Hother).
      specialize (IH st1).
      destruct (sentence_loop style chunks st1 rest) as [[atts0 st0]|]; [|done].
      intros [= <- <-]. destruct (IH atts0 st0 eq_refl) as [Hstable Hatts].
      split.
      * intros t' Ht'. rewrite Hstable by (rewrite Hcited; set_unfold; by left).
        apply Hother. by intros ->.
      * constructor; [|done]. simpl. split; [done|].
        exists c. split; [|done].
        rewrite Hstable; [done|]. rewrite Hcited. set_unfold. by right.
    + specialize (IH st).
      destruct (sentence_loop style chunks st rest) as [[atts0 st0]|]; [|done].
      intros [= <- <-]. destruct (IH atts0 st0 eq_refl) as [Hstable Hatts].
      split; [done|]. by constructor.
Qed.

(** C8, amended: [add_citations_to_text] always returns.  For each
    sentence the paper cited is the one of the first chunk, in list order,
    that matches the sentence (overlap ratio above 0.3) and whose paper no
    earlier sentence cited; the sentence is then followed by a blank and
    the marker of that paper, which is the author-date text or the
    bracketed number of its citation in the returned map.  Hence no paper
    title is cited under more than one sentence, a paper is cited only
    under a sentence that one of its chunks matches, and a sentence that no
    chunk matches is returned without a marker. *)
Theorem single_citation_per_paper (count : Z) (txt : str)
  (chunks : list SourceChunk) (style : str) :
  exists atts st,
    attributions count txt chunks style = Ok (atts, st)
    /\ map sentence atts = Re.split sentence_sep txt
    /\ (forall pre a post, atts = pre ++ a :: post ->
          fst <$> cited a =
          first_citable (list_to_set (cited_titles pre)) (sentence a) chunks)
    /\ NoDup (cited_titles atts)
    /\ Forall (fun a =>
                 match cited a with
                 | Some (t, _) =>
                     exists chunk, chunk ∈ chunks /\ cited_title chunk = Some t
                       /\ _sentence_cites_paper (sentence a) (text chunk) = true
                 | None => True
                 end) atts
    /\ Forall (fun a => ~ matches_some (sentence a) chunks ->
                        cited a = None /\ render a = sentence a) atts
    /\ Forall (fun a => match cited a with
                        | Some (t, marker) =>
                            render a = sentence a ++ lit " " ++ marker
                            /\ marker_of style (cmap st) t marker
                        | None => render a = sentence a
                        end) atts
    /\ add_citations_to_text count txt chunks style =
         match chunks with
         | [] => Ok (txt, [], count)
         | _ => Ok (str_join (lit " ") (map render atts), cmap st, counter st)
         end.
Proof.
  unfold attributions.
  destruct (sentence_loop_spec style chunks (Re.split sentence_sep txt)
              (initial_state count chunks style))
    as (atts & st & Hloop & Hs & Hrule).
  { apply initial_state_complete. }
  assert (forall pre a post, atts = pre ++ a :: post ->
            fst <$> cited a =
            first_citable (list_to_set (cited_titles pre)) (sentence a) chunks)
    as Hrule'.
  { intros pre a post Heq. rewrite (Hrule pre a post Heq).
    rewrite (proj2 (initial_state_complete count chunks style)).
    by rewrite (left_id_L ∅ (∪)). }
  exists atts, st. split; [done|]. split; [done|]. split; [done|].
  split; [by eapply first_citable_rule_NoDup|].
  split; [|split; [|split; [by eapply sentence_loop_markers|]]].
  - apply Forall_forall. intros a Ha.
    apply list_elem_of_split in Ha as (pre & post & Heq).
    specialize (Hrule' pre a post Heq).
    destruct (cited a) as [[t m]|]; [|done]. simpl in Hrule'. symmetry in Hrule'.
    by apply first_citable_Some in Hrule' as [_ ?].
  - apply Forall_forall. intros a Ha Hnone.
    apply list_elem_of_split in Ha as (pre & post & Heq).
    specialize (Hrule' pre a post Heq).
    rewrite (first_citable_no_match _ _ _ Hnone) in Hrule'.
    unfold render. destruct (cited a); [done | done].
  - unfold add_citations_to_text, attributions. rewrite Hloop.
    by destruct chunks.
Qed.

End CitationFacts.

(** ** The citation counter *)

Section CounterFacts.
Import CitationFormatter.

(** C4 (defect in the code): the counter is reset only under
    [style.lower() == "numeric"]; for [apa] the markers still come from
    [format_numeric], so a second call with the same arguments on the same
    instance numbers the paper 2 instead of 1. *)
Theorem counter_not_reset_for_apa :
  two_calls (lit "Transformers use attention.") attention_chunks (lit "apa")
  = Some (lit "Transformers use attention. [1]",
          lit "Transformers use attention. [2]")
  /\ two_calls (lit "Transformers use attention.") attention_chunks (lit "numeric")
     = Some (lit "Transformers use attention. [1]",
             lit "Transformers use attention. [1]").
Proof. split; vm_compute; reflexivity. Qed.

(** Under the numeric style the counter a call starts from does not
    matter. *)
Lemma numeric_counter_reset (c1 c2 : Z) (txt : str) (chunks : list SourceChunk)
  (style : str) :
  lower style = lit "numeric" ->
  attributions c1 txt chunks style = attributions c2 txt chunks style.
Proof.
  intros H. unfold attributions, initial_state.
  by rewrite (bool_decide_eq_true_2 _ H).
Qed.

Lemma number_all_spec m : forall n,
  map fst (number_all n m).1 = map fst m
  /\ map (fun kc => citation_number kc.2) (number_all n m).1
     = map (fun i => Some (n + 1 + Z.of_nat i)%Z) (seq 0 (length m))
  /\ (number_all n m).2 = (n + Z.of_nat (length m))%Z.
Proof.
  induction m as [|[k c] m IH]; intros n.
  - simpl. repeat split. lia.
  - cbn [number_all]. destruct (IH (n + 1)%Z) as (Hk & Hn & Hc).
    destruct (number_all (n + 1) m) as [m' final]. simpl in *.
    split; [by rewrite Hk|]. split.
    + f_equal; [f_equal; lia|]. rewrite Hn, <- seq_shift, map_map.
      apply map_ext. intros i. f_equal. lia.
    + lia.
Qed.

Lemma citation_of_None t m : citation_of t m = None <-> t ∉ map fst m.
Proof.
  induction m as [|[k c] m IH]; simpl.
  - split; [intros _ H; by apply elem_of_nil in H | done].
  - destruct (bool_decide (k = t)) eqn:E.
    + apply bool_decide_eq_true in E as ->. split; [done|].
      intros H. exfalso. apply H. by left.
    + apply bool_decide_eq_false in E. rewrite IH. split.
      * intros H [Hx | Hx]%elem_of_cons; [congruence | done].
      * intros H Hx. apply H. by right.
Qed.

Lemma create_citation_map_keys chunks :
  map fst (create_citation_map chunks) = first_seen (omap cited_title chunks).
Proof.
  unfold create_citation_map.
  change (fun m chunk => _) with map_step. unfold first_seen.
  assert (forall m acc, map fst m = acc ->
            map fst (fold_left map_step chunks m) =
            fold_left (fun acc t => if bool_decide (t ∈ acc) then acc else acc ++ [t])
                      (omap cited_title chunks) acc) as G; [|by apply G].
  induction chunks as [|ch chunks IH]; intros m acc Hm; [done|].
  simpl. unfold map_step at 2. destruct (cited_title ch) as [t|] eqn:Et; [|by apply IH].
  simpl. apply IH. subst acc.
  destruct (citation_of t m) eqn:El.
  - rewrite bool_decide_eq_true_2; [done|].
    destruct (decide (t ∈ map fst m)) as [|Hn]; [done|].
    apply citation_of_None in Hn. congruence.
  - apply citation_of_None in El. rewrite bool_decide_eq_false_2 by done.
    by rewrite map_app.
Qed.

(** Under the numeric style the citations are numbered from 1 in the order
    in which their titles first occur in the chunk list. *)
Lemma numeric_first_seen (count : Z) (chunks : list SourceChunk) (style : str) :
  lower style = lit "numeric" ->
  let m := cmap (initial_state count chunks style) in
  map fst m = first_seen (omap cited_title chunks)
  /\ map (fun kc => citation_number kc.2) m
     = map (fun i => Some (1 + Z.of_nat i)%Z) (seq 0 (length m)).
Proof.
  intros H. unfold initial_state. rewrite (bool_decide_eq_true_2 _ H).
  destruct (number_all_spec (create_citation_map chunks) 0) as (Hk & Hn & _).
  destruct (number_all 0 (create_citation_map chunks)) as [m' c'] eqn:E.
  simpl in *. split; [by rewrite Hk, create_citation_map_keys|].
  rewrite Hn. replace (length (create_citation_map chunks)) with (length m').
  - done.
  - by rewrite <- (length_map fst m'), Hk, length_map.
Qed.

(** C8, as stated, fails in its rule: both sentences of the text match
    the chunks of both papers, so the first sentence whose overlap with a
    chunk of Paper Y exceeds 0.3 is the first one; but a sentence takes one
    marker only, that of the first chunk in the list, and Paper Y is cited
    under the second sentence.  With the first sentence alone Paper Y is
    not cited at all. *)
Lemma first_sentence_does_not_win :
  let txt := lit "Transformers use attention. Attention helps transformers." in
  map (fun s => map (fun chunk => _sentence_cites_paper s (text chunk))
                    two_paper_chunks)
      (Re.split sentence_sep txt)
  = [[true; true]; [true; true]]
  /\ decisions (attributions 0 txt two_paper_chunks (lit "numeric"))
     = Some [(lit "Transformers use attention.", Some (lit "Paper X", lit "[1]"));
             (lit "Attention helps transformers.", Some (lit "Paper Y", lit "[2]"))]
  /\ decisions (attributions 0 (lit "Transformers use attention.")
                             two_paper_chunks (lit "numeric"))
     = Some [(lit "Transformers use attention.", Some (lit "Paper X", lit "[1]"))].
Proof.
  split; [|split]; vm_compute; reflexivity.
Qed.

End CounterFacts.

(** ** Text processing: cleaning, citations, paragraphs and key phrases *)

Section TextProcessorFacts.
Import Re TextProcessor.

(** X1: [clean_text] is idempotent, and its result is in normal form: every
    whitespace character is a single blank between two other characters,
    and no character of the blanked-out class is left. *)
Theorem clean_text_idempotent (s : str) :
  clean_text (clean_text s) = clean_text s
  /\ spaced (clean_text s)
  /\ strip (clean_text s) = clean_text s
  /\ Forall (fun c => special_char c = false) (clean_text s).
Proof.
  pose proof (clean_text_normal s) as Hn.
  split; [by apply clean_text_id|].
  destruct Hn as (Hsp & Hl & Hr & Hns).
  split; [done|]. split; [by apply strip_id | done].
Qed.

(** *** A pattern that needs a character the text does not have *)

Lemma Forall_suffix {A} (P : A -> Prop) (l1 l2 : list A) :
  l1 `suffix_of` l2 -> Forall P l2 -> Forall P l1.
Proof. intros [k ->] H. by apply Forall_app in H as [_ ?]. Qed.

Lemma run_seq r1 r2 prev s k res :
  run (Seq r1 r2) prev s k = Some res ->
  exists prev' s', s' `suffix_of` s /\ run r2 prev' s' k = Some res.
Proof. simpl. apply run_suffix. Qed.

Lemma match_bracket_none prev s :
  no_opening s -> match_at cite_bracket prev s = None.
Proof.
  intros H. unfold match_at, cite_bracket. cbn [run].
  destruct s as [|c s']; [done|]. inversion H as [|? ? [_ Hc] _]; subst.
  apply Ascii.eqb_neq in Hc. by rewrite Ascii.eqb_sym, Hc.
Qed.

Lemma match_paren_none prev s :
  no_opening s -> match_at cite_paren prev s = None.
Proof.
  intros H. unfold match_at, cite_paren. cbn [run].
  destruct s as [|c s']; [done|]. inversion H as [|? ? [Hc _] _]; subst.
  apply Ascii.eqb_neq in Hc. by rewrite Ascii.eqb_sym, Hc.
Qed.

Lemma match_etal_none prev s :
  no_opening s -> match_at cite_etal prev s = None.
Proof.
  intros H. destruct (match_at cite_etal prev s) as [res|] eqn:E; [|done].
  exfalso. unfold match_at, cite_etal in E.
  do 7 (apply run_seq in E as (? & ? & ?%(fun Hs => Forall_suffix _ _ _ Hs H) & E);
        clear H; rename H0 into H).
  cbn [run] in E. destruct x12 as [|c s']; [done|].
  inversion H as [|? ? [Hc _] _]; subst.
  apply Ascii.eqb_neq in Hc. by rewrite Ascii.eqb_sym, Hc in E.
Qed.

Lemma sub_go_no_match r repl : forall fuel prev s,
  (forall prev' s', s' `suffix_of` s -> match_at r prev' s' = None) ->
  sub_go fuel r repl prev s = s.
Proof.
  induction fuel as [|fuel IH]; intros prev s Hnone; [done|].
  simpl. rewrite Hnone by done. destruct s as [|c s']; [done|].
  f_equal. apply IH. intros p s'' Hs. apply Hnone. by apply suffix_cons_r.
Qed.

Lemma sub_no_opening r s :
  (forall prev s', no_opening s' -> match_at r prev s' = None) ->
  no_opening s -> sub r [] s = s.
Proof.
  intros Hr Hs. apply sub_go_no_match. intros p s' Hsuf.
  apply Hr. by eapply Forall_suffix.
Qed.

(** [remove_citations] returns a text in which every whitespace
    character is a single blank between two other characters, and it
    brings in no character but the blank. *)
Lemma remove_citations_shape (s : str) :
  spaced (remove_citations s)
  /\ strip (remove_citations s) = remove_citations s
  /\ (forall P : ascii -> Prop, P " "%char -> Forall P s ->
        Forall P (remove_citations s)).
Proof.
  split; [|split].
  - unfold remove_citations. destruct (truthy s); simpl; [|done].
    apply strip_spaced, sub_ws_spaced.
  - unfold remove_citations. destruct (truthy s); simpl; [|done].
    unfold strip at 1. by rewrite lstrip_strip, rstrip_strip.
  - intros P Hb Hs. unfold remove_citations. destruct (truthy s); simpl; [|constructor].
    apply strip_Forall, sub_Forall; [by repeat constructor|].
    repeat (apply sub_Forall; [constructor|]). done.
Qed.

(** X2: [remove_citations] leaves a text alone that has single blanks
    only, no leading or trailing whitespace and no opening parenthesis or
    bracket: none of the three citation patterns can match it. *)
Theorem remove_citations_plain (s : str) :
  spaced s -> strip s = s -> no_opening s -> remove_citations s = s.
Proof.
  intros Hsp Hst Hno. unfold remove_citations.
  destruct s as [|c s'] eqn:Es; [done|]. rewrite <- Es in *.
  replace (truthy s) with true by (by rewrite Es). cbn [negb].
  rewrite (sub_no_opening cite_bracket s match_bracket_none Hno).
  rewrite (sub_no_opening cite_paren s match_paren_none Hno).
  rewrite (sub_no_opening cite_etal s match_etal_none Hno).
  by rewrite (sub_ws_id _ Hsp).
Qed.

Lemma remove_citations_plain_witness :
  remove_citations (lit "plain text") = lit "plain text".
Proof.
  apply (remove_citations_plain (lit "plain text")).
  - vm_compute. repeat split; congruence.
  - vm_compute. reflexivity.
  - unfold no_opening. vm_compute. repeat constructor; discriminate.
Defined.

(** X3: every paragraph that [extract_paragraphs] returns has more than 50
    characters and is left alone by [clean_text]; there are at most as many
    as the text has pieces between blank lines, and none for the empty
    text. *)
Theorem extract_paragraphs_spec (s : str) :
  Forall (fun p => 50 < length p /\ clean_text p = p) (extract_paragraphs s)
  /\ length (extract_paragraphs s) <= length (Re.split para_sep s)
  /\ extract_paragraphs [] = [].
Proof.
  split; [|split; [|done]].
  - unfold extract_paragraphs. destruct (truthy s); simpl; [|constructor].
    apply Forall_forall. intros p Hp.
    apply list_elem_of_In, in_flat_map in Hp as (piece & _ & Hp).
    unfold keep_paragraph in Hp.
    destruct (truthy (clean_text piece) && (50 <? length (clean_text piece))) eqn:E;
      [|done].
    destruct Hp as [<- | []]. apply andb_true_iff in E as [_ E].
    apply Nat.ltb_lt in E. split; [done|].
    apply clean_text_id, clean_text_normal.
  - unfold extract_paragraphs. destruct (truthy s); simpl; [|lia].
    induction (Re.split para_sep s) as [|piece l IH]; simpl; [lia|].
    rewrite length_app. unfold keep_paragraph at 1.
    destruct (_ && _); simpl; lia.
Qed.

(** X4: the preprocessed text of a paper has no line break, tab or other
    whitespace character than single blanks between two other characters,
    and cleaning it again changes nothing. *)
Theorem preprocess_paper_content_shape (title abstract content : str) :
  let t := preprocess_paper_content title abstract content in
  Forall (fun c => isspace c = true -> c = " "%char) t
  /\ spaced t
  /\ strip t = t
  /\ clean_text t = t.
Proof.
  intros t. pose proof (preprocess_normal title abstract content) as Hn.
  fold t in Hn. split; [|split; [|split]].
  - destruct Hn as (Hsp & _). clear -Hsp.
    induction t as [|c t IH]; [constructor|]. destruct Hsp as [Hc Hsp].
    constructor; [|by apply IH]. intros H. by destruct (Hc H).
  - apply Hn.
  - destruct Hn as (_ & Hl & Hr & _). by apply strip_id.
  - by apply clean_text_id.
Qed.

(** X5: [extract_key_phrases] returns nothing when the spaCy model is not
    loaded or the text is empty; with [max_phrases >= 0] it returns at most
    [max_phrases] phrases; and, the set order listing only elements of its
    argument, each phrase is a noun chunk of at most four words or a named
    entity with one of the five labels. *)
Theorem extract_key_phrases_spec (ext : External) (txt : str) (max_phrases : Z) :
  (forall l x, x ∈ list_of_set ext l -> x ∈ l) ->
  (0 <= max_phrases)%Z ->
  (Z.of_nat (length (extract_key_phrases ext txt max_phrases)) <= max_phrases)%Z
  /\ (nlp ext = None -> extract_key_phrases ext txt max_phrases = [])
  /\ extract_key_phrases ext [] max_phrases = []
  /\ (forall doc p, nlp ext = Some doc ->
        p ∈ extract_key_phrases ext txt max_phrases ->
        (p ∈ noun_chunks doc txt /\ length (split_ws p) <= 4)
        \/ (exists label, (p, label) ∈ ents doc txt /\ label ∈ entity_labels)).
Proof.
  intros Hset Hmax. unfold extract_key_phrases. split; [|split; [|split]].
  - destruct (nlp ext); [|simpl; lia]. destruct (truthy txt); simpl; [|lia].
    unfold slice_to, slice, clamp. simpl.
    destruct (Z.ltb_spec max_phrases 0); [lia|].
    rewrite length_take. lia.
  - by intros ->.
  - by destruct (nlp ext).
  - intros doc p -> Hp. destruct (truthy txt); simpl in Hp; [|by apply elem_of_nil in Hp].
    unfold slice_to, slice in Hp.
    apply subseteq_take, subseteq_drop, Hset, elem_of_app in Hp as [Hp | Hp].
    + left. by apply list_elem_of_filter in Hp as [? ?].
    + right. apply list_elem_of_fmap in Hp as ([p' label] & -> & Hp).
      apply list_elem_of_filter in Hp as [Hl Hp]. exists label. done.
Qed.

Lemma extract_key_phrases_spec_witness :
  (Z.of_nat (length (extract_key_phrases sample_nlp (lit "graph networks at Google") 5)) <= 5)%Z
  /\ (nlp sample_nlp = None ->
      extract_key_phrases sample_nlp (lit "graph networks at Google") 5 = [])
  /\ extract_key_phrases sample_nlp [] 5 = []
  /\ (forall doc p, nlp sample_nlp = Some doc ->
        p ∈ extract_key_phrases sample_nlp (lit "graph networks at Google") 5 ->
        (p ∈ noun_chunks doc (lit "graph networks at Google") /\ length (split_ws p) <= 4)
        \/ (exists label, (p, label) ∈ ents doc (lit "graph networks at Google")
                          /\ label ∈ entity_labels)).
Proof.
  apply (extract_key_phrases_spec sample_nlp (lit "graph networks at Google") 5).
  - intros l x. apply elem_of_remove_dups.
  - lia.
Defined.

End TextProcessorFacts.

(** ** Chunking: windows, ranges, ids and statistics *)

Section ChunkerFacts.
Import Re TextProcessor SemanticChunker.

(** *** Windows *)

Lemma slice_length_bound {A} (l : list A) (i size : Z) :
  (0 <= i)%Z -> (0 <= size)%Z -> (len (slice l i (i + size)) <= size)%Z.
Proof.
  intros Hi Hs. unfold len, slice, clamp.
  destruct (Z.ltb_spec i 0); [lia|]. destruct (Z.ltb_spec (i + size) 0); [lia|].
  rewrite length_take, length_drop. lia.
Qed.

Lemma slice_end_bound {A} (l : list A) (i b : Z) :
  (0 <= i)%Z -> slice l i b <> [] -> (i + len (slice l i b) <= len l)%Z.
Proof.
  intros Hi Hne. unfold len in *. unfold slice, clamp in *.
  destruct (Z.ltb_spec i 0); [lia|].
  destruct (Z.le_gt_cases (Z.of_nat (length l)) i) as [Hge | Hlt].
  - exfalso. apply Hne. rewrite drop_ge by lia. by destruct (Z.to_nat _).
  - rewrite length_take, length_drop. lia.
Qed.

(** X6: every chunk of the fallback chunker holds a non-blank window of
    the text and records where it is: its text is [text[start:end]],
    [0 <= start < end <= len(text)], and it has at most [chunk_size]
    characters. *)
Theorem simple_chunk_windows (self : SemanticChunker.t) (txt : str)
  (paper : Paper) (chunks : list Chunk) :
  _simple_chunk self txt paper = Ok chunks ->
  Forall (window_ok self txt) chunks.
Proof.
  intros H. apply Forall_forall. intros c Hc.
  destruct (fallback_offsets self txt paper chunks c H Hc) as (Ht & H0 & Hlt).
  unfold _simple_chunk in H.
  destruct (range0 _ _) as [starts|] eqn:Er; [|done]. injection H as <-.
  apply list_elem_of_In, in_flat_map in Hc as (i & Hi & Hc).
  apply list_elem_of_In in Hi, Hc.
  apply (range0_elem _ _ _ _ Er) in Hi.
  apply window_elem in Hc as [Hnb ->]. unfold window_ok. cbn in *.
  split; [done|]. split; [lia|]. split; [|split; [done|]].
  - apply slice_end_bound; [done|]. by apply truthy_strip_nonempty.
  - intros Hs. by apply slice_length_bound.
Qed.

Lemma simple_chunk_windows_witness :
  Forall (window_ok ten_two_chunker (full_text_of tiny_paper))
         (results_of (_simple_chunk ten_two_chunker (full_text_of tiny_paper) tiny_paper)).
Proof.
  apply (simple_chunk_windows ten_two_chunker (full_text_of tiny_paper) tiny_paper).
  vm_compute. reflexivity.
Defined.

(** *** The paragraph loop *)

Lemma create_chunk_ok paper txt start :
  (0 <= start)%Z -> truthy (strip txt) = true ->
  chunk_ok paper (_create_chunk txt paper start (start + len txt)).
Proof. intros H0 Ht. unfold chunk_ok. cbn. repeat split; [lia | done | done]. Qed.

Lemma flush_ok paper chunks cur start :
  Forall (chunk_ok paper) chunks -> (0 <= start)%Z ->
  Forall (chunk_ok paper) (flush paper (chunks, cur, start)).
Proof.
  intros Hc H0. unfold flush. destruct (truthy (strip cur)) eqn:E; [|done].
  apply Forall_app. split; [done|]. constructor; [|constructor].
  by apply create_chunk_ok.
Qed.

Lemma para_step_ok self paper st paragraph :
  Forall (chunk_ok paper) st.1.1 -> (0 <= st.2)%Z ->
  Forall (chunk_ok paper) (para_step self paper st paragraph).1.1
  /\ (0 <= (para_step self paper st paragraph).2)%Z.
Proof.
  destruct st as [[chunks cur] start]. simpl. intros Hc H0.
  unfold para_step. destruct (_ <=? _)%Z; [done|].
  pose proof (flush_ok paper chunks cur start Hc H0) as Hf.
  destruct (_ && _); simpl; (split; [done|]).
  - unfold len. rewrite !length_app. lia.
  - unfold len. lia.
Qed.

Lemma para_loop_ok self paper paragraphs : forall st,
  Forall (chunk_ok paper) st.1.1 -> (0 <= st.2)%Z ->
  Forall (chunk_ok paper) (flush paper (fold_left (para_step self paper) paragraphs st)).
Proof.
  induction paragraphs as [|p ps IH]; intros st Hc H0.
  - destruct st as [[chunks cur] start]. by apply flush_ok.
  - simpl. destruct (para_step_ok self paper st p Hc H0). by apply IH.
Qed.

(** X7: every chunk that [chunk_paper] returns, in paragraph mode or from
    the fallback, has a non-blank text, [start_char >= 0] and
    [end_char - start_char = len(text)], and carries the title of the
    paper. *)
Theorem chunk_paper_ranges (self : SemanticChunker.t) (paper : Paper)
  (chunks : list Chunk) :
  chunk_paper self paper = Ok chunks -> Forall (chunk_ok paper) chunks.
Proof.
  unfold chunk_paper.
  destruct (extract_paragraphs (full_text_of paper)) as [|p ps] eqn:Ep.
  - intros H. apply Forall_forall. intros c Hc.
    unfold _simple_chunk in H.
    destruct (range0 _ _) as [starts|] eqn:Er; [|done]. injection H as <-.
    apply list_elem_of_In, in_flat_map in Hc as (i & Hi & Hc).
    apply list_elem_of_In in Hi, Hc.
    apply (range0_elem _ _ _ _ Er) in Hi.
    apply window_elem in Hc as [Hnb ->]. by apply create_chunk_ok.
  - intros H.
    replace chunks with
      (flush paper (fold_left (para_step self paper) (p :: ps) ([], [], 0%Z)))
      by congruence.
    apply para_loop_ok; [constructor | done].
Qed.

Lemma chunk_paper_ranges_witness :
  Forall (chunk_ok survey_paper) (results_of (chunk_paper small_chunker survey_paper)).
Proof.
  apply (chunk_paper_ranges small_chunker survey_paper).
  vm_compute. reflexivity.
Defined.

(** *** Decimal numerals *)

Lemma uint_digits d :
  Forall (fun c => isdigit c = true) (lit (NilEmpty.string_of_uint d)).
Proof. induction d; simpl; constructor; done. Qed.

Lemma str_of_int_digits z :
  (0 <= z)%Z -> Forall (fun c => isdigit c = true) (str_of_int z).
Proof.
  intros Hz. unfold str_of_int, Z.to_int.
  destruct z as [|p|p]; [by repeat constructor | | lia].
  simpl. unfold NilZero.string_of_uint.
  destruct (Pos.to_uint p) eqn:E; [by repeat constructor | ..];
    rewrite <- E; apply uint_digits.
Qed.

Lemma lit_inj a b : lit a = lit b -> a = b.
Proof.
  intros H. rewrite <- (string_of_list_ascii_of_string a),
    <- (string_of_list_ascii_of_string b). unfold lit in H. by rewrite H.
Qed.

Lemma to_int_not_nil z : Z.to_int z <> Decimal.Pos Decimal.Nil /\ Z.to_int z <> Decimal.Neg Decimal.Nil.
Proof.
  pose proof (DecimalZ.to_of (Z.to_int z)) as H. rewrite DecimalZ.of_to in H.
  split; intros E; rewrite E in H; discriminate H.
Qed.

Lemma str_of_int_inj a b : str_of_int a = str_of_int b -> a = b.
Proof.
  unfold str_of_int. intros H%lit_inj.
  destruct (to_int_not_nil a), (to_int_not_nil b).
  assert (Some (Z.to_int a) = Some (Z.to_int b)) as E.
  { rewrite <- (NilZero.isi (Z.to_int a)), <- (NilZero.isi (Z.to_int b)) by done.
    by rewrite H. }
  injection E as E. rewrite <- (DecimalZ.of_to a), <- (DecimalZ.of_to b). by rewrite E.
Qed.

Lemma split_at_underscore (a a' b b' : str) :
  Forall (fun c => isdigit c = true) a -> Forall (fun c => isdigit c = true) a' ->
  a ++ lit "_" ++ b = a' ++ lit "_" ++ b' -> a = a'.
Proof.
  intros Ha. revert a'. induction Ha as [|x a Hx Ha IH]; intros a' Ha' H.
  - destruct Ha' as [|y a' Hy Ha']; [done|]. simpl in H. injection H as <- _.
    discriminate Hy.
  - destruct Ha' as [|y a' Hy Ha']; simpl in H.
    + injection H as -> _. discriminate Hx.
    + injection H as -> H. f_equal. by apply IH.
Qed.

Lemma chunk_id_start paper t1 t2 (s1 e1 s2 e2 : Z) :
  (0 <= s1)%Z -> (0 <= s2)%Z ->
  chunk_id (_create_chunk t1 paper s1 e1) = chunk_id (_create_chunk t2 paper s2 e2) ->
  s1 = s2.
Proof.
  intros H1 H2 H. cbn in H. apply app_inv_head in H. injection H as H.
  apply str_of_int_inj.
  eapply split_at_underscore; [by apply str_of_int_digits.. | exact H].
Qed.

Lemma NoDup_map_transfer {A B C} (f : A -> B) (g : A -> C) (l : list A) :
  (forall x y, x ∈ l -> y ∈ l -> g x = g y -> f x = f y) ->
  NoDup (map f l) -> NoDup (map g l).
Proof.
  induction l as [|x l IH]; intros Hfg Hf; [constructor|].
  simpl in *. apply NoDup_cons in Hf as [Hx Hf]. constructor.
  - intros Hin. apply Hx. apply list_elem_of_fmap in Hin as (y & Hy & Hin).
    apply list_elem_of_fmap. exists y. split; [|done].
    apply Hfg; [by left | by right | done].
  - apply IH; [|done]. intros a b Ha Hb. apply Hfg; by right.
Qed.

Lemma window_starts_NoDup self txt paper starts :
  NoDup starts -> NoDup (map start_char (flat_map (window self txt paper) starts)).
Proof.
  induction 1 as [|i starts Hi Hnd IH]; simpl; [constructor|].
  rewrite map_app. apply NoDup_app. split; [|split; [|done]].
  - unfold window. destruct (truthy _); simpl; [apply NoDup_singleton | constructor].
  - intros s Hs Hin. unfold window in Hs. destruct (truthy _); simpl in Hs;
      [|by apply elem_of_nil in Hs].
    apply list_elem_of_singleton in Hs as ->.
    apply list_elem_of_fmap in Hin as (c & Hc & Hin).
    apply list_elem_of_In, in_flat_map in Hin as (j & Hj & Hin).
    apply list_elem_of_In in Hj, Hin. apply window_elem in Hin as [_ ->].
    cbn in Hc. by subst.
Qed.

Lemma range0_NoDup stop step starts :
  range0 stop step = Ok starts -> NoDup starts.
Proof.
  unfold range0. destruct (step =? 0)%Z eqn:E0; [done|].
  destruct (Z.ltb_spec step 0); intros [= <-]; [constructor|].
  apply Z.eqb_neq in E0. apply NoDup_fmap_2; [|apply NoDup_seq].
  intros a b Hab. nia.
Qed.

(** X8: the chunks that [chunk_paper] returns for one paper have pairwise
    distinct [chunk_id]s. *)
Theorem chunk_ids_distinct_within_paper (self : SemanticChunker.t)
  (paper : Paper) (chunks : list Chunk) :
  chunk_paper self paper = Ok chunks -> NoDup (map chunk_id chunks).
Proof.
  destruct (Nat.le_gt_cases (length (full_text_of paper)) 50) as [Hshort | Hlong].
  - rewrite chunk_paper_short by done. unfold _simple_chunk.
    destruct (range0 _ _) as [starts|] eqn:Er; [|done]. intros [= <-].
    apply (NoDup_map_transfer start_char).
    + intros c1 c2 H1 H2 Hid.
      apply list_elem_of_In, in_flat_map in H1 as (i1 & Hi1 & H1).
      apply list_elem_of_In, in_flat_map in H2 as (i2 & Hi2 & H2).
      apply list_elem_of_In in Hi1, H1, Hi2, H2.
      apply (range0_elem _ _ _ _ Er) in Hi1, Hi2.
      apply window_elem in H1 as [_ ->]. apply window_elem in H2 as [_ ->].
      cbn. by eapply chunk_id_start.
    + apply window_starts_NoDup. by eapply range0_NoDup.
  - rewrite chunk_paper_long by done. intros [= <-]. apply NoDup_singleton.
Qed.

Lemma chunk_ids_distinct_within_paper_witness :
  NoDup (map chunk_id (results_of (chunk_paper ten_two_chunker tiny_paper))).
Proof.
  apply (chunk_ids_distinct_within_paper ten_two_chunker tiny_paper).
  vm_compute. reflexivity.
Defined.

(** X9: [chunk_multiple_papers] is the concatenation, in order, of the
    chunks of the papers that [chunk_paper] accepts: batches compose, a
    paper on which [chunk_paper] raises contributes nothing and changes
    nothing for the others. *)
Theorem chunk_multiple_papers_spec (self : SemanticChunker.t)
  (before after : list Paper) (paper : Paper) :
  chunk_multiple_papers self (before ++ after)
    = chunk_multiple_papers self before ++ chunk_multiple_papers self after
  /\ (forall c, c ∈ chunk_multiple_papers self before <->
        exists p chunks, p ∈ before /\ chunk_paper self p = Ok chunks /\ c ∈ chunks)
  /\ (forall e, chunk_paper self paper = Raise e ->
        chunk_multiple_papers self (before ++ paper :: after)
        = chunk_multiple_papers self (before ++ after)).
Proof.
  assert (forall l1 l2, chunk_multiple_papers self (l1 ++ l2)
            = chunk_multiple_papers self l1 ++ chunk_multiple_papers self l2) as Happ.
  { induction l1 as [|p l1 IH]; intros l2; [done|]. simpl.
    destruct (chunk_paper self p); [|done]. by rewrite IH, app_assoc. }
  split; [apply Happ|]. split.
  - intros c. induction before as [|p l IH]; simpl.
    + split; [by intros ?%elem_of_nil|]. by intros (? & ? & ?%elem_of_nil & _).
    + destruct (chunk_paper self p) as [cs|e] eqn:Ep.
      * rewrite elem_of_app, IH. split.
        -- intros [Hc | (q & chunks & Hq & Hok & Hc)].
           ++ exists p, cs. split; [by left | done].
           ++ exists q, chunks. split; [by right | done].
        -- intros (q & chunks & [-> | Hq]%elem_of_cons & Hok & Hc).
           ++ left. congruence.
           ++ right. eauto.
      * rewrite IH. split.
        -- intros (q & chunks & Hq & Hok & Hc). exists q, chunks. split; [by right | done].
        -- intros (q & chunks & [-> | Hq]%elem_of_cons & Hok & Hc); [congruence | eauto].
  - intros e He. rewrite !Happ. simpl. by rewrite He.
Qed.

(** *** [get_chunk_statistics] *)

Lemma Zsum_from l : forall a, fold_left Z.add l a = (a + Zsum l)%Z.
Proof.
  unfold Zsum. induction l as [|x l IH]; intros a; cbn [fold_left]; [lia|].
  rewrite (IH (a + x)%Z), (IH (0 + x)%Z). lia.
Qed.

Lemma Zsum_cons x l : Zsum (x :: l) = (x + Zsum l)%Z.
Proof. unfold Zsum at 1. cbn [fold_left]. rewrite Zsum_from. lia. Qed.

Lemma Zmin_list_spec l : forall x,
  (Zmin_list x l = x \/ Zmin_list x l ∈ l)
  /\ (Zmin_list x l <= x)%Z /\ Forall (fun y => (Zmin_list x l <= y)%Z) l.
Proof.
  unfold Zmin_list. induction l as [|y l IH]; intros x; simpl.
  - split; [by left|]. split; [lia | constructor].
  - destruct (IH (Z.min x y)) as (Hin & Hle & Hall). split; [|split].
    + destruct Hin as [Hin | Hin]; [|right; by right].
      rewrite Hin. destruct (Z.min_spec x y) as [[_ E] | [_ E]]; rewrite E;
        [by left | right; by left].
    + lia.
    + constructor; [lia | done].
Qed.

Lemma Zmax_list_spec l : forall x,
  (Zmax_list x l = x \/ Zmax_list x l ∈ l)
  /\ (x <= Zmax_list x l)%Z /\ Forall (fun y => (y <= Zmax_list x l)%Z) l.
Proof.
  unfold Zmax_list. induction l as [|y l IH]; intros x; simpl.
  - split; [by left|]. split; [lia | constructor].
  - destruct (IH (Z.max x y)) as (Hin & Hle & Hall). split; [|split].
    + destruct Hin as [Hin | Hin]; [|right; by right].
      rewrite Hin. destruct (Z.max_spec x y) as [[_ E] | [_ E]]; rewrite E;
        [right; by left | by left].
    + lia.
    + constructor; [lia | done].
Qed.

Lemma Zsum_bounds (lo hi : Z) l :
  Forall (fun y => (lo <= y <= hi)%Z) l ->
  (lo * len l <= Zsum l <= hi * len l)%Z.
Proof.
  unfold len. induction 1 as [|y l Hy Hl IH]; [unfold Zsum; simpl; lia|].
  rewrite Zsum_cons. simpl length. lia.
Qed.

(** X10: [get_chunk_statistics] returns the empty dictionary exactly for
    no chunks.  Otherwise the count is the number of chunks, the total is
    the sum of the text lengths, the minimum and the maximum are lengths of
    chunks that bound all the others, the total lies between the count
    times the minimum and the count times the maximum, and the average is
    the float quotient of the total by the count. *)
Theorem get_chunk_statistics_spec (chunks : list Chunk) :
  (get_chunk_statistics chunks = None <-> chunks = [])
  /\ (forall st, get_chunk_statistics chunks = Some st ->
        let lengths := map (fun c => len (SemanticChunker.text c)) chunks in
        total_chunks st = len chunks
        /\ total_characters st = Zsum lengths
        /\ min_chunk_length st ∈ lengths /\ max_chunk_length st ∈ lengths
        /\ Forall (fun n => (min_chunk_length st <= n <= max_chunk_length st)%Z) lengths
        /\ (total_chunks st * min_chunk_length st <= total_characters st
            <= total_chunks st * max_chunk_length st)%Z
        /\ average_chunk_length st
           = int_truediv (total_characters st) (total_chunks st)).
Proof.
  split.
  - unfold get_chunk_statistics. destruct chunks; simpl; split; done.
  - intros st Hst lengths.
    unfold get_chunk_statistics in Hst. fold lengths in Hst.
    assert (len lengths = len chunks) as Hlen
        by (unfold len, lengths; by rewrite length_map).
    destruct lengths as [|x xs] eqn:El; [done|]. injection Hst as <-.
    cbn [total_chunks total_characters min_chunk_length max_chunk_length
         average_chunk_length].
    destruct (Zmin_list_spec xs x) as (Hmin_in & Hmin_x & Hmin_all).
    destruct (Zmax_list_spec xs x) as (Hmax_in & Hmax_x & Hmax_all).
    assert (Forall (fun n => (Zmin_list x xs <= n <= Zmax_list x xs)%Z) (x :: xs)) as Hall.
    { constructor; [lia|]. apply Forall_forall. intros n Hn.
      rewrite Forall_forall in Hmin_all, Hmax_all.
      specialize (Hmin_all n Hn). specialize (Hmax_all n Hn). lia. }
    pose proof (Zsum_bounds _ _ _ Hall) as Hb.
    split; [done|]. split; [done|].
    split; [destruct Hmin_in as [-> | ?]; [by left | by right]|].
    split; [destruct Hmax_in as [-> | ?]; [by left | by right]|].
    split; [done|]. split; [|by rewrite Hlen].
    rewrite <- Hlen. lia.
Qed.

(** Three chunks of 10, 10 and 4 characters: the average is 8. *)
Example get_chunk_statistics_example :
  exists st,
    get_chunk_statistics (results_of (chunk_paper ten_two_chunker tiny_paper)) = Some st
    /\ total_chunks st = 3%Z /\ total_characters st = 24%Z
    /\ min_chunk_length st = 4%Z /\ max_chunk_length st = 10%Z
    /\ average_chunk_length st = 8%Q.
Proof.
  eexists. split; [vm_compute; reflexivity|]. repeat split.
Qed.

(** The average is a rounded quotient: 29 / 7 is the double
    4.142857142857143, and seven times that is not 29. *)
Example average_is_rounded :
  int_truediv 29 7 = (4664442471205157 # 1125899906842624)%Q
  /\ ~ (int_truediv 29 7 * 7 == 29)%Q.
Proof.
  split; [vm_compute; reflexivity|]. vm_compute. intros H. discriminate H.
Qed.

End ChunkerFacts.

(** ** Query processing *)

Section QueryProcessorFacts.
Import QueryProcessor.

(** X11: [preprocess_query] is [clean_text]: the second whitespace pass and
    the second [strip] change nothing, and preprocessing twice is the same
    as once. *)
Theorem preprocess_query_is_clean_text (query : str) :
  preprocess_query query = TextProcessor.clean_text query
  /\ preprocess_query (preprocess_query query) = preprocess_query query.
Proof.
  assert (forall q, preprocess_query q = TextProcessor.clean_text q) as H.
  { intros q. unfold preprocess_query. destruct q as [|c q'] eqn:Eq; [done|].
    rewrite <- Eq. replace (truthy q) with true by (by rewrite Eq). cbn [negb].
    destruct (clean_text_normal q) as (Hsp & Hl & Hr & _).
    rewrite (sub_ws_id _ Hsp). by apply strip_id. }
  split; [apply H|]. rewrite !H. apply clean_text_id, clean_text_normal.
Qed.

(** *** Prefixes and substrings *)

Lemma startswith_app (a b : str) : startswith (a ++ b) a = true.
Proof.
  induction a as [|x a IH]; simpl; [by destruct b|].
  by rewrite Ascii.eqb_refl, IH.
Qed.

Lemma contains_unfold (s a : str) :
  contains s a = startswith s a
                 || match s with [] => false | _ :: s' => contains s' a end.
Proof. by destruct s. Qed.

Lemma contains_app (x a y : str) : contains (x ++ a ++ y) a = true.
Proof.
  induction x as [|c x IH].
  - rewrite contains_unfold. simpl app. by rewrite startswith_app.
  - simpl. rewrite IH. apply orb_true_r.
Qed.

Lemma contains_prefixed (x a : str) : contains (x ++ a) a = true.
Proof. rewrite <- (app_nil_r a) at 1. apply contains_app. Qed.

Lemma contains_suffixed (a y : str) : contains (a ++ y) a = true.
Proof. apply (contains_app [] a y). Qed.

Lemma lower_char_idem c : lower_char (lower_char c) = lower_char c.
Proof. by destruct c as [[] [] [] [] [] [] [] []]. Qed.

Lemma lower_idem s : lower (lower s) = lower s.
Proof.
  unfold lower. rewrite map_map. apply map_ext. intros c. apply lower_char_idem.
Qed.

Lemma lower_app a b : lower (a ++ b) = lower a ++ lower b.
Proof. apply map_app. Qed.

(** X12: [_create_query_variations] returns at most two patterns; each
    contains the key phrase and differs from the original query even when
    case is ignored; and when the first two patterns do not collide with
    the query they are the result. *)
Theorem create_query_variations_spec (key_phrase original_query : str) :
  let vs := _create_query_variations key_phrase original_query in
  length vs <= 2
  /\ Forall (fun v => contains v key_phrase = true
                      /\ lower v <> lower original_query) vs
  /\ (lower (lit "research on " ++ key_phrase) <> lower original_query ->
      lower (key_phrase ++ lit " studies") <> lower original_query ->
      vs = [lit "research on " ++ key_phrase; key_phrase ++ lit " studies"]).
Proof.
  intros vs. subst vs. unfold _create_query_variations.
  split; [|split].
  - rewrite slice_to_take by lia. rewrite length_take. lia.
  - apply Forall_forall. intros v Hv.
    apply slice_elem_of, list_elem_of_filter in Hv as [Hne Hv].
    split; [|done].
    repeat (apply elem_of_cons in Hv as [-> | Hv];
            [first [apply contains_prefixed | apply contains_suffixed]|]).
    by apply elem_of_nil in Hv.
  - intros H1 H2. rewrite slice_to_take by lia.
    rewrite filter_cons_True by done. rewrite filter_cons_True by done.
    reflexivity.
Qed.

(** X13: [classify_query_type] returns one of its five labels, ignores
    case, and calls every query a question whose lower-case form starts
    with one of the question words, also when the word is only the
    beginning of a longer one. *)
Theorem classify_query_type_spec (query : str) :
  classify_query_type query ∈ query_types
  /\ classify_query_type (lower query) = classify_query_type query
  /\ (forall w rest, w ∈ question_words ->
        classify_query_type (w ++ rest) = lit "question").
Proof.
  split; [|split].
  - unfold classify_query_type, query_types.
    repeat (destruct (existsb _ _);
            [by repeat first [apply list_elem_of_here | apply list_elem_of_further]|]).
    by repeat first [apply list_elem_of_here | apply list_elem_of_further].
  - unfold classify_query_type. by rewrite lower_idem.
  - intros w rest Hw. unfold classify_query_type.
    assert (lower w = w) as Hl.
    { unfold question_words in Hw.
      repeat (apply elem_of_cons in Hw as [-> | Hw]; [reflexivity|]).
      by apply elem_of_nil in Hw. }
    assert (existsb (startswith (lower (w ++ rest))) question_words = true) as ->;
      [|done].
    apply existsb_exists. exists w. split; [by apply list_elem_of_In|].
    rewrite lower_app, Hl. apply startswith_app.
Qed.

Section SearchTerms.
Variable ext : External.

(** X14: [extract_search_terms] returns nothing for the empty query and at
    most ten terms otherwise; the set order listing only elements of its
    argument, every term is a key phrase of the cleaned query or one of
    its words, longer than two characters and not a stop word. *)
Theorem extract_search_terms_spec (query : str) :
  (forall l x, x ∈ list_of_set ext l -> x ∈ l) ->
  length (extract_search_terms ext query) <= 10
  /\ extract_search_terms ext [] = []
  /\ Forall (fun term =>
               term ∈ TextProcessor.extract_key_phrases ext (preprocess_query query) 5
               \/ (term ∈ split_ws (preprocess_query query)
                   /\ 2 < length term /\ lower term ∉ stop_words))
            (extract_search_terms ext query).
Proof.
  intros Hset. unfold extract_search_terms. split; [|split; [done|]].
  - destruct (truthy query); simpl; [|lia].
    rewrite slice_to_take by lia. rewrite length_take. lia.
  - destruct (truthy query); simpl; [|constructor].
    apply Forall_forall. intros term Ht.
    apply slice_elem_of, Hset, elem_of_app in Ht as [Ht | Ht]; [by left|].
    right. apply list_elem_of_filter in Ht as [[? ?] ?]. done.
Qed.
End SearchTerms.

Lemma extract_search_terms_spec_witness :
  length (extract_search_terms sample_nlp (lit "graph networks at Google")) <= 10
  /\ extract_search_terms sample_nlp [] = []
  /\ Forall (fun term =>
               term ∈ TextProcessor.extract_key_phrases sample_nlp
                        (preprocess_query (lit "graph networks at Google")) 5
               \/ (term ∈ split_ws (preprocess_query (lit "graph networks at Google"))
                   /\ 2 < length term /\ lower term ∉ stop_words))
            (extract_search_terms sample_nlp (lit "graph networks at Google")).
Proof.
  apply (extract_search_terms_spec sample_nlp (lit "graph networks at Google")).
  intros l x. apply elem_of_remove_dups.
Defined.

End QueryProcessorFacts.

(** ** Retrieval: expansion, by paper, similar chunks and suggestions *)

Section RetrieverFacts.
Import Retriever.

Section ExpansionFacts.
Variable search : str -> Z -> Q -> res (list RetrievalResult).

Lemma take_result_ok top_k ids0 st r :
  expansion_state_ok top_k ids0 st ->
  expansion_state_ok top_k ids0 (take_result top_k st r).
Proof.
  destruct st as [a ids]. intros (Hnd & Hids & Hnew & Hflag & Hlen).
  unfold take_result. simpl in *.
  destruct (bool_decide (chunk_id r ∉ ids)) eqn:Eb; simpl; [|done].
  destruct (Z.ltb_spec (Z.of_nat (length a)) top_k); [|done].
  apply bool_decide_eq_true in Eb. subst ids.
  apply not_elem_of_union in Eb as [Hr0 Hra].
  rewrite elem_of_list_to_set in Hra.
  unfold expansion_state_ok. simpl. rewrite map_app, length_app. simpl.
  split; [|split; [|split; [|split]]].
  - apply NoDup_app. split; [done|]. split; [|apply NoDup_singleton].
    intros x Hx ->%list_elem_of_singleton. done.
  - rewrite list_to_set_app_L. simpl. rewrite (right_id_L ∅ (∪)).
    by rewrite (assoc_L (∪)).
  - intros x [Hx | ->%list_elem_of_singleton]%elem_of_app; [by apply Hnew | done].
  - apply Forall_app. split; [done|]. by repeat constructor.
  - lia.
Qed.

Lemma fold_take_result_ok top_k ids0 rs : forall st,
  expansion_state_ok top_k ids0 st ->
  expansion_state_ok top_k ids0 (fold_left (take_result top_k) rs st).
Proof.
  induction rs as [|r rs IH]; intros st H; [done|]. simpl.
  by apply IH, take_result_ok.
Qed.

Lemma expanded_loop_ok top_k t ids0 qs : forall st,
  expansion_state_ok top_k ids0 st ->
  exists ids, expansion_state_ok top_k ids0
                (expanded_loop search top_k t qs st, ids).
Proof.
  induction qs as [|q qs IH]; intros [a ids] H; simpl.
  - by exists ids.
  - destruct (top_k <=? _)%Z; [by exists ids|].
    destruct (search q top_k t) as [rs|]; [|by apply IH].
    by apply IH, fold_take_result_ok.
Qed.

Lemma expanded_results_fresh (expanded_queries : list str) (top_k : Z)
  (t : Q) (existing_results : list RetrievalResult) :
  (0 <= top_k)%Z ->
  let added := _search_expanded_queries search expanded_queries top_k t
                                         existing_results in
  (Z.of_nat (length added) <= top_k)%Z
  /\ Forall (fun x => from_expanded_query x = true) added
  /\ NoDup (map chunk_id added)
  /\ Forall (fun x => chunk_id x ∉ map chunk_id existing_results) added.
Proof.
  intros Hk added. subst added. unfold _search_expanded_queries.
  destruct (expanded_loop_ok top_k t (list_to_set (map chunk_id existing_results))
              expanded_queries ([], list_to_set (map chunk_id existing_results)))
    as (ids & Hnd & _ & Hnew & Hflag & Hlen).
  { split; [constructor|]. split; [simpl; by rewrite (right_id_L ∅ (∪))|].
    split; [by intros x ?%elem_of_nil|]. split; [constructor | simpl; lia]. }
  simpl in *. split; [done|]. split; [done|]. split; [done|].
  apply Forall_forall. intros x Hx Hin. apply (Hnew x Hx).
  by apply elem_of_list_to_set.
Qed.

(** X15: with [top_k >= 0], [_search_expanded_queries] returns at most
    [top_k] results, all flagged [from_expanded_query], with pairwise
    distinct chunk ids, none of which is the id of an existing result. *)
Theorem search_expanded_queries_spec (expanded_queries : list str) (top_k : Z)
  (t : Q) (existing_results : list RetrievalResult) :
  (0 <= top_k)%Z ->
  let added := _search_expanded_queries search expanded_queries top_k t
                                         existing_results in
  (Z.of_nat (length added) <= top_k)%Z
  /\ Forall (fun x => from_expanded_query x = true) added
  /\ NoDup (map chunk_id added)
  /\ Forall (fun x => chunk_id x ∉ map chunk_id existing_results) added.
Proof.
  apply expanded_results_fresh.
Qed.

End ExpansionFacts.

Lemma search_expanded_queries_spec_witness :
  let added := _search_expanded_queries corpus_search
                 [lit "attention"] 3 (5 # 10) [mk_result "c1" "Paper A" (9 # 10)] in
  (Z.of_nat (length added) <= 3)%Z
  /\ Forall (fun x => from_expanded_query x = true) added
  /\ NoDup (map chunk_id added)
  /\ Forall (fun x => chunk_id x ∉ map chunk_id [mk_result "c1" "Paper A" (9 # 10)])
            added.
Proof.
  apply (search_expanded_queries_spec corpus_search [lit "attention"] 3 (5 # 10)
           [mk_result "c1" "Paper A" (9 # 10)]).
  lia.
Defined.

(** *** [retrieve] *)

Lemma sublist_map_NoDup {A B} (f : A -> B) (l k : list A) :
  l `sublist_of` k -> NoDup (map f k) -> NoDup (map f l).
Proof.
  intros Hs Hn. eapply sublist_NoDup; [exact Hn|]. by apply (fmap_sublist f).
Qed.

(** X16: for a store whose answers have distinct chunk ids, the results of
    [retrieve] have pairwise distinct chunk ids, and each carries the
    query type and the search terms of the query as its [query_metadata];
    an empty query and a store that raises on the first search both give
    no results. *)
Theorem retrieve_distinct (ext : External) (cfg : Config)
  (search : str -> Z -> Q -> res (list RetrievalResult))
  (q : str) (top_k : option Z) (t : option Q) :
  store_ids_distinct search ->
  (0 <= effective_top_k cfg top_k)%Z ->
  NoDup (map chunk_id (retrieve ext cfg search q top_k t))
  /\ Forall (fun r => query_metadata r
                      = Some (QueryProcessor.classify_query_type q,
                              QueryProcessor.extract_search_terms ext q))
            (retrieve ext cfg search q top_k t)
  /\ retrieve ext cfg search [] top_k t = []
  /\ (forall e, search (QueryProcessor.preprocess_query q)
                       (effective_top_k cfg top_k) (effective_threshold cfg t)
                = Raise e ->
      retrieve ext cfg search q top_k t = []).
Proof.
  intros Hstore Hk. split; [|split; [|split; [done|]]].
  - unfold retrieve. destruct (truthy q); simpl; [|constructor].
    destruct (search _ _ _) as [rs|] eqn:E; [|constructor].
    rewrite map_map. simpl.
    match goal with |- context [sort_desc similarity ?m] => set (merged := m) end.
    assert (NoDup (map chunk_id merged)) as Hm.
    { unfold merged. destruct (_ && _) eqn:Eb; [|by eapply Hstore].
      apply andb_true_iff in Eb as [Hlt _]. apply Z.ltb_lt in Hlt.
      destruct (expanded_results_fresh search
                  (QueryProcessor.expanded_queries
                     (QueryProcessor.optimize_query_for_retrieval ext q))
                  (effective_top_k cfg top_k - Z.of_nat (length rs))
                  (effective_threshold cfg t) rs) as (_ & _ & Hnd & Hnew); [lia|].
      rewrite map_app. apply NoDup_app. split; [by eapply Hstore|].
      split; [|done]. intros id Hid Hin.
      apply list_elem_of_fmap in Hin as (x & -> & Hx).
      rewrite Forall_forall in Hnew. by apply (Hnew x Hx). }
    eapply sublist_map_NoDup; [apply slice_sublist|].
    assert (Permutation (map chunk_id (sort_desc similarity merged))
                        (map chunk_id merged)) as ->
      by apply Permutation_map, sort_desc_perm.
    exact Hm.
  - unfold retrieve. destruct (truthy q); simpl; [|constructor].
    destruct (search _ _ _) as [rs|] eqn:E; [|constructor].
    apply Forall_map. simpl. by apply Forall_true.
  - intros e He. unfold retrieve. destruct (truthy q); simpl; [|done].
    by rewrite He.
Qed.

Lemma bool_filter_sublist {A} (f : A -> bool) (l : list A) :
  List.filter f l `sublist_of` l.
Proof.
  induction l as [|x l IH]; simpl; [constructor|].
  destruct (f x); by constructor.
Qed.

Lemma corpus_search_distinct : store_ids_distinct corpus_search.
Proof.
  intros q k t rs H.
  assert (NoDup (map chunk_id corpus)) as Hc.
  { vm_compute. repeat constructor; intros Hin;
      repeat (apply elem_of_cons in Hin as [Hin | Hin]; [discriminate Hin|]);
      by apply elem_of_nil in Hin. }
  replace rs with (slice_to (List.filter (fun r => Qle_bool t (similarity r)) corpus) k)
    by (unfold corpus_search in H; congruence).
  eapply sublist_map_NoDup; [|exact Hc].
  etrans; [apply slice_sublist|]. apply bool_filter_sublist.
Qed.

Lemma retrieve_distinct_witness :
  NoDup (map chunk_id (retrieve no_nlp default_config corpus_search
                                (lit "attention") (Some 5%Z) (Some (5 # 10))))
  /\ Forall (fun r => query_metadata r
                      = Some (QueryProcessor.classify_query_type (lit "attention"),
                              QueryProcessor.extract_search_terms no_nlp (lit "attention")))
            (retrieve no_nlp default_config corpus_search
                      (lit "attention") (Some 5%Z) (Some (5 # 10)))
  /\ retrieve no_nlp default_config corpus_search [] (Some 5%Z) (Some (5 # 10)) = []
  /\ (forall e, corpus_search (QueryProcessor.preprocess_query (lit "attention"))
                       (effective_top_k default_config (Some 5%Z))
                       (effective_threshold default_config (Some (5 # 10)))
                = Raise e ->
      retrieve no_nlp default_config corpus_search
               (lit "attention") (Some 5%Z) (Some (5 # 10)) = []).
Proof.
  apply (retrieve_distinct no_nlp default_config corpus_search
           (lit "attention") (Some 5%Z) (Some (5 # 10))).
  - exact corpus_search_distinct.
  - simpl. lia.
Defined.

(** *** [retrieve_by_paper] and [retrieve_similar_chunks] *)

(** X17: [retrieve_by_paper] asks the store for the 100 best matches of the
    title with threshold 0 and returns, in the store's order, results whose
    stored title equals the given one up to case, at most [top_k] of them
    for [top_k >= 0]; a store that raises gives no results. *)
Theorem retrieve_by_paper_spec
  (search : str -> Z -> Q -> res (list RetrievalResult))
  (title : str) (top_k : Z) :
  (0 <= top_k)%Z ->
  let found := retrieve_by_paper search title top_k in
  Forall (fun r => lower (title_or_empty r) = lower title) found
  /\ (Z.of_nat (length found) <= top_k)%Z
  /\ (forall all_results, search title 100%Z 0%Q = Ok all_results ->
        found `sublist_of` all_results)
  /\ (forall e, search title 100%Z 0%Q = Raise e -> found = []).
Proof.
  intros Hk found. subst found. unfold retrieve_by_paper.
  destruct (search title 100%Z 0%Q) as [rs|e]; simpl.
  - split; [|split; [|split; [|done]]].
    + apply Forall_forall. intros r Hr.
      apply (sublist_subseteq _ _ (slice_sublist _ 0 top_k)) in Hr.
      by apply list_elem_of_filter in Hr as [Hr _].
    + by apply slice_to_length.
    + intros ? [= <-]. etrans; [apply slice_sublist | apply sublist_filter].
  - split; [constructor|]. split; [simpl; lia|]. by split.
Qed.

Lemma retrieve_by_paper_spec_witness :
  let found := retrieve_by_paper corpus_search (lit "paper a") 10%Z in
  Forall (fun r => lower (title_or_empty r) = lower (lit "paper a")) found
  /\ (Z.of_nat (length found) <= 10)%Z
  /\ (forall all_results, corpus_search (lit "paper a") 100%Z 0%Q = Ok all_results ->
        found `sublist_of` all_results)
  /\ (forall e, corpus_search (lit "paper a") 100%Z 0%Q = Raise e -> found = []).
Proof.
  apply (retrieve_by_paper_spec corpus_search (lit "paper a") 10%Z). lia.
Defined.

(** X18: [retrieve_similar_chunks] never returns the reference chunk
    itself; for [top_k >= 0] it returns at most [top_k] results, taken in
    order from the store's answer for the reference text; a chunk the
    store does not have, and a store that raises, give no results. *)
Theorem retrieve_similar_chunks_spec
  (search : str -> Z -> Q -> res (list RetrievalResult))
  (get_chunk_by_id : str -> res (option str)) (id : str) (top_k : Z) :
  (0 <= top_k)%Z ->
  let similar := retrieve_similar_chunks search get_chunk_by_id id top_k in
  (id ∉ map chunk_id similar)
  /\ (Z.of_nat (length similar) <= top_k)%Z
  /\ (forall reference_text results,
        get_chunk_by_id id = Ok (Some reference_text) ->
        search reference_text (top_k + 1)%Z (3 # 10) = Ok results ->
        similar `sublist_of` results)
  /\ (get_chunk_by_id id = Ok None -> similar = [])
  /\ (forall e, get_chunk_by_id id = Raise e -> similar = []).
Proof.
  intros Hk similar. subst similar. unfold retrieve_similar_chunks.
  destruct (get_chunk_by_id id) as [[ref|]|e]; simpl;
    try (split; [by intros ?%elem_of_nil|]; split; [simpl; lia|];
         split; [done|]; by split).
  destruct (search ref (top_k + 1)%Z (3 # 10)) as [rs|e] eqn:E; simpl.
  - split; [|split; [|split; [|done]]].
    + intros Hin. apply list_elem_of_fmap in Hin as (r & Hid & Hr).
      apply (sublist_subseteq _ _ (slice_sublist _ 0 top_k)) in Hr.
      apply list_elem_of_filter in Hr as [Hr _]. by apply Hr.
    + by apply slice_to_length.
    + intros ? results [= <-] H.
      replace results with rs by congruence.
      etrans; [apply slice_sublist | apply sublist_filter].
  - split; [by intros ?%elem_of_nil|]. split; [simpl; lia|].
    split; [|done]. intros. apply sublist_nil_l.
Qed.

Lemma retrieve_similar_chunks_spec_witness :
  let similar := retrieve_similar_chunks corpus_search corpus_lookup (lit "c1") 5%Z in
  (lit "c1" ∉ map chunk_id similar)
  /\ (Z.of_nat (length similar) <= 5)%Z
  /\ (forall reference_text results,
        corpus_lookup (lit "c1") = Ok (Some reference_text) ->
        corpus_search reference_text (5 + 1)%Z (3 # 10) = Ok results ->
        similar `sublist_of` results)
  /\ (corpus_lookup (lit "c1") = Ok None -> similar = [])
  /\ (forall e, corpus_lookup (lit "c1") = Raise e -> similar = []).
Proof.
  apply (retrieve_similar_chunks_spec corpus_search corpus_lookup (lit "c1") 5%Z). lia.
Defined.

(** The example store returns the other chunk for [c1]. *)
Example retrieve_similar_chunks_example :
  map chunk_id (retrieve_similar_chunks corpus_search corpus_lookup (lit "c1") 5%Z)
  = [lit "c2"].
Proof. vm_compute. reflexivity. Qed.

(** *** The suggestions of [validate_retrieval_quality] *)

(** X19: for a non-empty result list, [validate_retrieval_quality] reports
    the single suggestion [Results look good!] exactly when the results are
    valid; otherwise it gives two suggestions per quality issue, so a
    result list with both similarity issues gets the keyword suggestions
    twice. *)
Theorem validate_suggestions_spec (query : str) (results : list RetrievalResult) :
  results <> [] ->
  let v := validate_retrieval_quality query results in
  (valid v = true <-> suggestions v = [lit "Results look good!"])
  /\ (valid v = false ->
      length (suggestions v) = 2 * length (quality_issues v))
  /\ (quality_issues v = [low_average; very_low] ->
      suggestions v = [lit "Try more specific keywords";
                       lit "Consider using technical terms from the field";
                       lit "Try more specific keywords";
                       lit "Consider using technical terms from the field"]).
Proof.
  intros Hne v. subst v. destruct results as [|r0 rest]; [done|].
  unfold validate_retrieval_quality.
  cbn [valid suggestions quality_issues].
  destruct (Qlt_bool _ _), (Qlt_bool _ _), (Qlt_bool _ _);
    vm_compute; (split; [split; intros H; first [reflexivity | discriminate H]|]);
    (split; [intros H; first [reflexivity | discriminate H]|]);
    intros H; first [reflexivity | discriminate H].
Qed.

Lemma validate_suggestions_spec_witness :
  let v := validate_retrieval_quality (lit "attention") quality_example in
  (valid v = true <-> suggestions v = [lit "Results look good!"])
  /\ (valid v = false ->
      length (suggestions v) = 2 * length (quality_issues v))
  /\ (quality_issues v = [low_average; very_low] ->
      suggestions v = [lit "Try more specific keywords";
                       lit "Consider using technical terms from the field";
                       lit "Try more specific keywords";
                       lit "Consider using technical terms from the field"]).
Proof.
  apply (validate_suggestions_spec (lit "attention") quality_example).
  discriminate.
Defined.

End RetrieverFacts.

(** ** The vector store search *)

Section VectorStoreSearch.
Import Retriever.

Section VectorStoreFacts.
Variable embed_single_text : str -> res (list Q).
Variable collection_query : list Q -> Z -> res VectorStore.QueryResult.

Lemma process_rows_view t rows : forall i,
  map result_view (VectorStore.process_rows t i rows)
  = map row_view (List.filter (row_passes t) rows).
Proof.
  induction rows as [|[[doc [id md]] d] rows IH]; intros i; simpl; [done|].
  rewrite map_app, IH. by destruct (Qle_bool (float_lit t) (float_sub 1 d)).
Qed.




(** X20: [VectorStore.search] keeps exactly the rows of the collection's
    answer whose similarity, the float difference [1 - distance] rounded
    as the code rounds it, reaches the threshold, in the collection's
    order, with the row's document as text and that similarity; so every
    result is at or above the threshold.  An empty query, an empty
    embedding and a failure of the embedding or of the collection give no
    results. *)
Theorem vector_store_search_spec (query : str) (top_k : Z) (t : Q) :
  let found := VectorStore.search embed_single_text collection_query query top_k t in
  Forall (fun r => (float_lit t <= similarity r)%Q /\ from_expanded_query r = false)
         found
  /\ (forall emb res,
        query <> [] -> embed_single_text query = Ok emb -> emb <> [] ->
        collection_query emb top_k = Ok res ->
        map result_view found
        = map row_view
            (List.filter (row_passes t)
               (VectorStore.zip3 (VectorStore.documents res)
                  (VectorStore.metadatas res) (VectorStore.distances res))))
  /\ (query = [] -> found = [])
  /\ (embed_single_text query = Ok [] -> found = [])
  /\ (forall e, embed_single_text query = Raise e -> found = [])
  /\ (forall emb e, embed_single_text query = Ok emb ->
        collection_query emb top_k = Raise e -> found = []).
Proof.
  intros found. subst found. unfold VectorStore.search.
  split; [|split; [|split; [|split; [|split]]]].
  - destruct (negb (truthy query)); [constructor|].
    destruct (embed_single_text query) as [[|x emb]|]; try constructor.
    destruct (collection_query _ _) as [res|]; [|constructor].
    destruct (VectorStore.documents res); [constructor|].
    generalize 0.
    generalize (VectorStore.zip3 (s :: l) (VectorStore.metadatas res)
                  (VectorStore.distances res)).
    intros rows. induction rows as [|[[doc [id md]] d] rows IH]; intros i; simpl;
      [constructor|].
    apply Forall_app. split; [|apply IH].
    destruct (Qle_bool (float_lit t) (float_sub 1 d)) eqn:E; [|constructor].
    repeat constructor. simpl. by apply Qle_bool_iff.
  - intros emb res Hq He Hemb Hc. destruct query as [|c q]; [done|]. simpl.
    rewrite He. destruct emb as [|x emb]; [done|]. rewrite Hc.
    destruct (VectorStore.documents res) eqn:Ed; [done|].
    apply process_rows_view.
  - by intros ->.
  - intros ->. by destruct (negb _).
  - intros e ->. by destruct (negb _).
  - intros emb e -> Hc. destruct (negb _); [done|].
    destruct emb; [done|]. by rewrite Hc.
Qed.


End VectorStoreFacts.


(** The sample collection: of the rows at distances 0.1 and 0.4 only the
    first reaches 0.7. *)
Example vector_store_search_example :
  map (fun r => (chunk_id r, text r))
      (VectorStore.search sample_embed sample_collection (lit "attention") 5 (7 # 10))
  = [(lit "chunk_0", lit "first text")].
Proof. vm_compute. reflexivity. Qed.

(** A row at distance 1e-17 has the similarity 1.0 after rounding and
    passes the threshold 1.0. *)
Example vector_store_search_rounds :
  row_view (lit "doc", (None, metadata (mk_result "c1" "Paper A" 0)),
            1 # 100000000000000000)
  = (lit "doc", metadata (mk_result "c1" "Paper A" 0), 1%Q)
  /\ row_passes 1 (lit "doc", (None, metadata (mk_result "c1" "Paper A" 0)),
                   1 # 100000000000000000) = true.
Proof. split; vm_compute; reflexivity. Qed.

End VectorStoreSearch.

(** ** Citations: numbering, bibliography, years and attribution *)

Section CitationFormatterFacts.
Import CitationFormatter.

Section NumericStyle.

Lemma set_citation_same t c m :
  citation_of t m = Some c -> set_citation t c m = m.
Proof.
  induction m as [|[k c0] m IH]; simpl; [done|].
  destruct (bool_decide (k = t)); [congruence|].
  intros H. by rewrite IH.
Qed.

Lemma citation_of_In t c (m : citation_map) :
  citation_of t m = Some c -> (t, c) ∈ m.
Proof.
  induction m as [|[k c0] m IH]; simpl; [done|].
  destruct (bool_decide (k = t)) eqn:E.
  - apply bool_decide_eq_true in E as ->. intros [= ->]. by left.
  - intros H. right. by apply IH.
Qed.

Lemma numbers_in_range (m : citation_map) t c :
  map (fun kc => citation_number kc.2) m
  = map (fun i => Some (1 + Z.of_nat i)%Z) (seq 0 (length m)) ->
  citation_of t m = Some c ->
  exists k, citation_number c = Some k /\ (1 <= k <= Z.of_nat (length m))%Z.
Proof.
  intros Hn Hc. apply citation_of_In in Hc.
  assert (citation_number c ∈ map (fun kc : str * Citation => citation_number kc.2) m)
    as Hin.
  { apply list_elem_of_fmap. by exists (t, c). }
  rewrite Hn in Hin. apply list_elem_of_fmap in Hin as (i & Hi & Hin).
  apply list_elem_of_In, in_seq in Hin.
  exists (1 + Z.of_nat i)%Z. split; [done | lia].
Qed.

Lemma numeric_loop style chunks :
  lower style = lit "numeric" ->
  forall sentences st atts st',
    (forall t c, citation_of t (cmap st) = Some c -> number_truthy c = true) ->
    sentence_loop style chunks st sentences = Ok (atts, st') ->
    cmap st' = cmap st /\ counter st' = counter st
    /\ Forall (fun a => match cited a with
                        | Some (t, marker) =>
                            exists c, citation_of t (cmap st) = Some c
                                      /\ marker = fmt_number c
                        | None => render a = sentence a
                        end) atts.
Proof.
  intros Hstyle. induction sentences as [|sent rest IH]; intros st atts st' Hnum.
  - simpl. intros [= <- <-]. by repeat split.
  - cbn [sentence_loop].
    destruct (first_citable (cited_papers st) sent chunks) as [t|].
    + unfold cite. destruct (citation_of t (cmap st)) as [c|] eqn:Ec; [|done].
      rewrite Hstyle. rewrite bool_decide_eq_false_2 by (intros H; discriminate H).
      unfold format_numeric. rewrite (Hnum t c Ec).
      rewrite (set_citation_same _ _ _ Ec).
      match goal with |- context [sentence_loop style chunks ?s rest] =>
        specialize (IH s) end.
      destruct (sentence_loop _ _ _ rest) as [[atts0 st0]|]; [|done].
      intros [= <- <-]. destruct (IH atts0 st0 Hnum eq_refl) as (Hm & Hc & Ha).
      split; [done|]. split; [done|]. constructor; [|done]. simpl. by exists c.
    + specialize (IH st).
      destruct (sentence_loop _ _ _ rest) as [[atts0 st0]|]; [|done].
      intros [= <- <-]. destruct (IH atts0 st0 Hnum eq_refl) as (Hm & Hc & Ha).
      split; [done|]. split; [done|]. by constructor.
Qed.

(** What a numeric call comes to: the attributions, the numbered map and
    its length as the counter. *)
Lemma numeric_run (count : Z) (txt : str) (chunks : list SourceChunk) (style : str) :
  lower style = lit "numeric" ->
  exists atts st,
    attributions count txt chunks style = Ok (atts, st)
    /\ counter st = Z.of_nat (length (cmap st))
    /\ map fst (cmap st) = first_seen (omap cited_title chunks)
    /\ map (fun kc => citation_number kc.2) (cmap st)
       = map (fun i => Some (1 + Z.of_nat i)%Z) (seq 0 (length (cmap st)))
    /\ map sentence atts = Re.split sentence_sep txt
    /\ Forall (fun a => match cited a with
                        | Some (t, marker) => numbered_marker (cmap st) t marker
                        | None => render a = sentence a
                        end) atts.
Proof.
  intros Hstyle.
  destruct (sentence_loop_spec style chunks (Re.split sentence_sep txt)
              (initial_state count chunks style))
    as (atts & st & Hloop & Hs & _); [apply initial_state_complete|].
  destruct (numeric_first_seen count chunks style Hstyle) as [Hkeys Hnums].
  assert (counter (initial_state count chunks style)
          = Z.of_nat (length (cmap (initial_state count chunks style)))) as Hcount.
  { unfold initial_state. rewrite (bool_decide_eq_true_2 _ Hstyle).
    destruct (number_all_spec (create_citation_map chunks) 0) as (Hk & _ & Hc).
    destruct (number_all 0 (create_citation_map chunks)) as [m' c']. simpl in *.
    rewrite Hc, <- (length_map fst m'), Hk, length_map. lia. }
  assert (forall t c, citation_of t (cmap (initial_state count chunks style)) = Some c ->
                      number_truthy c = true) as Htruthy.
  { intros t c Hc. destruct (numbers_in_range _ t c Hnums Hc) as (k & Hk & Hr).
    unfold number_truthy. rewrite Hk. apply negb_true_iff, Z.eqb_neq. lia. }
  destruct (numeric_loop style chunks Hstyle _ _ _ _ Htruthy
              Hloop) as (Hm & Hc & Ha).
  exists atts, st. unfold attributions. split; [done|].
  rewrite Hm, Hc. split; [done|]. split; [done|]. split; [done|]. split; [done|].
  eapply Forall_impl; [exact Ha|]. intros a Hcase. simpl in Hcase.
  destruct (cited a) as [[t marker]|]; [|exact Hcase].
  destruct Hcase as (c & Hcit & ->).
  destruct (numbers_in_range _ t c Hnums Hcit) as (k & Hk & Hr).
  exists c, k. split; [done|]. split; [done|]. split; [done|].
  unfold fmt_number. by rewrite Hk.
Qed.

End NumericStyle.

(** X22: under the numeric style, whatever the counter was before the
    call, [add_citations_to_text] on a non-empty chunk list returns a map
    whose keys are the usable paper titles in the order of their first
    chunk, numbered 1, 2, ... in that order, and the number of papers as
    the new counter; every marker it appends is the bracketed number that
    the returned map holds for the cited paper. *)
Theorem numeric_style_markers (count : Z) (txt : str)
  (chunks : list SourceChunk) (style : str) :
  lower style = lit "numeric" ->
  chunks <> [] ->
  exists atts m,
    add_citations_to_text count txt chunks style
    = Ok (str_join (lit " ") (map render atts), m, Z.of_nat (length m))
    /\ map fst m = first_seen (omap cited_title chunks)
    /\ map (fun kc => citation_number kc.2) m
       = map (fun i => Some (1 + Z.of_nat i)%Z) (seq 0 (length m))
    /\ map sentence atts = Re.split sentence_sep txt
    /\ Forall (fun a => match cited a with
                        | Some (t, marker) => numbered_marker m t marker
                        | None => render a = sentence a
                        end) atts.
Proof.
  intros Hstyle Hne.
  destruct (numeric_run count txt chunks style Hstyle)
    as (atts & st & Hrun & Hc & Hk & Hn & Hs & Ha).
  exists atts, (cmap st). unfold add_citations_to_text. rewrite Hrun, Hc.
  by destruct chunks.
Qed.

Lemma numeric_style_markers_witness :
  exists atts m,
    add_citations_to_text 7 (lit "Transformers use attention. BERT is bidirectional.")
                          mixed_chunks (lit "Numeric")
    = Ok (str_join (lit " ") (map render atts), m, Z.of_nat (length m))
    /\ map fst m = first_seen (omap cited_title mixed_chunks)
    /\ map (fun kc => citation_number kc.2) m
       = map (fun i => Some (1 + Z.of_nat i)%Z) (seq 0 (length m))
    /\ map sentence atts
       = Re.split sentence_sep (lit "Transformers use attention. BERT is bidirectional.")
    /\ Forall (fun a => match cited a with
                        | Some (t, marker) => numbered_marker m t marker
                        | None => render a = sentence a
                        end) atts.
Proof.
  apply (numeric_style_markers 7
           (lit "Transformers use attention. BERT is bidirectional.")
           mixed_chunks (lit "Numeric")).
  - vm_compute. reflexivity.
  - discriminate.
Defined.

(** The example: the first sentence is marked [1], the counter 7 is
    ignored and comes back as 2. *)
Example numeric_style_example :
  (fun r => match r with
            | Ok (out, m, n) => Some (out, map fst m, n)
            | Raise _ => None
            end)
    (add_citations_to_text 7 (lit "Transformers use attention. BERT is bidirectional.")
                           mixed_chunks (lit "Numeric"))
  = Some (lit "Transformers use attention. [1] BERT is bidirectional.",
          [lit "Attention Is All You Need"; lit "BERT"], 2%Z).
Proof. vm_compute. reflexivity. Qed.

(** *** Sorting the bibliography *)

Section SortedByFacts.
Context {A K : Type} (leb : K -> K -> bool) (key : A -> K).

Lemma insert_by_perm x l : Permutation (insert_by leb key x l) (x :: l).
Proof.
  induction l as [|y l IH]; simpl; [done|].
  destruct (leb (key x) (key y)); [done|].
  rewrite IH. apply perm_swap.
Qed.

Lemma sorted_by_perm l : Permutation (sorted_by leb key l) l.
Proof.
  induction l as [|x l IH]; simpl; [done|].
  rewrite insert_by_perm. by constructor.
Qed.

Hypothesis leb_total : forall a b, leb a b = false -> leb b a = true.

Lemma insert_by_sorted x l :
  Sorted (fun a b => leb (key a) (key b) = true) l ->
  Sorted (fun a b => leb (key a) (key b) = true) (insert_by leb key x l).
Proof.
  induction l as [|y l IH]; intros Hs; simpl.
  - by repeat constructor.
  - destruct (leb (key x) (key y)) eqn:E.
    + constructor; [done|]. by constructor.
    + apply Sorted_inv in Hs as [Hs Hhd]. constructor; [by apply IH|].
      destruct l as [|z l]; simpl.
      * constructor. by apply leb_total.
      * destruct (leb (key x) (key z)); constructor.
        -- by apply leb_total.
        -- by apply HdRel_inv in Hhd.
Qed.

Lemma sorted_by_sorted l : Sorted (fun a b => leb (key a) (key b) = true) (sorted_by leb key l).
Proof.
  induction l as [|x l IH]; simpl; [constructor|]. by apply insert_by_sorted.
Qed.

Lemma sorted_by_id l : Sorted (fun a b => leb (key a) (key b) = true) l -> sorted_by leb key l = l.
Proof.
  induction l as [|x l IH]; intros Hs; [done|].
  apply Sorted_inv in Hs as [Hs Hhd]. simpl. rewrite (IH Hs).
  destruct l as [|y l]; [done|]. simpl.
  apply HdRel_inv in Hhd. by rewrite Hhd.
Qed.

End SortedByFacts.

Lemma str_leb_total a : forall b, str_leb a b = false -> str_leb b a = true.
Proof.
  induction a as [|x a IH]; intros [|y b]; simpl; try done.
  destruct (N.ltb_spec (code x) (code y)); [done|].
  destruct (N.ltb_spec (code y) (code x)); [done|].
  apply IH.
Qed.

Lemma Zleb_total (a b : Z) : (a <=? b)%Z = false -> (b <=? a)%Z = true.
Proof. intros H%Z.leb_gt. apply Z.leb_le. lia. Qed.

Lemma ascending_numbers_sorted (l : list Citation) : forall n,
  map citation_number l
  = map (fun i => Some (n + Z.of_nat i)%Z) (seq 0 (length l)) ->
  Sorted (fun a b => (number_key a <=? number_key b)%Z = true) l.
Proof.
  induction l as [|c l IH]; intros n H; [constructor|].
  simpl in H. injection H as Hc Hl.
  rewrite <- seq_shift, map_map in Hl.
  constructor.
  - apply (IH (n + 1)%Z). rewrite Hl. apply map_ext. intros i. f_equal. lia.
  - destruct l as [|d l]; constructor.
    simpl in Hl. injection Hl as Hd _.
    unfold number_key. rewrite Hc, Hd. apply Z.leb_le. lia.
Qed.

(** X23: under the numeric style and for a non-empty chunk list, the
    bibliography generated from the map that [add_citations_to_text]
    returns lists the papers in the order of their numbers 1, 2, ...,
    which is the order of the map: the k-th entry under the heading is the
    APA entry of the citation numbered k, the paper whose marker in the
    text is [k]. *)
Theorem numeric_bibliography_order (count : Z) (txt : str)
  (chunks : list SourceChunk) (style : str) :
  lower style = lit "numeric" ->
  chunks <> [] ->
  exists atts m,
    add_citations_to_text count txt chunks style
    = Ok (str_join (lit " ") (map render atts), m, Z.of_nat (length m))
    /\ sorted_citations m style = map snd m
    /\ map citation_number (sorted_citations m style)
       = map (fun i => Some (1 + Z.of_nat i)%Z) (seq 0 (length m))
    /\ Forall (fun a => match cited a with
                        | Some (t, marker) => numbered_marker m t marker
                        | None => render a = sentence a
                        end) atts
    /\ (m <> [] ->
        generate_bibliography m style
        = str_join [TextProcessor.nl; TextProcessor.nl]
            (lit "## References" :: map format_apa (sorted_citations m style))).
Proof.
  intros Hstyle Hne.
  destruct (numeric_run count txt chunks style Hstyle)
    as (atts & st & Hrun & Hc & Hk & Hn & Hs & Ha).
  assert (sorted_citations (cmap st) style = map snd (cmap st)) as Hsorted.
  { unfold sorted_citations. rewrite (bool_decide_eq_true_2 _ Hstyle).
    apply sorted_by_id.
    apply (ascending_numbers_sorted _ 1). rewrite map_map, length_map. exact Hn. }
  exists atts, (cmap st). split; [|split; [done|split; [|split; [done|]]]].
  - unfold add_citations_to_text. rewrite Hrun, Hc. by destruct chunks.
  - rewrite Hsorted, map_map. exact Hn.
  - intros Hm. unfold generate_bibliography.
    destruct (cmap st) as [|kc m'] eqn:Em; [done|].
    do 2 f_equal. apply map_ext. intros c. unfold get_bibliography_entry.
    rewrite Hstyle. reflexivity.
Qed.

Lemma numeric_bibliography_order_witness :
  exists atts m,
    add_citations_to_text 7 two_paper_text
                          mixed_chunks (lit "numeric")
    = Ok (str_join (lit " ") (map render atts), m, Z.of_nat (length m))
    /\ sorted_citations m (lit "numeric") = map snd m
    /\ map citation_number (sorted_citations m (lit "numeric"))
       = map (fun i => Some (1 + Z.of_nat i)%Z) (seq 0 (length m))
    /\ Forall (fun a => match cited a with
                        | Some (t, marker) => numbered_marker m t marker
                        | None => render a = sentence a
                        end) atts
    /\ (m <> [] ->
        generate_bibliography m (lit "numeric")
        = str_join [TextProcessor.nl; TextProcessor.nl]
            (lit "## References"
             :: map format_apa (sorted_citations m (lit "numeric")))).
Proof.
  apply (numeric_bibliography_order 7
           two_paper_text
           mixed_chunks (lit "numeric")).
  - vm_compute. reflexivity.
  - discriminate.
Defined.

(** The two papers of the example: the text cites them as [1] and [2], and
    the references come in that order. *)
Example numeric_bibliography_example :
  match add_citations_to_text 7 two_paper_text
                              mixed_chunks (lit "numeric") with
  | Ok (out, m, _) => Some (out, generate_bibliography m (lit "numeric"))
  | Raise _ => None
  end
  = Some (lit "Transformers use attention layers. [1] Bidirectional encoders are pretrained. [2]",
          lit "## References" ++ [TextProcessor.nl; TextProcessor.nl]
          ++ lit "Smith (n.d.). Attention Is All You Need."
          ++ [TextProcessor.nl; TextProcessor.nl]
          ++ lit "Smith (n.d.). BERT.").
Proof. vm_compute. reflexivity. Qed.

(** X24: [generate_bibliography] returns the empty string for an empty
    map; otherwise it sorts the citations of the map, none lost and none
    added, by citation number (a missing number counting as 0) under the
    numeric style and by first author (or Anonymous) under every other
    style, and renders the heading followed by one entry per citation. *)
Theorem generate_bibliography_spec (citations : citation_map) (style : str) :
  generate_bibliography [] style = []
  /\ Permutation (sorted_citations citations style) (map snd citations)
  /\ (lower style = lit "numeric" ->
      Sorted (fun a b => (number_key a <= number_key b)%Z)
             (sorted_citations citations style))
  /\ (lower style <> lit "numeric" ->
      Sorted (fun a b => str_leb (author_key a) (author_key b) = true)
             (sorted_citations citations style))
  /\ (citations <> [] ->
      generate_bibliography citations style
      = str_join [TextProcessor.nl; TextProcessor.nl]
          (lit "## References"
           :: map (fun c => get_bibliography_entry c style)
                  (sorted_citations citations style))).
Proof.
  split; [done|]. split; [|split; [|split]].
  - unfold sorted_citations. destruct (bool_decide _); apply sorted_by_perm.
  - intros H. unfold sorted_citations. rewrite (bool_decide_eq_true_2 _ H).
    eapply Sorted_ind with (P := fun l => Sorted _ l);
      [constructor | | apply (sorted_by_sorted Z.leb number_key Zleb_total)].
    intros a l _ IH Hhd. constructor; [done|].
    destruct Hhd as [|b l' Hab]; constructor. by apply Z.leb_le.
  - intros H. unfold sorted_citations. rewrite (bool_decide_eq_false_2 _ H).
    apply (sorted_by_sorted str_leb author_key str_leb_total).
  - intros H. by destruct citations.
Qed.

(** *** Years *)

Lemma year_match prev s p rest :
  Re.match_at year_re prev s = Some (p, rest) ->
  exists a b c d, s = a :: b :: c :: d :: rest
    /\ ((a = "1"%char /\ b = "9"%char) \/ (a = "2"%char /\ b = "0"%char))
    /\ isdigit c = true /\ isdigit d = true.
Proof.
  unfold Re.match_at, year_re. cbn [Re.run Re.Lit Re.Rep lit list_ascii_of_string].
  destruct (xorb _ _); [|done].
  destruct s as [|a [|b [|c [|d s']]]]; cbn [Re.run];
    repeat match goal with
           | |- context [Ascii.eqb ?x ?y] =>
               destruct (Ascii.eqb_spec x y); [subst|]
           | |- context [if isdigit ?x then _ else _] =>
               destruct (isdigit x) eqn:?
           | |- context [if xorb ?x ?y then _ else _] => destruct (xorb x y)
           end; try done;
    intros [= <- <-]; eexists _, _, _, _; (split; [reflexivity|]); auto.
Qed.

Lemma isdigit_code c : isdigit c = true -> (48 <= code c <= 57)%N.
Proof.
  unfold isdigit, in_range. intros [H1 H2]%andb_true_iff.
  apply N.leb_le in H1, H2. lia.
Qed.

Lemma search_go_year s : forall prev m,
  search_go year_re prev s = Some m ->
  (1900 <= int_of_digits m <= 2099)%Z.
Proof.
  induction s as [|x s IH]; intros prev m; cbn [search_go].
  - destruct (Re.match_at year_re prev []) as [[p rest]|] eqn:E; [|done].
    apply year_match in E as (a & b & c & d & H & _). discriminate H.
  - destruct (Re.match_at year_re prev (x :: s)) as [[p rest]|] eqn:E; [|apply IH].
    apply year_match in E as (a & b & c & d & H & Hab & Hc & Hd).
    intros [= <-]. injection H as -> ->. clear IH.
    cbn [length].
    replace (S (S (S (S (length rest)))) - length rest) with 4 by lia.
    apply isdigit_code in Hc, Hd.
    destruct Hab as [[-> ->] | [-> ->]]; unfold int_of_digits; simpl firstn;
      cbn [fold_left]; change (code "1") with 49%N; change (code "9") with 57%N;
      change (code "2") with 50%N; change (code "0") with 48%N;
      change (take 0 rest) with (@nil ascii); cbn [fold_left]; lia.
Qed.

(** X25: the year of a citation built from a date string is the number
    that the leftmost match of the year pattern (19xx or 20xx standing as
    a word) spells, so it lies between 1900 and 2099; a [datetime] gives
    its own year, and a missing or empty date gives no year. *)
Theorem year_of_range (d : option date_value) (y : Z) :
  year_of d = Some y ->
  match d with
  | Some (DateStr s) =>
      (1900 <= y <= 2099)%Z /\ s <> []
      /\ option_map int_of_digits (search_go year_re None s) = Some y
  | Some (DateTime y') => y = y'
  | None => False
  end.
Proof.
  destruct d as [[y'|s]|]; simpl; [congruence | | done].
  destruct s as [|c s]; [done|]. cbn [truthy].
  destruct (search_go year_re None (c :: s)) as [m|] eqn:E; [|done].
  simpl. intros [= <-]. split; [by eapply search_go_year|]. by split.
Qed.

Lemma year_of_range_witness :
  (1900 <= 2017 <= 2099)%Z /\ lit "Published 2017-06-12" <> []
  /\ option_map int_of_digits (search_go year_re None (lit "Published 2017-06-12"))
     = Some 2017%Z.
Proof.
  apply (year_of_range (Some (DateStr (lit "Published 2017-06-12"))) 2017).
  vm_compute. reflexivity.
Defined.

(** *** The citation map and the markers *)

Lemma fold_map_step_first t chunks : forall m,
  citation_of t (fold_left map_step chunks m)
  = match citation_of t m with
    | Some c => Some c
    | None => option_map (fun chunk => create_citation_from_metadata (metadata chunk))
                         (first_chunk_of t chunks)
    end.
Proof.
  induction chunks as [|ch chunks IH]; intros m; simpl.
  - by destruct (citation_of t m).
  - rewrite IH. unfold map_step.
    destruct (cited_title ch) as [t'|] eqn:Et.
    + destruct (decide (t' = t)) as [->|Hne].
      * rewrite bool_decide_eq_true_2 by done.
        destruct (citation_of t m) eqn:Ec; [by rewrite Ec|].
        rewrite citation_of_app, Ec. simpl.
        by rewrite bool_decide_eq_true_2.
      * rewrite bool_decide_eq_false_2 by congruence.
        destruct (citation_of t' m); [done|].
        rewrite citation_of_app. simpl.
        rewrite bool_decide_eq_false_2 by done.
        by destruct (citation_of t m).
    + rewrite bool_decide_eq_false_2 by congruence. done.
Qed.

(** X26: [create_citation_map] has one entry per usable paper title (not
    missing, not empty), in the order in which the titles first occur, and
    the citation of a title is built from the metadata of the first chunk
    with that title: later chunks of the same paper never change it. *)
Theorem create_citation_map_first_wins (chunks : list SourceChunk) :
  NoDup (map fst (create_citation_map chunks))
  /\ map fst (create_citation_map chunks) = first_seen (omap cited_title chunks)
  /\ (forall t, citation_of t (create_citation_map chunks)
               = option_map (fun chunk => create_citation_from_metadata (metadata chunk))
                            (first_chunk_of t chunks))
  /\ [] ∉ map fst (create_citation_map chunks).
Proof.
  assert (forall t, citation_of t (create_citation_map chunks)
               = option_map (fun chunk => create_citation_from_metadata (metadata chunk))
                            (first_chunk_of t chunks)) as Hfirst.
  { intros t. unfold create_citation_map.
    change (fun m chunk => _) with map_step.
    by rewrite fold_map_step_first. }
  split; [|split; [apply create_citation_map_keys | split; [done|]]].
  - rewrite create_citation_map_keys. unfold first_seen.
    assert (forall (l acc : list str), NoDup acc ->
              NoDup (fold_left (fun acc t => if bool_decide (t ∈ acc) then acc
                                             else acc ++ [t]) l acc)) as G.
    { induction l as [|x l IH]; intros acc Hacc; [done|]. simpl. apply IH.
      destruct (bool_decide (x ∈ acc)) eqn:E; [done|].
      apply bool_decide_eq_false in E. apply NoDup_app. split; [done|].
      split; [|apply NoDup_singleton].
      intros y Hy ->%list_elem_of_singleton. done. }
    apply G. constructor.
  - intros Hin. apply citation_of_None in Hin; [done|]. clear Hin.
    rewrite Hfirst. unfold first_chunk_of.
    destruct (List.find _ chunks) as [ch|] eqn:Ef; [|done].
    apply find_some in Ef as [_ Ht]. apply bool_decide_eq_true in Ht.
    unfold cited_title in Ht. destruct (paper_title (metadata ch)) as [[|c t]|]; done.
Qed.

(** The second chunk of the first paper names another author; the map
    keeps the authors of the first chunk. *)
Example create_citation_map_example :
  map (fun kc => (kc.1, c_authors kc.2)) (create_citation_map mixed_chunks)
  = [(lit "Attention Is All You Need", [lit "Smith"]); (lit "BERT", [lit "Smith"])].
Proof. vm_compute. reflexivity. Qed.

(** X27: with a counter that is not negative, [format_numeric] leaves a
    citation with a non-zero number and advances the counter by at most
    one; formatting the same citation again returns the same marker and
    changes neither the citation nor the counter. *)
Theorem format_numeric_stable (count : Z) (c : Citation) :
  (0 <= count)%Z ->
  let '(marker, c', count') := format_numeric count c in
  format_numeric count' c' = (marker, c', count')
  /\ number_truthy c' = true
  /\ (count <= count' <= count + 1)%Z
  /\ (number_truthy c = true -> c' = c /\ count' = count)
  /\ (number_truthy c = false -> citation_number c' = Some (count + 1)%Z
                                  /\ count' = (count + 1)%Z).
Proof.
  intros Hc. unfold format_numeric.
  destruct (number_truthy c) eqn:E.
  - rewrite E. repeat split; try done; lia.
  - assert (number_truthy (set_number (count + 1) c) = true) as Ht.
    { unfold number_truthy, set_number. simpl. apply negb_true_iff, Z.eqb_neq. lia. }
    rewrite Ht. repeat split; try done; lia.
Qed.

Lemma format_numeric_stable_witness :
  let '(marker, c', count') :=
    format_numeric 2 (create_citation_from_metadata
                        (metadata (source_chunk "BERT" ""))) in
  format_numeric count' c' = (marker, c', count')
  /\ number_truthy c' = true
  /\ (2 <= count' <= 2 + 1)%Z
  /\ (number_truthy (create_citation_from_metadata
                       (metadata (source_chunk "BERT" ""))) = true ->
      c' = create_citation_from_metadata (metadata (source_chunk "BERT" ""))
      /\ count' = 2%Z)
  /\ (number_truthy (create_citation_from_metadata
                       (metadata (source_chunk "BERT" ""))) = false ->
      citation_number c' = Some (2 + 1)%Z /\ count' = (2 + 1)%Z).
Proof.
  apply (format_numeric_stable 2
           (create_citation_from_metadata (metadata (source_chunk "BERT" "")))).
  lia.
Defined.

(** *** [_sentence_cites_paper] *)

Lemma Qdiv_gt_threshold (a b : nat) :
  b <> 0 ->
  negb (Qle_bool (inject_Z (Z.of_nat a) / inject_Z (Z.of_nat b)) (3 # 10)) = true
  <-> 3 * b < 10 * a.
Proof.
  intros Hb. destruct b as [|b]; [done|].
  rewrite negb_true_iff. unfold Qle_bool, Qdiv, Qmult, Qinv, inject_Z.
  change (Z.of_nat (S b)) with (Z.pos (Pos.of_succ_nat b)).
  cbn [Qnum Qden]. rewrite Z.leb_gt, Pos.mul_1_l.
  pose proof (Zpos_P_of_succ_nat b). lia.
Qed.

(** X28: [_sentence_cites_paper] compares significant words (lower-cased,
    split at whitespace, common words removed): it holds exactly when both
    texts have a significant word and more than three tenths of the
    sentence's significant words occur among the chunk's.  So a sentence
    all of whose significant words occur in the chunk is attributed to it,
    and the case of the letters plays no part. *)
Theorem sentence_cites_paper_spec (sentence chunk_text : str) :
  (_sentence_cites_paper sentence chunk_text = true
   <-> significant_words sentence <> ∅ /\ significant_words chunk_text <> ∅
       /\ 3 * size (significant_words sentence)
          < 10 * size (significant_words sentence ∩ significant_words chunk_text))
  /\ (significant_words sentence <> ∅ ->
      significant_words sentence ⊆ significant_words chunk_text ->
      _sentence_cites_paper sentence chunk_text = true)
  /\ _sentence_cites_paper (lower sentence) (lower chunk_text)
     = _sentence_cites_paper sentence chunk_text.
Proof.
  assert (_sentence_cites_paper sentence chunk_text = true
          <-> significant_words sentence <> ∅ /\ significant_words chunk_text <> ∅
              /\ 3 * size (significant_words sentence)
                 < 10 * size (significant_words sentence ∩ significant_words chunk_text))
    as Hspec.
  { unfold _sentence_cites_paper.
    destruct (decide (significant_words sentence = ∅)) as [Hs|Hs].
    { rewrite (bool_decide_eq_true_2 _ Hs). simpl. split; [done | by intros [? _]]. }
    rewrite (bool_decide_eq_false_2 _ Hs). simpl.
    destruct (decide (significant_words chunk_text = ∅)) as [Hc|Hc].
    { rewrite (bool_decide_eq_true_2 _ Hc). split; [done | by intros (_ & ? & _)]. }
    rewrite (bool_decide_eq_false_2 _ Hc).
    rewrite Qdiv_gt_threshold; [tauto|].
    by intros ?%size_empty_inv%leibniz_equiv. }
  split; [exact Hspec|]. split.
  - intros Hs Hsub. apply Hspec. split; [done|].
    assert (significant_words sentence ∩ significant_words chunk_text
            = significant_words sentence) as ->
      by by apply subseteq_intersection_1_L.
    assert (size (significant_words sentence) <> 0) as Hn.
    { by intros ?%size_empty_inv%leibniz_equiv. }
    split; [|lia]. intros Hc. rewrite Hc in Hsub. by apply Hs, equiv_empty_L.
  - unfold _sentence_cites_paper, significant_words. by rewrite !lower_idem.
Qed.

End CitationFormatterFacts.

(** ** Answer synthesis: key points and confidence *)

Section AnswerSynthesizerFacts.
Import Retriever AnswerSynthesizer.

(** *** [_extract_key_points] *)

Lemma split_char_pieces sep s :
  Forall (fun p => (sep ∉ p) /\ length p <= length s) (split_char sep s).
Proof.
  induction s as [|c s IH]; simpl.
  - repeat constructor. by intros ?%elem_of_nil.
  - destruct (Ascii.eqb_spec c sep) as [->|Hne].
    + constructor; [split; [by intros ?%elem_of_nil | simpl; lia]|].
      eapply Forall_impl; [exact IH|]. simpl. intros p [? ?]. split; [done | lia].
    + destruct (split_char sep s) as [|p ps].
      * constructor; [|constructor]. split; [|simpl; lia].
        intros [?| ?%elem_of_nil]%elem_of_cons; [congruence | done].
      * apply Forall_cons in IH as [[Hp Hl] Hps]. constructor.
        -- split; [|simpl; lia]. intros [?|?]%elem_of_cons; [congruence | done].
        -- eapply Forall_impl; [exact Hps|]. simpl. intros q [? ?]. split; [done | lia].
Qed.

Lemma rstrip_length_le s : length (rstrip s) <= length s.
Proof.
  induction s as [|c s IH]; [done|]. rewrite rstrip_cons.
  destruct (rstrip s); [destruct (isspace c)|]; simpl in *; lia.
Qed.

Lemma strip_length_le s : length (strip s) <= length s.
Proof.
  unfold strip. etrans; [apply rstrip_length_le | apply dropwhile_length].
Qed.

(** X29: [_extract_key_points] returns at most three points; each is a
    piece of the text between full stops with the surrounding whitespace
    removed, so it holds no full stop, has more than 20 characters, and
    has a digit or more than 50 characters.  A text of at most 20
    characters has no key points. *)
Theorem extract_key_points_spec (txt : str) :
  length (_extract_key_points txt) <= 3
  /\ Forall (fun p => 20 < length p
                      /\ strip p = p
                      /\ ("."%char ∉ p)
                      /\ (existsb char_isdigit p = true \/ 50 < length p))
            (_extract_key_points txt)
  /\ (length txt <= 20 -> _extract_key_points txt = []).
Proof.
  unfold _extract_key_points.
  assert (Forall (fun p => 20 < length p /\ strip p = p /\ ("."%char ∉ p)
                           /\ (existsb char_isdigit p = true \/ 50 < length p))
                 (flat_map key_point (split_char "." txt))) as Hall.
  { apply Forall_forall. intros p Hp.
    apply list_elem_of_In, in_flat_map in Hp as (piece & Hpiece & Hp).
    apply list_elem_of_In in Hpiece.
    pose proof (split_char_pieces "." txt) as Hps.
    rewrite Forall_forall in Hps. destruct (Hps piece Hpiece) as [Hdot _].
    unfold key_point in Hp.
    destruct (_ && _) eqn:E; [|done]. destruct Hp as [<- | []].
    apply andb_true_iff in E as [Hlen Hrest]. apply Nat.ltb_lt in Hlen.
    split; [done|]. split; [apply strip_id; [apply lstrip_strip | apply rstrip_strip]|].
    split.
    - intros Hin. apply Hdot.
      assert (Forall (fun c => c <> "."%char) (strip piece)) as Hf.
      { apply strip_Forall, Forall_forall. intros c Hc ->. done. }
      rewrite Forall_forall in Hf. by destruct (Hf _ Hin).
    - apply orb_true_iff in Hrest as [? | ?%Nat.ltb_lt]; auto. }
  split; [|split].
  - rewrite slice_to_take by lia. rewrite length_take. lia.
  - rewrite slice_to_take by lia. by apply Forall_take.
  - intros Hshort. clear Hall.
    assert (flat_map key_point (split_char "." txt) = []) as ->; [|done].
    pose proof (split_char_pieces "." txt) as Hps.
    induction (split_char "." txt) as [|piece l IH]; [done|].
    apply Forall_cons in Hps as [[_ Hl] Hps]. simpl. rewrite (IH Hps).
    unfold key_point. pose proof (strip_length_le piece).
    destruct (Nat.ltb_spec 20 (length (strip piece))); [lia | done].
Qed.

(** A chunk text of three sentences: the short one is dropped, the one
    with a number and the long one are kept. *)
Example extract_key_points_example :
  _extract_key_points
    (lit "Short one. The model reaches 92 percent accuracy. This sentence has no number at all but is long enough.")
  = [lit "The model reaches 92 percent accuracy";
     lit "This sentence has no number at all but is long enough"].
Proof. vm_compute. reflexivity. Qed.

(** *** [_calculate_confidence_score] *)

Lemma Qmin2_le_l a b : (Qmin2 a b <= a)%Q.
Proof.
  unfold Qmin2, Qlt_bool. destruct (Qle_bool a b) eqn:E; simpl; [lra|].
  apply not_true_iff_false in E. rewrite Qle_bool_iff in E. lra.
Qed.

Lemma Qmin2_le_r a b : (Qmin2 a b <= b)%Q.
Proof.
  unfold Qmin2, Qlt_bool. destruct (Qle_bool a b) eqn:E; simpl; [|lra].
  by apply Qle_bool_iff in E.
Qed.

Lemma Qmin2_glb a b c : (c <= a)%Q -> (c <= b)%Q -> (c <= Qmin2 a b)%Q.
Proof. intros. unfold Qmin2. by destruct (Qlt_bool b a). Qed.

Lemma Qmin2_glb_lt a b c : (c < a)%Q -> (c < b)%Q -> (c < Qmin2 a b)%Q.
Proof. intros. unfold Qmin2. by destruct (Qlt_bool b a). Qed.

Lemma Qsum_from (l : list Q) : forall a,
  (fold_left Qplus l a == a + fold_left Qplus l 0)%Q.
Proof.
  induction l as [|x l IH]; intros a; simpl; [lra|].
  rewrite (IH (a + x)%Q), (IH (0 + x)%Q). lra.
Qed.

Lemma Qsum_nonneg (l : list Q) :
  Forall (fun x => (0 <= x)%Q) l -> (0 <= Qsum l)%Q.
Proof.
  unfold Qsum. induction 1 as [|x l Hx Hl IH]; simpl; [lra|].
  rewrite Qsum_from. lra.
Qed.

(** X30: the confidence score is 0 when there are no chunks or no answer
    and never exceeds 1; when no similarity is negative, the score is not
    negative either and, for at least one chunk and a non-empty answer, it
    is above 0.06.  (With a negative similarity the score can be
    negative.)  The arithmetic is taken exactly. *)
Theorem confidence_score_bounds (chunks : list RetrievalResult) (answer : str) :
  let score := _calculate_confidence_score chunks answer in
  (score <= 1)%Q
  /\ (chunks = [] \/ answer = [] -> score = 0%Q)
  /\ (Forall (fun c => (0 <= similarity c)%Q) chunks ->
      (0 <= score)%Q
      /\ (chunks <> [] -> answer <> [] -> (3 # 50 < score)%Q)).
Proof.
  intros score. subst score. unfold _calculate_confidence_score.
  split; [|split].
  - destruct (_ || _); [lra | apply Qmin2_le_r].
  - intros [-> | ->]; [done|]. by rewrite orb_true_r.
  - intros Hsim. destruct chunks as [|c chunks]; [simpl; split; [lra | done]|].
    rewrite bool_decide_eq_true_2 by done. cbn [negb orb].
    destruct answer as [|a answer]; [simpl; split; [lra | done]|].
    cbn [truthy negb].
    set (n := inject_Z (Z.of_nat (length (c :: chunks)))).
    set (len := inject_Z (Z.of_nat (length (a :: answer)))).
    assert (1 <= n)%Q as Hn.
    { unfold n, Qle, inject_Z. simpl. lia. }
    assert (1 <= len)%Q as Hlen.
    { unfold len, Qle, inject_Z. simpl. lia. }
    assert (0 <= Qsum (map similarity (c :: chunks)) / n)%Q as Havg.
    { apply Qle_shift_div_l; [lra|]. rewrite Qmult_0_l.
      apply Qsum_nonneg. by apply Forall_map. }
    assert (1 # 5 <= Qmin2 (n / 5) 1)%Q as Hcf.
    { apply Qmin2_glb; [|lra]. apply Qle_shift_div_l; lra. }
    assert (0 < Qmin2 (len / 500) 1)%Q as Hlf.
    { apply Qmin2_glb_lt; [|lra]. apply Qlt_shift_div_l; lra. }
    assert (3 # 50 < Qmin2 (Qsum (map similarity (c :: chunks)) / n * (5 # 10)
                             + Qmin2 (n / 5) 1 * (3 # 10)
                             + Qmin2 (len / 500) 1 * (2 # 10)) 1)%Q as Hscore.
    { apply Qmin2_glb_lt; lra. }
    split; [lra | by intros _ _].
Qed.

(** Three chunks of similarity 0.8 and an answer of 250 characters:
    0.8 * 0.5 + 0.6 * 0.3 + 0.5 * 0.2 = 0.68. *)
Example confidence_score_example :
  (_calculate_confidence_score
     [mk_result "c1" "Paper A" (8 # 10); mk_result "c2" "Paper A" (8 # 10);
      mk_result "c3" "Paper B" (8 # 10)]
     (repeat "a"%char 250) == 68 # 100)%Q.
Proof. vm_compute. reflexivity. Qed.

(** One chunk of similarity -1 and an answer of one character:
    -0.5 + 0.06 + 0.0004 is negative. *)
Example confidence_score_negative :
  (_calculate_confidence_score [mk_result "c1" "Paper A" (-1)] (lit "a")
   == -1099 # 2500)%Q.
Proof. vm_compute. reflexivity. Qed.

End AnswerSynthesizerFacts.
